(** * Portfolio Analyzer: ingestion normalizer and analytics engine

    A shallow embedding of [src/src/PortfolioAnalyzer.jsx]: the function
    [processRawRows] (the normalizer) and the body of the [analysis]
    memo (the analytics engine), together with the JavaScript built-ins
    they call; then the CSV reader [parseCSVText], the text that
    [downloadCSV] builds, the memo of the dashboard component and the
    filter of the holdings table.

    Conventions of the embedding.
    - A JavaScript number is an IEEE 754 binary64 value, here a
      [spec_float] of the Standard Library with precision 53 and maximal
      exponent 1024; every arithmetic operation rounds to nearest, ties
      to even, exactly as the language does.
    - A JavaScript string is a [string]; its characters are the code
      units 0 to 255 (ASCII and Latin-1).
    - A JavaScript object used as a dictionary is an insertion-ordered
      association list with unique keys ([obj]); [Obj.keys] enumerates it in
      the order of [Object.keys] (array indices first, ascending, then the
      other keys in insertion order). The list holds the own properties.
      A read [o[k]] also finds what the object inherits from
      [Object.prototype] ([Obj.inherited]): the embedding follows the code
      there for a scheme name, a header and the benchmark key; for the
      other dictionaries of the pass it follows the code on holdings whose
      keys are not inherited ([ordinaryData]), an assumption of the
      theorems that need it.
    - [sort] is embedded as the stable sort; what is proved about the
      order of a sorted list assumes keys that are not NaN, for which the
      comparators of the code are consistent.
    - Array lengths that enter arithmetic (the health score) are natural
      numbers and the score is computed over [Q]: every intermediate value
      is a multiple of one half and far below 2^53, so binary64 arithmetic
      is exact on it. *)

From Stdlib Require Import ZArith NArith List Bool String Ascii Lia.
From Stdlib Require Import Permutation Sorted QArith Qround.
From Stdlib Require Import SpecFloat DecimalString Zpower.
Import ListNotations.

Set Implicit Arguments.

Local Open Scope string_scope.
Local Open Scope Z_scope.

(* ================================================================== *)
(** * Part I. Definitions                                              *)
(* ================================================================== *)

(** ** Strings *)

Module Str.

Definition code (c : ascii) : N := N_of_ascii c.

(** White space of [String.prototype.trim] and of [parseFloat] within
    the code units 0..255: TAB, LF, VT, FF, CR, SP and NBSP. *)
Definition isWhite (c : ascii) : bool :=
  let n := code c in
  ((9 <=? n) && (n <=? 13) || (n =? 32) || (n =? 160))%N.

Definition digitOf (c : ascii) : option N :=
  let n := code c in
  if ((48 <=? n) && (n <=? 57))%N then Some (n - 48)%N else None.

(** [String.prototype.toLowerCase] on one code unit: A-Z and the
    Latin-1 capitals (except the multiplication sign) move up by 32. *)
Definition lowerChar (c : ascii) : ascii :=
  let n := code c in
  if ((65 <=? n) && (n <=? 90) || (192 <=? n) && (n <=? 222) && negb (n =? 215))%N
  then ascii_of_N (n + 32) else c.

Fixpoint toLowerCase (s : string) : string :=
  match s with
  | EmptyString => EmptyString
  | String c r => String (lowerChar c) (toLowerCase r)
  end.

Fixpoint trimStart (s : string) : string :=
  match s with
  | String c r => if isWhite c then trimStart r else s
  | EmptyString => EmptyString
  end.

Fixpoint rev_acc (s acc : string) : string :=
  match s with
  | EmptyString => acc
  | String c r => rev_acc r (String c acc)
  end.

Definition rev (s : string) : string := rev_acc s EmptyString.

Definition trimEnd (s : string) : string := rev (trimStart (rev s)).

(** [s.trim()] *)
Definition trim (s : string) : string := trimEnd (trimStart s).

Definition quote : ascii := ascii_of_N 34.

(** [s.replace(/^"|"$/g, '')]: one straight quote is removed at the
    start if there is one, and one at the end of what is left. *)
Definition dropLeadingQuote (s : string) : string :=
  match s with
  | String c r => if Ascii.eqb c quote then r else s
  | EmptyString => EmptyString
  end.

Definition unquote (s : string) : string :=
  rev (dropLeadingQuote (rev (dropLeadingQuote s))).

(** [s.replace(/c/g, '')] for a single character [c]. *)
Fixpoint removeChar (c : ascii) (s : string) : string :=
  match s with
  | EmptyString => EmptyString
  | String d r => if Ascii.eqb c d then removeChar c r else String d (removeChar c r)
  end.

Fixpoint startsWith (p s : string) : bool :=
  match p, s with
  | EmptyString, _ => true
  | String a p', String b s' => Ascii.eqb a b && startsWith p' s'
  | String _ _, EmptyString => false
  end.

(** [s.includes(p)] *)
Fixpoint includes (p s : string) : bool :=
  startsWith p s ||
  match s with
  | EmptyString => false
  | String _ r => includes p r
  end.

Fixpoint dropN (n : nat) (s : string) : string :=
  match n, s with
  | O, _ => s
  | S n', String _ r => dropN n' r
  | S _, EmptyString => EmptyString
  end.

Fixpoint takeN (n : nat) (s : string) : string :=
  match n, s with
  | O, _ => EmptyString
  | S n', String c r => String c (takeN n' r)
  | S _, EmptyString => EmptyString
  end.

Fixpoint repeatChar (c : ascii) (n : nat) : string :=
  match n with
  | O => EmptyString
  | S n' => String c (repeatChar c n')
  end.

(** Decimal digits of a natural number, ["0"] for zero. *)
Definition ofN (n : N) : string := NilZero.string_of_uint (N.to_uint n).

Definition hexDigit (n : N) : ascii :=
  if (n <? 10)%N then ascii_of_N (48 + n) else ascii_of_N (87 + n).

End Str.

(** ** Numbers: IEEE 754 binary64 *)

Module Num.

Definition num := spec_float.

Definition prec : Z := 53.
Definition emax : Z := 1024.

Definition NaN : num := S754_nan.
Definition zero : num := S754_zero false.
Definition infinity (neg : bool) : num := S754_infinity neg.

Definition add : num -> num -> num := SFadd prec emax.
Definition sub : num -> num -> num := SFsub prec emax.
Definition mul : num -> num -> num := SFmul prec emax.
Definition div : num -> num -> num := SFdiv prec emax.

(** [x < y], [x > y], [x >= y]: false as soon as an operand is NaN. *)
Definition lt (x y : num) : bool := SFltb x y.
Definition gt (x y : num) : bool := SFltb y x.
Definition ge (x y : num) : bool := SFleb y x.

Definition isNaN (x : num) : bool :=
  match x with S754_nan => true | _ => false end.

Definition isZero (x : num) : bool :=
  match x with S754_zero _ => true | _ => false end.

Definition isFinite (x : num) : bool :=
  match x with S754_zero _ | S754_finite _ _ _ => true | _ => false end.

(** ToBoolean on a number: 0, -0 and NaN are falsy. *)
Definition truthy (x : num) : bool := negb (isZero x || isNaN x).

(** The integer [z] as a number (rounded when it has more than 53 bits). *)
Definition ofZ (z : Z) : num := binary_normalize prec emax z 0 false.

(** The number nearest to the decimal [m * 10^e] (ties to even), with
    the sign [neg]: what the language reads from a decimal literal. *)
Definition ofDecimal (neg : bool) (m : N) (e : Z) : num :=
  match m with
  | N0 => S754_zero neg
  | Npos p =>
      if 0 <=? e
      then binary_round prec emax neg (p * Z.to_pos (10 ^ e)) 0
      else SFdiv prec emax (S754_finite neg p 0)
                           (S754_finite false (Z.to_pos (10 ^ (- e))) 0)
  end.

(** Structural equality of two numbers (NaN equals NaN, 0 differs from -0). *)
Definition same (x y : num) : bool :=
  match x, y with
  | S754_nan, S754_nan => true
  | S754_zero a, S754_zero b => Bool.eqb a b
  | S754_infinity a, S754_infinity b => Bool.eqb a b
  | S754_finite a m e, S754_finite b n f => Bool.eqb a b && (m =? n)%positive && (e =? f)
  | _, _ => false
  end.

(** *** [parseFloat] on a string *)

Fixpoint digits (acc : N) (count : nat) (s : string) : N * nat * string :=
  match s with
  | String c r =>
      match Str.digitOf c with
      | Some d => digits (10 * acc + d)%N (S count) r
      | None => (acc, count, s)
      end
  | EmptyString => (acc, count, s)
  end.

Definition signOf (s : string) : bool * string :=
  match s with
  | String "-" r => (true, r)
  | String "+" r => (false, r)
  | _ => (false, s)
  end.

(** The exponent part [e[+-]digits], 0 when it is absent or incomplete. *)
Definition exponentOf (s : string) : Z :=
  match s with
  | String c r =>
      if (Ascii.eqb c "e" || Ascii.eqb c "E")%bool then
        let '(neg, r') := signOf r in
        let '(v, n, _) := digits 0 0 r' in
        match n with
        | O => 0
        | S _ => if neg then - Z.of_N v else Z.of_N v
        end
      else 0
  | EmptyString => 0
  end.

Definition parseFloat (s : string) : num :=
  let '(neg, s1) := signOf (Str.trimStart s) in
  if Str.startsWith "Infinity" s1 then infinity neg else
  let '(ip, ni, s2) := digits 0 0 s1 in
  let '(m, nf, s3) :=
    match s2 with
    | String "." r => digits ip 0 r
    | _ => (ip, O, s2)
    end in
  match (ni + nf)%nat with
  | O => NaN
  | S _ => ofDecimal neg m (exponentOf s3 - Z.of_nat nf)
  end.

(** *** [Number::toString] (radix 10) *)

(** The positive number [m * 2^e] as a fraction of two positive integers. *)
Definition fraction (m : positive) (e : Z) : Z * Z :=
  if 0 <=? e then (Zpos m * 2 ^ e, 1) else (Zpos m, 2 ^ (- e)).

(** [n] with [10^(n-1) <= p/q < 10^n]. *)
Fixpoint leadingZeros (fuel : nat) (p q : Z) (j : Z) : Z :=
  match fuel with
  | O => j
  | S f => if q <=? p * 10 ^ j then j else leadingZeros f p q (j + 1)
  end.

Definition decimalExponent (p q : Z) : Z :=
  if q <=? p
  then Z.of_nat (String.length (Str.ofN (Z.to_N (p / q))))
  else 1 - leadingZeros 400 p q 1.

(** The two integers next to [p/q * 10^d], the nearer one first (the
    even one when [p/q * 10^d] lies half-way). *)
Definition neighbours (p q d : Z) : Z * Z :=
  let '(a, b) := if 0 <=? d then (p * 10 ^ d, q) else (p, q * 10 ^ (- d)) in
  let f := a / b in
  let r := a mod b in
  match 2 * r ?= b with
  | Lt => (f, f + 1)
  | Gt => (f + 1, f)
  | Eq => if Z.even f then (f, f + 1) else (f + 1, f)
  end.

(** [s] as [k] digits with the exponent [n]: [10^k] is written
    [10^(k-1)] with the exponent [n + 1]. *)
Definition digitsOf (s n k : Z) : Z * Z :=
  if s =? 10 ^ k then (10 ^ (k - 1), n + 1) else (s, n).

(** [s * 10^(n-k)] reads back as [x]. *)
Definition readsBack (x : num) (s n k : Z) : bool :=
  same (ofDecimal false (Z.to_N s) (n - k)) x.

(** The decimal [s * 10^(n-k)] with the fewest digits [k] that reads
    back as the number, and among those of [k] digits the one nearest to
    it: the digits [s] and the exponent [n]. A decimal of [k] digits that
    reads back is one of the two next to the number. *)
Fixpoint shortest (fuel : nat) (x : num) (p q n k : Z) : Z * Z * Z :=
  let '(s1, s2) := neighbours p q (k - n) in
  let '(a1, n1) := digitsOf s1 n k in
  let '(a2, n2) := digitsOf s2 n k in
  match fuel with
  | O => (a1, n1, k)
  | S f =>
      if readsBack x a1 n1 k then (a1, n1, k)
      else if readsBack x a2 n2 k then (a2, n2, k)
      else shortest f x p q n (k + 1)
  end.

Definition exponentSuffix (n : Z) : string :=
  let e := n - 1 in
  String "e" ((if 0 <=? e then "+" else "-") ++ Str.ofN (Z.to_N (Z.abs e))).

Definition formatDigits (ds : string) (n k : Z) : string :=
  if (k <=? n) && (n <=? 21) then
    ds ++ Str.repeatChar "0" (Z.to_nat (n - k))
  else if (0 <? n) && (n <=? 21) then
    Str.takeN (Z.to_nat n) ds ++ "." ++ Str.dropN (Z.to_nat n) ds
  else if (-6 <? n) && (n <=? 0) then
    "0." ++ Str.repeatChar "0" (Z.to_nat (- n)) ++ ds
  else if k =? 1 then
    ds ++ exponentSuffix n
  else
    Str.takeN 1 ds ++ "." ++ Str.dropN 1 ds ++ exponentSuffix n.

(** The digits are those of the number in canonical form, whatever
    form [x] is given in. *)
Definition toString (x : num) : string :=
  match x with
  | S754_nan => "NaN"
  | S754_zero _ => "0"
  | S754_infinity neg => if neg then "-Infinity" else "Infinity"
  | S754_finite neg m e =>
      let '(p, q) := fraction m e in
      let x := binary_normalize prec emax (Z.pos m) e false in
      let '(s, n, k) := shortest 16 x p q (decimalExponent p q) 1 in
      (if neg then "-" else "") ++ formatDigits (Str.ofN (Z.to_N s)) n k
  end.

(** *** [Number.prototype.toFixed(2)] *)

(** [n] with [n / 100 - p/q] closest to zero, the larger one on a tie. *)
Definition hundredths (p q : Z) : Z := (2 * 100 * p + q) / (2 * q).

Definition toFixed2 (x : num) : string :=
  match x with
  | S754_finite neg m e =>
      if SFleb (ofDecimal false 1 21) (S754_finite false m e) then toString x
      else
        let '(p, q) := fraction m e in
        let ds := Str.ofN (Z.to_N (hundredths p q)) in
        let ds := Str.repeatChar "0" (3 - String.length ds) ++ ds in
        let k := String.length ds in
        (if neg then "-" else "")
          ++ Str.takeN (k - 2) ds ++ "." ++ Str.dropN (k - 2) ds
  | S754_zero _ => "0.00"
  | _ => toString x
  end.

(** [parseFloat(x.toFixed(2))] *)
Definition round2 (x : num) : num := parseFloat (toFixed2 x).

End Num.

(** ** Cell values and objects *)

(** What a cell of the decoded grid, or a property of a row object, can
    hold: nothing ([undefined], also a hole or an index past the end of
    the row), [null], a string or a number. *)
Inductive value : Type :=
  | VUndefined
  | VNull
  | VStr (s : string)
  | VNum (x : Num.num).

(** ToBoolean *)
Definition truthy (v : value) : bool :=
  match v with
  | VUndefined | VNull => false
  | VStr s => negb (String.eqb s "")
  | VNum x => Num.truthy x
  end.

(** [String(v)], also the property key a value is used as. *)
Definition toStr (v : value) : string :=
  match v with
  | VUndefined => "undefined"
  | VNull => "null"
  | VStr s => s
  | VNum x => Num.toString x
  end.

(** [v || 'Other'] *)
Definition orOther (v : value) : value :=
  if truthy v then v else VStr "Other".

Module Json.

(** One character inside a JSON string literal. *)
Definition escapeChar (c : ascii) : string :=
  let n := Str.code c in
  if (n =? 34)%N then String "\" (String Str.quote "")
  else if (n =? 92)%N then "\\"
  else if (n =? 8)%N then "\b"
  else if (n =? 12)%N then "\f"
  else if (n =? 10)%N then "\n"
  else if (n =? 13)%N then "\r"
  else if (n =? 9)%N then "\t"
  else if (n <? 32)%N then
    "\u00" ++ String (Str.hexDigit (n / 16)) (String (Str.hexDigit (n mod 16)) "")
  else String c "".

Fixpoint escape (s : string) : string :=
  match s with
  | EmptyString => EmptyString
  | String c r => escapeChar c ++ escape r
  end.

(** An element of an array: what is not a string or a finite number
    is written [null]. *)
Definition element (v : value) : string :=
  match v with
  | VStr s => String Str.quote (escape s ++ String Str.quote "")
  | VNum x => if Num.isFinite x then Num.toString x else "null"
  | VUndefined | VNull => "null"
  end.

Fixpoint joinComma (l : list string) : string :=
  match l with
  | [] => ""
  | [a] => a
  | a :: r => a ++ "," ++ joinComma r
  end.

(** [JSON.stringify(row)] for an array of cells. *)
Definition stringify (row : list value) : string :=
  "[" ++ joinComma (map element row) ++ "]".

End Json.

(** Objects used as dictionaries. *)
Module Obj.

Section Dict.
Variable V : Type.

Definition obj := list (string * V).

(** [o[k]], [None] for [undefined]. *)
Fixpoint get (k : string) (o : obj) : option V :=
  match o with
  | [] => None
  | (k', v) :: r => if String.eqb k k' then Some v else get k r
  end.

(** [o[k] = v]: an existing key keeps its place, a new one goes last. *)
Fixpoint set (k : string) (v : V) (o : obj) : obj :=
  match o with
  | [] => [(k, v)]
  | (k', v') :: r => if String.eqb k k' then (k, v) :: r else (k', v') :: set k v r
  end.

(** A key that is an array index: the canonical decimal text of an
    integer below 2^32 - 1. *)
Definition arrayIndex (k : string) : option N :=
  let '(n, _, _) := Num.digits 0 0 k in
  if String.eqb (Str.ofN n) k && (n <? 4294967295)%N then Some n else None.

Definition isIndex (e : string * V) : bool :=
  match arrayIndex (fst e) with Some _ => true | None => false end.

Definition indexOf (e : string * V) : N :=
  match arrayIndex (fst e) with Some n => n | None => 0%N end.

Fixpoint insertIndex (e : string * V) (l : obj) : obj :=
  match l with
  | [] => [e]
  | f :: r => if (indexOf e <=? indexOf f)%N then e :: l else f :: insertIndex e r
  end.

(** [Object.entries(o)]: array indices ascending, then the other keys
    in insertion order. *)
Definition entries (o : obj) : obj :=
  (fold_right insertIndex [] (filter isIndex o)
     ++ filter (fun e => negb (isIndex e)) o)%list.

Definition keys (o : obj) : list string := map fst (entries o).
Definition values (o : obj) : list V := map snd (entries o).

End Dict.

(** The names every plain object inherits from [Object.prototype]:
    the read [o[k]] of such a name finds the inherited member (a function,
    or the prototype itself for [__proto__]) when [o] has no property of
    its own under it, and that member is truthy. *)
Definition prototypeMembers : list string :=
  [ "constructor"; "__defineGetter__"; "__defineSetter__"; "hasOwnProperty";
    "__lookupGetter__"; "__lookupSetter__"; "isPrototypeOf";
    "propertyIsEnumerable"; "toString"; "valueOf"; "__proto__";
    "toLocaleString" ].

Definition inherited (k : string) : bool := existsb (String.eqb k) prototypeMembers.

End Obj.

Abbreviation obj := Obj.obj.

(** The shape of every grouping loop of the engine: the body stores
    under [key x] a value computed from what was there. What was there
    is read as an own property, which is what the code reads for every
    key that is not inherited ([Obj.inherited]). *)
Section Grouping.
Variables (A V : Type) (key : A -> string) (upd : option V -> A -> V).

Definition gstep (o : obj V) (x : A) : obj V :=
  Obj.set (key x) (upd (Obj.get (key x) o) x) o.

Definition hasKey (k : string) (x : A) : bool := String.eqb (key x) k.

End Grouping.

(** [Array.prototype.sort(cmp)]: a stable sort; [cmp a b > 0] is the
    only outcome that moves [b] in front of an earlier [a] (a negative,
    zero or NaN result keeps the two in place). For a comparator that
    orders its arguments consistently this is the one result a stable
    sort can give. The comparators of the engine are differences of
    two keys: they are consistent when no key is NaN. With a NaN key the
    language leaves the order of the result open (it is a permutation of
    the input all the same), so what is proved about the order of a
    sorted list assumes keys that are not NaN. *)
Section Sort.
Variable A : Type.
Variable cmp : A -> A -> Num.num.

Fixpoint insertBy (x : A) (l : list A) : list A :=
  match l with
  | [] => [x]
  | y :: r => if Num.gt (cmp x y) Num.zero then y :: insertBy x r else x :: l
  end.

Definition sortBy (l : list A) : list A := fold_right insertBy [] l.

End Sort.

(** ** The ingestion normalizer: [processRawRows] *)

(** A row of the grid. In the header row an undefined cell stands for
    the value [undefined], which [String] turns into a header of that
    name; a hole of a sparse header row, which [map] and [forEach] pass
    over, is not represented. *)
Definition row := list value.

(** The row as the header test reads it:
    [JSON.stringify(rows[i]).toLowerCase()]. *)
Definition rowStr (r : row) : string := Str.toLowerCase (Json.stringify r).

Definition isHeaderRow (r : row) : bool :=
  Str.includes "scheme name" (rowStr r) && Str.includes "current value" (rowStr r).

(** The first loop: the index of the first header row, [None] for -1. *)
Fixpoint headerIndex (rows : list row) : option nat :=
  match rows with
  | [] => None
  | r :: rest => if isHeaderRow r then Some O else option_map S (headerIndex rest)
  end.

(** [String(h).trim().replace(/^"|"$/g, '')] *)
Definition headerName (h : value) : string := Str.unquote (Str.trim (toStr h)).

Definition numericColumns : list string :=
  ["Invested Value"; "Current Value"; "Returns"; "Units"].

(** [val !== undefined && val !== null && val !== ''] is false. *)
Definition isBlank (v : value) : bool :=
  match v with
  | VUndefined | VNull => true
  | VStr s => String.eqb s ""
  | VNum _ => false
  end.

(** The cell as the callback of [headers.forEach] stores it under
    [header]. *)
Definition coerce (header : string) (cell : value) : value :=
  let val :=
    match cell with
    | VStr s => VStr (Str.unquote (Str.trim s))
    | _ => cell
    end in
  let val :=
    if existsb (String.eqb header) numericColumns then
      if isBlank val then VNum Num.zero
      else match val with
           | VStr s => VNum (Num.parseFloat (Str.removeChar "," s))
           | _ => VNum (Num.parseFloat (toStr val))
           end
    else val in
  if String.eqb header "XIRR" then
    if isBlank val then VNum Num.zero
    else match val with
         | VStr s => VNum (Num.parseFloat (Str.removeChar "," (Str.removeChar "%" s)))
         | _ => VNum (Num.parseFloat (toStr val))
         end
  else val.

(** [row[index]] *)
Definition cellAt (r : row) (index : nat) : value := nth index r VUndefined.

(** [rowObj[header] = val]: under the name [__proto__] the assignment
    runs the inherited setter and creates no property. The setter
    ignores a string, a number and [undefined]; [null] makes it detach
    the prototype of the row object, after which a second column of that
    name would be stored: that is not represented. *)
Definition assign (header : string) (val : value) (rowObj : obj value) : obj value :=
  if String.eqb header "__proto__" then rowObj else Obj.set header val rowObj.

(** The row object after [headers.forEach] has run from [index] on. *)
Fixpoint fillRow (headers : list string) (index : nat) (r : row)
                 (rowObj : obj value) : obj value :=
  match headers with
  | [] => rowObj
  | header :: rest =>
      fillRow rest (S index) r (assign header (coerce header (cellAt r index)) rowObj)
  end.

(** [rowObj[k]] *)
Definition prop (rowObj : obj value) (k : string) : value :=
  match Obj.get k rowObj with Some v => v | None => VUndefined end.

(** The second loop, over the rows after the header. *)
Fixpoint dataRows (headers : list string) (rows : list row) : list (obj value) :=
  match rows with
  | [] => []
  | r :: rest =>
      if (List.length r <? 2)%nat then dataRows headers rest
      else
        let rowObj := fillRow headers 0 r [] in
        if truthy (prop rowObj "Scheme Name")
        then rowObj :: dataRows headers rest
        else dataRows headers rest
  end.

Definition processRawRows (rows : list row) : list (obj value) :=
  match headerIndex rows with
  | None => []
  | Some i =>
      let headers := map headerName (nth i rows []) in
      dataRows headers (skipn (S i) rows)
  end.

(** ** The analytics engine: the [analysis] memo *)

(** A numeric property of a row object: a number, or [None] when the
    property is [undefined] (its column is not in the header). The
    normalizer stores nothing else under the five numeric columns
    (lemma [numeric_columns_typed]). *)
Definition onum := option Num.num.

(** ToNumber: [undefined] becomes NaN. *)
Definition toNumber (f : onum) : Num.num :=
  match f with Some x => x | None => Num.NaN end.

(** [f || 0] *)
Definition orZero (f : onum) : Num.num :=
  match f with
  | Some x => if Num.truthy x then x else Num.zero
  | None => Num.zero
  end.

(** The properties of a row object that the engine reads. *)
Record Holding := mkHolding {
  schemeName : value;      (* 'Scheme Name' *)
  category : value;        (* 'Category' *)
  subCategory : value;     (* 'Sub-category' *)
  amc : value;             (* 'AMC' *)
  units : onum;            (* 'Units' *)
  investedValue : onum;    (* 'Invested Value' *)
  currentValue : onum;     (* 'Current Value' *)
  returns : onum;          (* 'Returns' *)
  xirr : onum              (* 'XIRR' *)
}.

Definition numberOf (v : value) : onum :=
  match v with VNum x => Some x | _ => None end.

Definition toHolding (rowObj : obj value) : Holding :=
  {| schemeName := prop rowObj "Scheme Name";
     category := prop rowObj "Category";
     subCategory := prop rowObj "Sub-category";
     amc := prop rowObj "AMC";
     units := numberOf (prop rowObj "Units");
     investedValue := numberOf (prop rowObj "Invested Value");
     currentValue := numberOf (prop rowObj "Current Value");
     returns := numberOf (prop rowObj "Returns");
     xirr := numberOf (prop rowObj "XIRR") |}.

(** An element of [processedData]: the row with its derived fields. *)
Record Item := mkItem {
  holding : Holding;
  _currentNAV : Num.num;
  _avgBuyNAV : Num.num;
  _absReturn : Num.num
}.

Definition hundred : Num.num := Num.ofZ 100.
Definition clutterLimit : Num.num := Num.ofZ 5000.

(** [invVal > 0 ? ((currVal - invVal) / invVal) * 100 : 0] *)
Definition returnPct (currVal invVal : Num.num) : Num.num :=
  if Num.gt invVal Num.zero
  then Num.mul (Num.div (Num.sub currVal invVal) invVal) hundred
  else Num.zero.

Definition processItem (h : Holding) : Item :=
  let u := orZero (units h) in
  let currVal := orZero (currentValue h) in
  let invVal := orZero (investedValue h) in
  {| holding := h;
     _currentNAV := if Num.gt u Num.zero then Num.div currVal u else Num.zero;
     _avgBuyNAV := if Num.gt u Num.zero then Num.div invVal u else Num.zero;
     _absReturn := returnPct currVal invVal |}.

(** ['Current Value'] and the like read off an item. *)
Definition itemCurrent (i : Item) : Num.num := toNumber (currentValue (holding i)).
Definition itemInvested (i : Item) : Num.num := toNumber (investedValue (holding i)).
Definition itemReturns (i : Item) : Num.num := toNumber (returns (holding i)).
Definition itemUnits (i : Item) : Num.num := toNumber (units (holding i)).

(** The keys an item is grouped under. *)
Definition catKey (i : Item) : string := toStr (orOther (category (holding i))).
Definition subCatKey (i : Item) : string := toStr (orOther (subCategory (holding i))).
Definition amcKey (i : Item) : string := toStr (orOther (amc (holding i))).
Definition schemeKey (i : Item) : string := toStr (schemeName (holding i)).

(** The dictionaries of the pass are plain objects read with [o[k]].
    A key that names an inherited member makes the code concatenate text
    in place of adding ([byCategory], [byAMC]), pass over the accumulator
    ([categoryXIRR]) or the fund ([group.funds]), or fail
    ([smartGroups]). The embedding follows the code on the holdings none
    of whose four keys is inherited. *)
Definition ordinaryKeys (i : Item) : bool :=
  negb (Obj.inherited (catKey i)) && negb (Obj.inherited (subCatKey i)) &&
  negb (Obj.inherited (amcKey i)) && negb (Obj.inherited (schemeKey i)).

Definition ordinaryData (data : list Holding) : bool :=
  forallb (fun h => ordinaryKeys (processItem h)) data.

(** [xirr && !isNaN(xirr) && xirr !== 0] for [xirr = item['XIRR'] || 0] *)
Definition xirrCounts (i : Item) : bool :=
  let x := orZero (xirr (holding i)) in
  Num.truthy x && negb (Num.isNaN x) && negb (SFeqb x Num.zero).

(** A merged fund: a copy of the first row of its scheme, [count: 1],
    updated in place by every later row. *)
Record Fund := mkFund {
  item : Item;
  count : nat
}.

Definition fundCurrent (f : Fund) : Num.num := itemCurrent (item f).

(** The [else] branch of the merge: [existing] absorbs [it]. *)
Definition mergeFund (existing : Fund) (it : Item) : Fund :=
  let e := holding (item existing) in
  let inv := Num.add (itemInvested (item existing)) (itemInvested it) in
  let cur := Num.add (itemCurrent (item existing)) (itemCurrent it) in
  let ret := Num.add (itemReturns (item existing)) (itemReturns it) in
  let uni := Num.add (itemUnits (item existing)) (itemUnits it) in
  {| item :=
       {| holding :=
            {| schemeName := schemeName e;
               category := category e;
               subCategory := subCategory e;
               amc := amc e;
               units := Some uni;
               investedValue := Some inv;
               currentValue := Some cur;
               returns := Some ret;
               xirr := xirr e |};
          _currentNAV := _currentNAV (item existing);
          _avgBuyNAV := _avgBuyNAV (item existing);
          _absReturn := returnPct cur inv |};
     count := S (count existing) |}.

Record XirrAcc := mkXirrAcc {
  sumProduct : Num.num;
  sumWeight : Num.num
}.

Record Group := mkGroup {
  totalVal : Num.num;
  totalInv : Num.num;
  funds : obj Fund
}.

(** The accumulators of the [processedData.forEach] pass. *)
Record PassState := mkPassState {
  byCategory : obj Num.num;
  subCategoryCounts : obj Num.num;
  byAMC : obj Num.num;
  lossMakers : list Item;
  clutter : list Item;
  categoryXIRR : obj XirrAcc;
  smartGroups : obj (obj Group)
}.

Definition emptyPass : PassState :=
  mkPassState [] [] [] [] [] [] [].

(** [o[k] = (o[k] || 0) + v], for a key that is not inherited. *)
Definition bump (o : obj Num.num) (k : string) (v : Num.num) : obj Num.num :=
  Obj.set k (Num.add (orZero (Obj.get k o)) v) o.

(** The accumulator of a sub-category whose name is not inherited. *)
Definition accumulateXIRR (cx : obj XirrAcc) (it : Item) : obj XirrAcc :=
  let subCat := subCatKey it in
  let cx1 :=
    match Obj.get subCat cx with
    | Some _ => cx
    | None => Obj.set subCat (mkXirrAcc Num.zero Num.zero) cx
    end in
  if xirrCounts it then
    match Obj.get subCat cx1 with
    | Some a =>
        Obj.set subCat
          (mkXirrAcc
             (Num.add (sumProduct a) (Num.mul (orZero (xirr (holding it))) (itemCurrent it)))
             (Num.add (sumWeight a) (itemCurrent it)))
          cx1
    | None => cx1
    end
  else cx1.

Definition emptyGroup : Group := mkGroup Num.zero Num.zero [].

(** [group.funds[schemeName]] is read as any property read is: for a
    scheme that names an inherited member and has no fund of its own the
    test [!group.funds[schemeName]] fails, the [else] branch updates the
    inherited member and [group.funds] gets no property. *)
Definition addToGroup (group : Group) (it : Item) : Group :=
  {| totalVal := Num.add (totalVal group) (itemCurrent it);
     totalInv := Num.add (totalInv group) (itemInvested it);
     funds :=
       match Obj.get (schemeKey it) (funds group) with
       | None =>
           if Obj.inherited (schemeKey it) then funds group
           else Obj.set (schemeKey it) (mkFund it 1) (funds group)
       | Some existing => Obj.set (schemeKey it) (mergeFund existing it) (funds group)
       end |}.

(** The groups of the categories and sub-categories whose names are
    not inherited. Under an inherited name the code reads the inherited
    member in place of a group: it then fails on [group.funds], or leaves
    the group on an object shared by every run, which a function of the
    holdings cannot express; see [ordinaryKeys]. *)
Definition addToGroups (sg : obj (obj Group)) (it : Item) : obj (obj Group) :=
  let cat := catKey it in
  let subCat := subCatKey it in
  let sg1 :=
    match Obj.get cat sg with
    | Some _ => sg
    | None => Obj.set cat [] sg
    end in
  let subs := match Obj.get cat sg1 with Some s => s | None => [] end in
  let subs1 :=
    match Obj.get subCat subs with
    | Some _ => subs
    | None => Obj.set subCat emptyGroup subs
    end in
  let group := match Obj.get subCat subs1 with Some g => g | None => emptyGroup end in
  Obj.set cat (Obj.set subCat (addToGroup group it) subs1) sg1.

(** The body of [processedData.forEach]. *)
Definition passStep (st : PassState) (it : Item) : PassState :=
  {| byCategory := bump (byCategory st) (catKey it) (itemCurrent it);
     subCategoryCounts := bump (subCategoryCounts st) (subCatKey it) (Num.ofZ 1);
     byAMC := bump (byAMC st) (amcKey it) (itemCurrent it);
     lossMakers :=
       if Num.lt (itemReturns it) Num.zero
       then (lossMakers st ++ [it])%list else lossMakers st;
     clutter :=
       if Num.lt (itemCurrent it) clutterLimit
       then (clutter st ++ [it])%list else clutter st;
     categoryXIRR := accumulateXIRR (categoryXIRR st) it;
     smartGroups := addToGroups (smartGroups st) it |}.

Definition runPass (processedData : list Item) : PassState :=
  fold_left passStep processedData emptyPass.

(** *** Benchmark comparison *)

Definition BENCHMARKS : obj (string * Num.num) :=
  [ ("Large Cap", ("Nifty 50", Num.ofDecimal false 135 (-1)));
    ("Mid Cap", ("Nifty Midcap 150", Num.ofDecimal false 165 (-1)));
    ("Small Cap", ("Nifty Smallcap 250", Num.ofZ 19));
    ("Flexi Cap", ("Nifty 500", Num.ofZ 15));
    ("ELSS", ("Nifty 500", Num.ofZ 15));
    ("Debt", ("FD / Debt Index", Num.ofZ 7));
    ("Liquid", ("Liquid Index", Num.ofZ 6));
    ("Sectoral", ("Nifty 500", Num.ofZ 15));
    ("Other", ("Inflation", Num.ofZ 6)) ].

Definition benchKey (subCat : string) : string :=
  match Obj.get subCat BENCHMARKS with
  | Some _ => subCat
  | None =>
      if Obj.inherited subCat then subCat
      else if Str.includes "Large" subCat then "Large Cap"
      else if Str.includes "Small" subCat then "Small Cap"
      else if Str.includes "Mid" subCat then "Mid Cap"
      else if Str.includes "Flexi" subCat then "Flexi Cap"
      else if Str.includes "Debt" subCat then "Debt"
      else "Other"
  end.

(** [BENCHMARKS[benchKey]]; for a sub-category whose name is not
    inherited the key is one of the table. *)
Definition bench (subCat : string) : string * Num.num :=
  match Obj.get (benchKey subCat) BENCHMARKS with
  | Some b => b
  | None => ("", Num.NaN)
  end.

Record Comparison := mkComparison {
  cmpCategory : string;    (* category *)
  myXIRR : Num.num;
  benchXIRR : Num.num;
  benchName : string;
  alpha : Num.num;
  weight : Num.num
}.

(** What the callback of [Object.keys(categoryXIRR).forEach] pushes. *)
Definition comparisonOf (e : string * XirrAcc) : list Comparison :=
  let '(subCat, a) := e in
  if Num.gt (sumWeight a) Num.zero then
    let my := Num.div (sumProduct a) (sumWeight a) in
    [ {| cmpCategory := subCat;
         myXIRR := Num.round2 my;
         benchXIRR := snd (bench subCat);
         benchName := fst (bench subCat);
         alpha := Num.round2 (Num.sub my (snd (bench subCat)));
         weight := sumWeight a |} ]
  else [].

Definition byWeight (a b : Comparison) : Num.num := Num.sub (weight b) (weight a).

Definition buildComparison (cx : obj XirrAcc) : list Comparison :=
  sortBy byWeight (flat_map comparisonOf (Obj.entries cx)).

(** *** Category tree and consolidation plan *)

Record SubCategory := mkSubCategory {
  subName : string;        (* name *)
  subTotalVal : Num.num;   (* totalVal *)
  subTotalInv : Num.num;   (* totalInv *)
  subFunds : list Fund;    (* funds *)
  fundCount : nat
}.

Record Category := mkCategory {
  catName : string;        (* name *)
  catTotalVal : Num.num;   (* totalVal *)
  subCategories : list SubCategory
}.

Definition byCurrentValue (a b : Fund) : Num.num :=
  Num.sub (fundCurrent b) (fundCurrent a).

Definition bySubTotal (a b : SubCategory) : Num.num :=
  Num.sub (subTotalVal b) (subTotalVal a).

Definition byCatTotal (a b : Category) : Num.num :=
  Num.sub (catTotalVal b) (catTotalVal a).

Definition subCategoryOf (e : string * Group) : SubCategory :=
  let fundList := sortBy byCurrentValue (Obj.values (funds (snd e))) in
  {| subName := fst e;
     subTotalVal := totalVal (snd e);
     subTotalInv := totalInv (snd e);
     subFunds := fundList;
     fundCount := List.length fundList |}.

Definition categoryOf (e : string * obj Group) : Category :=
  let subCats := sortBy bySubTotal (map subCategoryOf (Obj.entries (snd e))) in
  {| catName := fst e;
     catTotalVal := fold_left (fun acc s => Num.add acc (subTotalVal s)) subCats Num.zero;
     subCategories := subCats |}.

Definition buildCategoryTree (sg : obj (obj Group)) : list Category :=
  sortBy byCatTotal (map categoryOf (Obj.entries sg)).

Record Plan := mkPlan {
  planCategory : string;   (* category *)
  winner : option Fund;    (* sortedFunds[0] *)
  others : list Fund;
  potentialMoveValue : Num.num
}.

(** [f.XIRR || f._absReturn] *)
Definition rankKey (f : Fund) : Num.num :=
  match xirr (holding (item f)) with
  | Some x => if Num.truthy x then x else _absReturn (item f)
  | None => _absReturn (item f)
  end.

Definition byRank (a b : Fund) : Num.num := Num.sub (rankKey b) (rankKey a).

Definition sumCurrent (l : list Fund) : Num.num :=
  fold_left (fun acc c => Num.add acc (fundCurrent c)) l Num.zero.

Definition planOf (s : SubCategory) : list Plan :=
  if (2 <? fundCount s)%nat then
    let sortedFunds := sortBy byRank (subFunds s) in
    [ {| planCategory := subName s;
         winner := hd_error sortedFunds;
         others := tl sortedFunds;
         potentialMoveValue := sumCurrent (tl sortedFunds) |} ]
  else [].

Definition buildPlan (tree : list Category) : list Plan :=
  flat_map (fun c => flat_map planOf (subCategories c)) tree.

Definition treemapOf (tree : list Category)
  : list (string * list (string * Num.num * list (value * onum))) :=
  map (fun c =>
         (catName c,
          map (fun s =>
                 (subName s, subTotalVal s,
                  map (fun f => (schemeName (holding (item f)),
                                 currentValue (holding (item f))))
                      (subFunds s)))
              (subCategories c)))
      tree.

Definition byValue (a b : string * Num.num) : Num.num := Num.sub (snd b) (snd a).

(** *** Health score *)

Local Open Scope Q_scope.

(** [Math.round] *)
Definition mathRound (x : Q) : Z := Qfloor (x + (1 # 2)).

(** [Math.min] *)
Definition mathMin (x y : Q) : Q := if Qle_bool x y then x else y.

Definition ofLength (n : nat) : Q := inject_Z (Z.of_nat n).

Definition healthScoreOf (clutterItems lossMakers processedData : nat) : Z :=
  let score := 100 in
  let score := score - mathMin 20 (ofLength clutterItems * 2) in
  let score := score - mathMin 15 (ofLength lossMakers * (3 # 2)) in
  let score := if (20 <? processedData)%nat then score - 10 else score in
  let score := if (40 <? processedData)%nat then score - 10 else score in
  Z.max 0 (mathRound score).

Local Close Scope Q_scope.

Definition healthLabel (score : Z) : string :=
  if score <? 40 then "Critical"
  else if score <? 60 then "Poor"
  else if score <? 80 then "Good"
  else "Excellent".

(** *** The result *)

Record SimStats := mkSimStats {
  originalCount : nat;
  originalTotalVal : Num.num;
  clutterCount : nat;
  clutterVal : Num.num
}.

Module Result.

Record t := mk {
  totalInv : Num.num;
  totalCurr : Num.num;
  totalReturns : Num.num;
  absReturn : Num.num;
  lossMakers : list Item;
  clutter : list Item;
  categoryData : list (string * Num.num);
  amcData : list (string * Num.num);
  processedData : list Item;
  categoryTree : list Category;
  score : Z;               (* healthScore.score *)
  label : string;          (* healthScore.label *)
  comparisonData : list Comparison;
  simStats : SimStats;
  consolidationPlan : list Plan;
  treemapData : list (string * list (string * Num.num * list (value * onum)))
}.

End Result.

(** [processedData.filter(i => i['Current Value'] >= 5000)] when the
    simulation is on. *)
Definition workingSet (simulateCleanup : bool) (processedData : list Item) : list Item :=
  if simulateCleanup
  then filter (fun i => Num.ge (itemCurrent i) clutterLimit) processedData
  else processedData.

Definition isClutter (i : Item) : bool := Num.lt (itemCurrent i) clutterLimit.

Definition sumItemCurrent (l : list Item) : Num.num :=
  fold_left (fun acc c => Num.add acc (itemCurrent c)) l Num.zero.

Definition analysis (data : list Holding) (simulateCleanup : bool) : Result.t :=
  let processedData := map processItem data in
  let originalCount := List.length processedData in
  let originalTotalVal := sumItemCurrent processedData in
  let clutterItems := filter isClutter processedData in
  let clutterVal := sumItemCurrent clutterItems in
  let processedData := workingSet simulateCleanup processedData in
  let totalInv :=
    fold_left (fun acc curr => Num.add acc (orZero (investedValue (holding curr))))
              processedData Num.zero in
  let totalCurr :=
    fold_left (fun acc curr => Num.add acc (orZero (currentValue (holding curr))))
              processedData Num.zero in
  let totalReturns := Num.sub totalCurr totalInv in
  let absReturn :=
    if Num.gt totalInv Num.zero
    then Num.mul (Num.div totalReturns totalInv) hundred else Num.zero in
  let st := runPass processedData in
  let comparisonData := buildComparison (categoryXIRR st) in
  let categoryTree := buildCategoryTree (smartGroups st) in
  let consolidationPlan := buildPlan categoryTree in
  let score :=
    healthScoreOf (List.length clutterItems) (List.length (lossMakers st))
                  (List.length processedData) in
  {| Result.totalInv := totalInv;
     Result.totalCurr := totalCurr;
     Result.totalReturns := totalReturns;
     Result.absReturn := absReturn;
     Result.lossMakers := lossMakers st;
     Result.clutter := clutter st;
     Result.categoryData := sortBy byValue (Obj.entries (byCategory st));
     Result.amcData := sortBy byValue (Obj.entries (byAMC st));
     Result.processedData := processedData;
     Result.categoryTree := categoryTree;
     Result.score := score;
     Result.label := healthLabel score;
     Result.comparisonData := comparisonData;
     Result.simStats := mkSimStats originalCount originalTotalVal
                                   (List.length clutterItems) clutterVal;
     Result.consolidationPlan := consolidationPlan;
     Result.treemapData := treemapOf categoryTree |}.

(** *** The health score on binary64

    The same computation carried out on numbers, to check the exact
    model above against the arithmetic the program runs. *)

(** [Math.round]: the nearest integer, a tie going up. *)
Definition roundNum (x : Num.num) : Num.num :=
  match x with
  | S754_finite neg m e =>
      if 0 <=? e then x
      else
        let q := 2 ^ (- e) in
        let n := (2 * (if neg then Z.neg m else Z.pos m) + q) / (2 * q) in
        if n =? 0 then S754_zero neg else Num.ofZ n
  | _ => x
  end.

(** [Math.min] and [Math.max] of two numbers that are not NaN. *)
Definition minNum (x y : Num.num) : Num.num := if Num.lt y x then y else x.
Definition maxNum (x y : Num.num) : Num.num := if Num.lt x y then y else x.

Definition lengthNum (n : nat) : Num.num := Num.ofZ (Z.of_nat n).

Definition healthScoreNum (clutterItems lossMakers processedData : nat) : Num.num :=
  let score := Num.ofZ 100 in
  let score := Num.sub score (minNum (Num.ofZ 20) (Num.mul (lengthNum clutterItems) (Num.ofZ 2))) in
  let score :=
    Num.sub score (minNum (Num.ofZ 15)
                          (Num.mul (lengthNum lossMakers) (Num.ofDecimal false 15 (-1)))) in
  let score := if (20 <? processedData)%nat then Num.sub score (Num.ofZ 10) else score in
  let score := if (40 <? processedData)%nat then Num.sub score (Num.ofZ 10) else score in
  maxNum Num.zero (roundNum score).

(** ** CSV text: [parseCSVText] and [downloadCSV] *)

Module Csv.

Definition lineFeed : ascii := ascii_of_N 10.
Definition comma : ascii := ",".

(** [s.split(sep)] for a separator of one character. *)
Fixpoint split (sep : ascii) (s : string) : list string :=
  match s with
  | EmptyString => [EmptyString]
  | String c r =>
      if Ascii.eqb c sep then EmptyString :: split sep r
      else match split sep r with
           | [] => [String c EmptyString]
           | h :: t => String c h :: t
           end
  end.

(** [l.join(sep)] on strings. *)
Fixpoint join (sep : string) (l : list string) : string :=
  match l with
  | [] => ""
  | [a] => a
  | a :: r => a ++ sep ++ join sep r
  end.

(** The variables of the loop over the characters of a line. *)
Record LineState := mkLineState {
  row : list string;
  inQuotes : bool;
  currentValue : string
}.

(** The body of [for (let char of line)]: a quote flips [inQuotes]
    and is dropped, a comma outside quotes closes the cell, any other
    character goes to the cell. *)
Definition charStep (st : LineState) (char : ascii) : LineState :=
  if Ascii.eqb char Str.quote then
    mkLineState (row st) (negb (inQuotes st)) (currentValue st)
  else if Ascii.eqb char comma && negb (inQuotes st) then
    mkLineState (row st ++ [currentValue st]) (inQuotes st) ""
  else
    mkLineState (row st) (inQuotes st) (currentValue st ++ String char "").

Fixpoint scan (line : string) (st : LineState) : LineState :=
  match line with
  | EmptyString => st
  | String char r => scan r (charStep st char)
  end.

(** The row a line is cut into: the loop, then the last
    [row.push(currentValue)]. *)
Definition parseLine (line : string) : list string :=
  let st := scan line (mkLineState [] false "") in
  (row st ++ [currentValue st])%list.

(** The [val.replace] of the export: every quote is written twice. *)
Fixpoint doubleQuotes (s : string) : string :=
  match s with
  | EmptyString => EmptyString
  | String c r =>
      if Ascii.eqb c Str.quote
      then String Str.quote (String Str.quote (doubleQuotes r))
      else String c (doubleQuotes r)
  end.

(** What [join] writes for the value a field is mapped to: a string in
    quotes with its quotes doubled, a number as [toString] gives it,
    nothing for [undefined] and [null]. *)
Definition field (v : value) : string :=
  match v with
  | VStr s => String Str.quote (doubleQuotes s ++ String Str.quote "")
  | VNum x => Num.toString x
  | VUndefined | VNull => ""
  end.

(** The line of one row object. *)
Definition line (headers : list string) (rowObj : obj value) : string :=
  join "," (map (fun fieldName => field (prop rowObj fieldName)) headers).

End Csv.

Definition parseCSVText (text : string) : list (obj value) :=
  processRawRows
    (map (fun line => map VStr (Csv.parseLine line)) (Csv.split Csv.lineFeed text)).

(** [csvContent] of [downloadCSV]; [None] when the function returns
    before it builds anything ([!data.length]). *)
Definition csvContent (data : list (obj value)) : option string :=
  match data with
  | [] => None
  | first :: _ =>
      let headers := Obj.keys first in
      Some (Csv.join (String Csv.lineFeed "")
                     (Csv.join "," headers :: map (Csv.line headers) data))
  end.

(** ** The dashboard component: the second [analysis] memo

    The file holds a second component. Its normalizer and CSV reader
    are those above, character for character; its memo is the first
    one without [treemapData], with [amcData] cut to its first seven
    entries and with three more results. *)

(** [(a, b) => b._absReturn - a._absReturn] and its converse. *)
Definition byGain (a b : Item) : Num.num := Num.sub (_absReturn b) (_absReturn a).
Definition byLoss (a b : Item) : Num.num := Num.sub (_absReturn a) (_absReturn b).

(** SameValueZero, the equality of the members of a [Set]. *)
Definition sameValueZero (a b : value) : bool :=
  match a, b with
  | VUndefined, VUndefined => true
  | VNull, VNull => true
  | VStr s, VStr t => String.eqb s t
  | VNum x, VNum y => SFeqb x y || (Num.isNaN x && Num.isNaN y)
  | _, _ => false
  end.

(** The members of [new Set(l)] in the order they were added, [seen]
    being the members so far. *)
Fixpoint setOf (seen l : list value) : list value :=
  match l with
  | [] => []
  | v :: r =>
      if existsb (sameValueZero v) seen then setOf seen r
      else v :: setOf (v :: seen) r
  end.

Module Dashboard.

Record t := mk {
  totalInv : Num.num;
  totalCurr : Num.num;
  totalReturns : Num.num;
  absReturn : Num.num;
  lossMakers : list Item;
  clutter : list Item;
  categoryData : list (string * Num.num);
  amcData : list (string * Num.num);
  processedData : list Item;
  categoryTree : list Category;
  score : Z;               (* healthScore.score *)
  label : string;          (* healthScore.label *)
  comparisonData : list Comparison;
  simStats : SimStats;
  consolidationPlan : list Plan;
  categories : list value;
  topGainers : list Item;
  bottomLaggards : list Item
}.

End Dashboard.

Definition dashboardAnalysis (data : list Holding) (simulateCleanup : bool) : Dashboard.t :=
  let r := analysis data simulateCleanup in
  let processedData := Result.processedData r in
  {| Dashboard.totalInv := Result.totalInv r;
     Dashboard.totalCurr := Result.totalCurr r;
     Dashboard.totalReturns := Result.totalReturns r;
     Dashboard.absReturn := Result.absReturn r;
     Dashboard.lossMakers := Result.lossMakers r;
     Dashboard.clutter := Result.clutter r;
     Dashboard.categoryData := Result.categoryData r;
     Dashboard.amcData := firstn 7 (Result.amcData r);
     Dashboard.processedData := processedData;
     Dashboard.categoryTree := Result.categoryTree r;
     Dashboard.score := Result.score r;
     Dashboard.label := Result.label r;
     Dashboard.comparisonData := Result.comparisonData r;
     Dashboard.simStats := Result.simStats r;
     Dashboard.consolidationPlan := Result.consolidationPlan r;
     Dashboard.categories :=
       VStr "All" ::
       setOf [] (filter truthy (map (fun d => category (holding d)) processedData));
     Dashboard.topGainers := firstn 3 (sortBy byGain processedData);
     Dashboard.bottomLaggards := firstn 3 (sortBy byLoss processedData) |}.

(** One object of [SAMPLE_DATA]. *)
Definition sampleRow (scheme cat subCat house : string)
                     (u inv cur ret : Z) (x : Num.num) : Holding :=
  mkHolding (VStr scheme) (VStr cat) (VStr subCat) (VStr house)
            (Some (Num.ofZ u)) (Some (Num.ofZ inv)) (Some (Num.ofZ cur))
            (Some (Num.ofZ ret)) (Some x).

Definition SAMPLE_DATA : list Holding :=
  [ sampleRow "HDFC Top 100 Fund" "Equity" "Large Cap" "HDFC Mutual Fund"
              500 50000 75000 25000 (Num.ofDecimal false 155 (-1));
    sampleRow "SBI Small Cap Fund" "Equity" "Small Cap" "SBI Mutual Fund"
              200 40000 65000 25000 (Num.ofDecimal false 221 (-1));
    sampleRow "Axis Midcap Fund" "Equity" "Mid Cap" "Axis Mutual Fund"
              300 45000 55000 10000 (Num.ofDecimal false 142 (-1));
    sampleRow "Parag Parikh Flexi Cap" "Equity" "Flexi Cap" "PPFAS Mutual Fund"
              400 80000 110000 30000 (Num.ofDecimal false 185 (-1));
    sampleRow "HDFC Balanced Advantage" "Hybrid" "Dynamic Asset Allocation"
              "HDFC Mutual Fund"
              100 10000 12000 2000 (Num.ofDecimal false 95 (-1));
    sampleRow "Nippon India Small Cap" "Equity" "Small Cap" "Nippon India Mutual Fund"
              50 4000 4500 500 (Num.ofZ 12);
    sampleRow "UTI Nifty 50 Index" "Equity" "Large Cap" "UTI Mutual Fund"
              100 15000 14000 (-1000) (Num.ofZ (-5));
    sampleRow "ICICI Prudential Bluechip" "Equity" "Large Cap" "ICICI Prudential"
              150 30000 38000 8000 (Num.ofZ 13);
    sampleRow "SBI Bluechip Fund" "Equity" "Large Cap" "SBI Mutual Fund"
              120 25000 29000 4000 (Num.ofZ 11) ].

(** ** The holdings table *)

(** [categoryFilter === 'All' || i['Category'] === categoryFilter] *)
Definition inCategory (categoryFilter : string) (i : Item) : bool :=
  String.eqb categoryFilter "All" ||
  match category (holding i) with
  | VStr s => String.eqb s categoryFilter
  | _ => false
  end.

(** [i['Scheme Name'].toLowerCase().includes(searchTerm.toLowerCase())];
    [None] when the call throws: only a string has [toLowerCase]. *)
Definition matchesSearch (searchTerm : string) (i : Item) : option bool :=
  match schemeName (holding i) with
  | VStr s => Some (Str.includes (Str.toLowerCase searchTerm) (Str.toLowerCase s))
  | _ => None
  end.

(** [l.filter(f)] for a callback that may throw. *)
Fixpoint filterThrowing (A : Type) (f : A -> option bool) (l : list A) : option (list A) :=
  match l with
  | [] => Some []
  | x :: r =>
      match f x with
      | None => None
      | Some b =>
          match filterThrowing f r with
          | None => None
          | Some r' => Some (if b then x :: r' else r')
          end
      end
  end.

(** The rows of the holdings table. The first component has the
    search box only, which is the case ['All'] of the category filter. *)
Definition holdingsShown (categoryFilter searchTerm : string) (processedData : list Item)
  : option (list Item) :=
  filterThrowing (matchesSearch searchTerm)
                 (filter (inCategory categoryFilter) processedData).

(** ** Definitions that follow the specification's words *)

(** The health score as the specification words it: the penalties are
    subtracted from 100, the result is clamped to [0, 100] and then
    rounded. *)
Definition healthScoreSpec (clutterCount lossMakerCount size : nat) : Z :=
  let raw :=
    (100 - mathMin 20 (ofLength clutterCount * 2)
         - mathMin 15 (ofLength lossMakerCount * (3 # 2))
         - (if (20 <? size)%nat then 10 else 0)
         - (if (40 <? size)%nat then 10 else 0))%Q in
  let clamped :=
    if Qle_bool raw 0 then 0%Q else if Qle_bool 100 raw then 100%Q else raw in
  mathRound clamped.

(** Two numbers are the same number: identical, or both a zero (the
    two zeros are equal for [==] and [===]). *)
Definition sameNumber (x y : Num.num) : Prop :=
  x = y \/ (Num.isZero x = true /\ Num.isZero y = true).

(** A numeric field of the data model: present and not NaN. *)
Definition isNumber (f : onum) : Prop :=
  exists x, f = Some x /\ Num.isNaN x = false.

(** A number in canonical form, the one form in which binary64 holds
    each of its values. *)
Definition canonical (x : Num.num) : bool := valid_binary Num.prec Num.emax x.

(** A number in the proper sense: in canonical form and not NaN. *)
Definition properNumber (x : Num.num) : bool := canonical x && negb (Num.isNaN x).

(** The header test as the specification words it: the lower-cased
    concatenation of the text of all cells holds both phrases. *)
Definition cellText (v : value) : string :=
  match v with
  | VStr s => s
  | VNum x => Num.toString x
  | VUndefined | VNull => ""
  end.

Definition rowText (r : row) : string :=
  Str.toLowerCase (String.concat "" (map cellText r)).

Definition isHeaderBySpec (r : row) : bool :=
  Str.includes "scheme name" (rowText r) && Str.includes "current value" (rowText r).

(** A cell that holds the phrase [p], whatever the case of its letters. *)
Definition cellHolds (p : string) (v : value) : bool :=
  match v with
  | VStr s => Str.includes p (Str.toLowerCase s)
  | _ => false
  end.

(** Both phrases of the header test are held, each by a cell. *)
Definition namesBoth (r : row) : bool :=
  existsb (cellHolds "scheme name") r && existsb (cellHolds "current value") r.

(** A character that is a small letter or a space, and a text of such. *)
Definition isLetterOrSpace (c : ascii) : bool :=
  let n := Str.code c in ((n =? 32) || (97 <=? n) && (n <=? 122))%N.

Fixpoint plainPhrase (p : string) : bool :=
  match p with
  | EmptyString => true
  | String c r => isLetterOrSpace c && plainPhrase r
  end.

(** A string without control characters (code units below 32). *)
Fixpoint printable (s : string) : bool :=
  match s with
  | EmptyString => true
  | String c r => (32 <=? Str.code c)%N && printable r
  end.

Definition printableCell (v : value) : bool :=
  match v with VStr s => printable s | _ => true end.

(** The five numeric columns. *)
Definition numericFields : list string :=
  ["Units"; "Invested Value"; "Current Value"; "Returns"; "XIRR"].

(** The text a numeric cell is parsed from. *)
Definition numericText (header : string) (s : string) : string :=
  if String.eqb header "XIRR"
  then Str.removeChar "," (Str.removeChar "%" s)
  else Str.removeChar "," s.

(** The cell after [trim] and unquoting. *)
Definition cleanCell (cell : value) : value :=
  match cell with
  | VStr s => VStr (Str.unquote (Str.trim s))
  | _ => cell
  end.

(** What the normalizer stores for a cell of a numeric column. *)
Definition numericCell (header : string) (cell : value) : Num.num :=
  if isBlank (cleanCell cell) then Num.zero
  else match cleanCell cell with
       | VStr s => Num.parseFloat (numericText header s)
       | v => Num.parseFloat (toStr v)
       end.

(** The rows of a working set that fall in one category/sub-category
    group, and those of one scheme inside it. *)
Definition inGroup (cat subCat : string) (i : Item) : bool :=
  String.eqb (catKey i) cat && String.eqb (subCatKey i) subCat.

Definition groupRows (cat subCat : string) (ws : list Item) : list Item :=
  filter (inGroup cat subCat) ws.

Definition schemeRows (cat subCat scheme : string) (ws : list Item) : list Item :=
  filter (fun i => String.eqb (schemeKey i) scheme) (groupRows cat subCat ws).

(** The number of distinct schemes of a group. *)
Definition distinctSchemes (cat subCat : string) (ws : list Item) : nat :=
  List.length (nodup string_dec (map schemeKey (groupRows cat subCat ws))).

(** The merged fund of a scheme in closed form: the first row of the
    scheme, and, when more rows follow, the four summed fields, the
    return percentage of the sums and the number of rows. *)
Definition sumFrom (get : Item -> Num.num) (first : Item) (rest : list Item) : Num.num :=
  fold_left Num.add (map get rest) (get first).

(** The return percentage of an invested and a current value:
    [(current - invested) / invested * 100], and 0 when the invested value
    is not above 0. *)
Definition percentGain (current invested : Num.num) : Num.num :=
  if Num.gt invested Num.zero
  then Num.mul (Num.div (Num.sub current invested) invested) (Num.ofZ 100)
  else Num.zero.

Definition mergedFund (first : Item) (rest : list Item) : Fund :=
  match rest with
  | [] => mkFund first 1
  | _ :: _ =>
      let h := holding first in
      {| item :=
           {| holding :=
                {| schemeName := schemeName h;
                   category := category h;
                   subCategory := subCategory h;
                   amc := amc h;
                   units := Some (sumFrom itemUnits first rest);
                   investedValue := Some (sumFrom itemInvested first rest);
                   currentValue := Some (sumFrom itemCurrent first rest);
                   returns := Some (sumFrom itemReturns first rest);
                   xirr := xirr h |};
              _currentNAV := _currentNAV first;
              _avgBuyNAV := _avgBuyNAV first;
              _absReturn := percentGain (sumFrom itemCurrent first rest)
                                        (sumFrom itemInvested first rest) |};
         count := S (List.length rest) |}
  end.

(** The weighted-XIRR accumulator of a sub-category, as a sum over the
    rows that count: those of the sub-category whose XIRR is a number
    other than NaN and zero. *)
Definition xirrPresent (i : Item) : bool :=
  match xirr (holding i) with
  | Some x => negb (Num.isNaN x) && negb (Num.isZero x)
  | None => false
  end.

Definition weightedRows (subCat : string) (ws : list Item) : list Item :=
  filter (fun i => String.eqb (subCatKey i) subCat && xirrPresent i) ws.

Definition weightedAcc (subCat : string) (ws : list Item) : XirrAcc :=
  fold_left
    (fun a i =>
       mkXirrAcc (Num.add (sumProduct a) (Num.mul (toNumber (xirr (holding i))) (itemCurrent i)))
                 (Num.add (sumWeight a) (itemCurrent i)))
    (weightedRows subCat ws) (mkXirrAcc Num.zero Num.zero).

(** [sumProduct / sumWeight] *)
Definition weightedXirr (a : XirrAcc) : Num.num :=
  Num.div (sumProduct a) (sumWeight a).

(** The key the consolidation ranks a fund by, as the specification
    words it: the XIRR when there is one and it is not zero (nor NaN),
    the return percentage otherwise. *)
Definition rankingKey (f : Fund) : Num.num :=
  match xirr (holding (item f)) with
  | Some x => if Num.isZero x || Num.isNaN x then _absReturn (item f) else x
  | None => _absReturn (item f)
  end.

(** The order of the ranking keys: the key of [a] is not below the key
    of [b]. *)
Definition keyNotBelow (a b : Fund) : Prop :=
  Num.lt (rankingKey a) (rankingKey b) = false.

(** ** Readings of the result *)

(** The group of a category and sub-category in the grouping, and the
    merged fund of a scheme in it. *)
Definition groupAt (sg : obj (obj Group)) (cat subCat : string) : option Group :=
  match Obj.get cat sg with
  | None => None
  | Some subs => Obj.get subCat subs
  end.

Definition fundAt (sg : obj (obj Group)) (cat subCat scheme : string) : option Fund :=
  match Obj.get cat sg with
  | None => None
  | Some subs =>
      match Obj.get subCat subs with
      | None => None
      | Some g => Obj.get scheme (funds g)
      end
  end.

(** The plan entries that stem from one category/sub-category group:
    an entry names its sub-category, and its winner carries the
    category. *)
Definition planFor (cat subCat : string) (p : Plan) : bool :=
  String.eqb (planCategory p) subCat &&
  match winner p with
  | Some w => String.eqb (catKey (item w)) cat
  | None => false
  end.

(** [a] may stand before [b] in the consolidation ranking: the
    comparator of the sort does not ask for [b] in front of [a], that is,
    [key b - key a] is not positive. *)
Definition rankedBefore (a b : Fund) : Prop :=
  Num.gt (byRank a b) Num.zero = false.

(** ** Auxiliary definitions of the proofs *)

(** The bodies of the grouping loops, each as the update of the one
    entry it touches ([None]: the entry is not there yet). *)
Definition zeroAcc : XirrAcc := mkXirrAcc Num.zero Num.zero.

Definition updXirr (v : option XirrAcc) (it : Item) : XirrAcc :=
  let a := match v with Some a => a | None => zeroAcc end in
  if xirrCounts it then
    mkXirrAcc
      (Num.add (sumProduct a) (Num.mul (orZero (xirr (holding it))) (itemCurrent it)))
      (Num.add (sumWeight a) (itemCurrent it))
  else a.

Definition accStep (a : XirrAcc) (it : Item) : XirrAcc := updXirr (Some a) it.

Definition updFund (v : option Fund) (it : Item) : Fund :=
  match v with
  | None => mkFund it 1
  | Some existing => mergeFund existing it
  end.

Definition updGroup (v : option Group) (it : Item) : Group :=
  addToGroup (match v with Some g => g | None => emptyGroup end) it.

Definition updSubs (v : option (obj Group)) (it : Item) : obj Group :=
  gstep subCatKey updGroup (match v with Some s => s | None => [] end) it.

(** A holding whose scheme name is not inherited. *)
Definition ordinaryScheme (i : Item) : Prop := Obj.inherited (schemeKey i) = false.

(** The rows of a sub-category. *)
Definition subCatRows (subCat : string) (ws : list Item) : list Item :=
  filter (hasKey subCatKey subCat) ws.

(** The group as its rows build it, one after the other. *)
Definition groupOf (cat subCat : string) (ws : list Item) : Group :=
  fold_left addToGroup (groupRows cat subCat ws) emptyGroup.

(** The plan entries a group, and a category, give rise to. *)
Definition plansOfGroup (e : string * Group) : list Plan :=
  planOf (subCategoryOf e).

Definition plansOfCategory (e : string * obj Group) : list Plan :=
  flat_map plansOfGroup (snd e).

(** The funds of a group as the consolidation ranks them, and the
    plan entry they give. *)
Definition rankedFunds (cat subCat : string) (ws : list Item) : list Fund :=
  sortBy byRank (subFunds (subCategoryOf (subCat, groupOf cat subCat ws))).

Definition groupPlan (cat subCat : string) (ws : list Item) : Plan :=
  {| planCategory := subCat;
     winner := hd_error (rankedFunds cat subCat ws);
     others := tl (rankedFunds cat subCat ws);
     potentialMoveValue := sumCurrent (tl (rankedFunds cat subCat ws)) |}.

(** The health score counted in half points: twice the value the
    penalties leave, before rounding. *)
Definition halves (clutterCount lossMakerCount size : nat) : Z :=
  200 - Z.min 40 (4 * Z.of_nat clutterCount)
      - Z.min 30 (3 * Z.of_nat lossMakerCount)
      - (if (20 <? size)%nat then 20 else 0)
      - (if (40 <? size)%nat then 20 else 0).

(** The least exponent of binary64, -1074. *)
Definition eminZ : Z := emin Num.prec Num.emax.

(** ** Vocabulary of the further properties *)

(** The character [c] occurs in [s]. *)
Fixpoint hasChar (c : ascii) (s : string) : bool :=
  match s with
  | EmptyString => false
  | String d r => Ascii.eqb c d || hasChar c r
  end.

(** A character that no decimal text of a number holds. *)
Definition notNumeric (c : ascii) : bool :=
  negb (existsb (Ascii.eqb c) (list_ascii_of_string "0123456789.-+eNaInfity")).

(** What a field of an exported line reads back as: a string without
    its quotes, a number as its text. *)
Definition exported (v : value) : string :=
  match v with
  | VStr s => Str.removeChar Str.quote s
  | VNum x => Num.toString x
  | VUndefined | VNull => ""
  end.

(** A text that stays on one line, and a key that an exported header
    can carry: no quote, no comma, no line feed. *)
Definition oneLine (s : string) : bool := negb (hasChar Csv.lineFeed s).

Definition plainKey (s : string) : bool :=
  negb (hasChar Str.quote s) && negb (hasChar Csv.comma s) && oneLine s.

(** What the scan of a line has read so far, up to the quotes. *)
Definition readSoFar (st : Csv.LineState) : string :=
  Csv.join "," (Csv.row st ++ [Csv.currentValue st]).

(** The cells of a text, the first one continuing the cell [cv]. *)
Definition prepend (cv : string) (l : list string) : list string :=
  match l with
  | [] => [cv]
  | h :: t => (cv ++ h)%string :: t
  end.

(** [row.length < 2]: the rows the second loop of the normalizer
    passes over. *)
Definition isShort (r : row) : bool := (List.length r <? 2)%nat.

(** A cell in lower case. *)
Definition lowerCell (v : value) : value :=
  match v with
  | VStr s => VStr (Str.toLowerCase s)
  | _ => v
  end.

(** [f > 0] for a numeric field; a missing field reads as NaN. *)
Definition isPositive (f : onum) : bool := Num.gt (toNumber f) Num.zero.

(** The holdings the simulation keeps, read off the input rows. *)
Definition keepsValue (h : Holding) : bool :=
  Num.ge (toNumber (currentValue h)) clutterLimit.

(** A numeric field that holds a finite number. *)
Definition isFiniteNumber (f : onum) : Prop :=
  exists x, f = Some x /\ Num.isFinite x = true.

Definition sumItemInvested (l : list Item) : Num.num :=
  fold_left (fun acc c => Num.add acc (itemInvested c)) l Num.zero.

(** The body of the two total-per-key loops, as the update of the one
    entry it touches. *)
Definition updTotal (v : option Num.num) (it : Item) : Num.num :=
  Num.add (orZero v) (itemCurrent it).

(** The total of a key as the loop builds it: every step adds to
    [acc || 0]. *)
Definition guardedTotal (rows : list Item) : Num.num :=
  fold_left (fun acc it => Num.add (orZero (Some acc)) (itemCurrent it)) rows Num.zero.

(** The order a list is in once [sort] has run with the comparator
    [(a, b) => key(b) - key(a)]: no element asks to go before its
    predecessor. [ascending] is the same for [key(a) - key(b)]. *)
Definition descending (A : Type) (key : A -> Num.num) (l : list A) : Prop :=
  Sorted (fun a b => Num.gt (Num.sub (key b) (key a)) Num.zero = false) l.

Definition ascending (A : Type) (key : A -> Num.num) (l : list A) : Prop :=
  Sorted (fun a b => Num.gt (Num.sub (key a) (key b)) Num.zero = false) l.

(** A return percentage that is a number, in canonical form. *)
Definition properReturn (i : Item) : Prop :=
  canonical (_absReturn i) = true /\ Num.isNaN (_absReturn i) = false.

(** A holding whose scheme name is a string. *)
Definition hasTextName (i : Item) : Prop :=
  exists s, schemeName (holding i) = VStr s.

(** ** Concrete inputs *)

Definition amount (z : Z) : onum := Some (Num.ofZ z).

(** A header row and one data row: scheme X, worth 4,500. *)
Definition smallGrid : list row :=
  [ [VStr "Scheme Name"; VStr "Current Value"];
    [VStr "X"; VStr "4,500"] ].

Definition smallData : list Holding := map toHolding (processRawRows smallGrid).

(** A title line, then the header, then one data row. *)
Definition titledGrid : list row :=
  [VStr "Statement of holdings"; VStr "2024"] :: smallGrid.

(** A grid whose Units cell is not a number and that has no XIRR column. *)
Definition badGrid : list row :=
  [ [VStr "Scheme Name"; VStr "Current Value"; VStr "Units"];
    [VStr "X"; VStr "4,500"; VStr "n/a"] ].

(** One Large Cap holding worth 1,000 with the XIRR given as text. *)
Definition xirrGrid (xirrText : string) : list row :=
  [ [VStr "Scheme Name"; VStr "Sub-category"; VStr "Current Value"; VStr "XIRR"];
    [VStr "A"; VStr "Large Cap"; VStr "1,000"; VStr xirrText] ].

Definition xirrData (xirrText : string) : list Holding :=
  map toHolding (processRawRows (xirrGrid xirrText)).

(** Three Large Cap funds of equal value with XIRR 10, 30 and 20, and
    a fourth fund alone in its sub-category. *)
Definition fundOf (scheme subCat : string) (xirrPct : Z) : Holding :=
  mkHolding (VStr scheme) (VStr "Equity") (VStr subCat) (VStr "AMC")
            (amount 10) (amount 9000) (amount 10000) (amount 1000) (amount xirrPct).

Definition threeFunds : list Holding :=
  [ fundOf "A" "Large Cap" 10; fundOf "B" "Large Cap" 30;
    fundOf "C" "Large Cap" 20; fundOf "D" "Mid Cap" 40 ].

(** Two rows of the scheme A, worth 10,000 and 20,000, and a row of
    the scheme B, in one sub-category. *)
Definition mergeData : list Holding :=
  [ fundOf "A" "Large Cap" 10;
    mkHolding (VStr "A") (VStr "Equity") (VStr "Large Cap") (VStr "AMC")
              (amount 20) (amount 15000) (amount 20000) (amount 5000) (amount 30);
    fundOf "B" "Large Cap" 20 ].

(** A header whose first phrase is split over two cells. *)
Definition splitGrid : list row :=
  [ [VStr "Scheme"; VStr " Name"; VStr "Current Value"];
    [VStr "X"; VStr "Y"; VStr "4,500"] ].

(** Two holdings; the current value of the second is not a number. *)
Definition nanGrid : list row :=
  [ [VStr "Scheme Name"; VStr "Current Value"];
    [VStr "X"; VStr "6,000"];
    [VStr "Y"; VStr "n/a"] ].

Definition nanData : list Holding := map toHolding (processRawRows nanGrid).

(** Three funds of one sub-category, worth the same, whose ranking
    keys are 1, NaN (no XIRR, and an invested value that reads Infinity)
    and 3. *)
Definition nanKeyGrid : list row :=
  [ [VStr "Scheme Name"; VStr "Sub-category"; VStr "Invested Value";
     VStr "Current Value"; VStr "XIRR"];
    [VStr "A"; VStr "Large Cap"; VStr "9,000"; VStr "10,000"; VStr "1"];
    [VStr "B"; VStr "Large Cap"; VStr "Infinity"; VStr "10,000"; VStr ""];
    [VStr "C"; VStr "Large Cap"; VStr "9,000"; VStr "10,000"; VStr "3"] ].

Definition nanKeyData : list Holding := map toHolding (processRawRows nanKeyGrid).

(** Two rows of a scheme named constructor. *)
Definition constructorData : list Holding :=
  [ fundOf "constructor" "Large Cap" 10; fundOf "constructor" "Large Cap" 30 ].

(** A grid whose header is written in lower case. *)
Definition lowerGrid : list row :=
  [ [VStr "scheme name"; VStr "current value"];
    [VStr "X"; VStr "4,500"] ].

(** Two rows to export; the first scheme name holds a comma. *)
Definition exportRows : list (obj value) :=
  [ [("Scheme Name", VStr "Axis, Midcap"); ("Units", VNum (Num.ofZ 300))];
    [("Scheme Name", VStr "UTI Nifty 50"); ("Units", VNum (Num.ofDecimal false 105 (-1)))] ].

(** A CSV text of three lines: the header, a holding whose value is
    quoted because of its comma, and a line without comma. *)
Definition smallText : string :=
  "Scheme Name,Current Value" ++ String Csv.lineFeed
    ("X," ++ String Str.quote ("4,500" ++ String Str.quote
       (String Csv.lineFeed "end of statement"))).

(* ================================================================== *)
(** * Part II. Lemmas and theorems                                     *)
(* ================================================================== *)

(** ** Objects *)

Module ObjFacts.
Import Obj.

Section Facts.
Variable V : Type.
Implicit Types (o : obj V) (k : string) (v : V).

Lemma get_set_same k v o : get k (set k v o) = Some v.
Proof.
  induction o as [|[k' v'] o IH]; simpl.
  - now rewrite String.eqb_refl.
  - destruct (String.eqb k k') eqn:E; simpl.
    + now rewrite String.eqb_refl.
    + now rewrite E.
Qed.

Lemma get_set_other k k' v o : k <> k' -> get k' (set k v o) = get k' o.
Proof.
  intros Hne. induction o as [|[k1 v1] o IH]; simpl.
  - destruct (String.eqb k' k) eqn:E; [|reflexivity].
    apply String.eqb_eq in E. congruence.
  - destruct (String.eqb k k1) eqn:E; simpl.
    + apply String.eqb_eq in E. subst k1.
      destruct (String.eqb k' k) eqn:E'; [|reflexivity].
      apply String.eqb_eq in E'. congruence.
    + now rewrite IH.
Qed.

Lemma set_same k v o : get k o = Some v -> set k v o = o.
Proof.
  induction o as [|[k' v'] o IH]; simpl; [discriminate|].
  destruct (String.eqb k k') eqn:E.
  - apply String.eqb_eq in E. intros [= ->]. now subst.
  - intros H. now rewrite IH.
Qed.

Lemma set_set k v w o : set k v (set k w o) = set k v o.
Proof.
  induction o as [|[k' v'] o IH]; simpl.
  - now rewrite String.eqb_refl.
  - destruct (String.eqb k k') eqn:E; simpl.
    + now rewrite String.eqb_refl.
    + now rewrite E, IH.
Qed.

Lemma get_In k v o : get k o = Some v -> In (k, v) o.
Proof.
  induction o as [|[k' v'] o IH]; simpl; [discriminate|].
  destruct (String.eqb k k') eqn:E.
  - apply String.eqb_eq in E. intros [= ->]. left. now subst.
  - intros H. right. auto.
Qed.

Lemma get_None k o : get k o = None <-> ~ In k (map fst o).
Proof.
  induction o as [|[k' v'] o IH]; simpl.
  - tauto.
  - destruct (String.eqb k k') eqn:E.
    + apply String.eqb_eq in E. split; [discriminate|]. intros H. exfalso. apply H. now left.
    + apply String.eqb_neq in E. rewrite IH. split.
      * intros H [H1|H1]; auto.
      * intros H H1. apply H. now right.
Qed.

Lemma In_get k v o : NoDup (map fst o) -> In (k, v) o -> get k o = Some v.
Proof.
  induction o as [|[k' v'] o IH]; simpl; [tauto|].
  intros Hnd [H|H].
  - injection H as -> ->. now rewrite String.eqb_refl.
  - inversion Hnd as [|? ? Hni Hnd']; subst.
    destruct (String.eqb k k') eqn:E.
    + apply String.eqb_eq in E. subst k'. exfalso. apply Hni.
      change k with (fst (k, v)). now apply in_map.
    + auto.
Qed.

Lemma keys_set k v o :
  map fst (set k v o) =
  match get k o with Some _ => map fst o | None => (map fst o ++ [k])%list end.
Proof.
  induction o as [|[k' v'] o IH]; simpl; [reflexivity|].
  destruct (String.eqb k k') eqn:E; simpl.
  - apply String.eqb_eq in E. now subst.
  - rewrite IH. now destruct (get k o).
Qed.

Lemma NoDup_set k v o : NoDup (map fst o) -> NoDup (map fst (set k v o)).
Proof.
  intros H. rewrite keys_set. destruct (get k o) eqn:E; [assumption|].
  apply get_None in E.
  apply NoDup_rev in H. rewrite <- (rev_involutive (_ ++ _)). apply NoDup_rev.
  rewrite rev_app_distr. simpl. constructor; [|assumption].
  now rewrite <- in_rev.
Qed.

Lemma In_keys_set k k' v o :
  In k' (map fst (set k v o)) <-> k' = k \/ In k' (map fst o).
Proof.
  rewrite keys_set. destruct (get k o) eqn:E.
  - split; [tauto|]. intros [->|H]; [|assumption].
    apply get_In in E. change k with (fst (k, v0)). now apply in_map.
  - rewrite in_app_iff. simpl. split; intros H; intuition congruence.
Qed.

Lemma insertIndex_perm (e : string * V) l : Permutation (insertIndex e l) (e :: l).
Proof.
  induction l as [|f l IH]; simpl; [reflexivity|].
  destruct (_ <=? _)%N; [reflexivity|].
  rewrite IH. apply perm_swap.
Qed.

Lemma sortIndex_perm (l : obj V) : Permutation (fold_right (@insertIndex V) [] l) l.
Proof.
  induction l as [|e l IH]; simpl; [reflexivity|].
  rewrite insertIndex_perm. now constructor.
Qed.

Lemma filter_split_perm (A : Type) (f : A -> bool) (l : list A) :
  Permutation (filter f l ++ filter (fun x => negb (f x)) l) l.
Proof.
  induction l as [|x l IH]; simpl; [reflexivity|].
  destruct (f x); simpl.
  - now constructor.
  - rewrite <- Permutation_middle. now constructor.
Qed.

Lemma entries_perm o : Permutation (entries o) o.
Proof.
  unfold entries. rewrite sortIndex_perm. apply filter_split_perm.
Qed.

Lemma keys_perm o : Permutation (keys o) (map fst o).
Proof. unfold keys. apply Permutation_map, entries_perm. Qed.

Lemma values_perm o : Permutation (values o) (map snd o).
Proof. unfold values. apply Permutation_map, entries_perm. Qed.

End Facts.

(** A dictionary filled by a loop whose body is
    [o[key x] = upd (o[key x]) x]. *)
Section GroupedFold.
Variables (A V : Type) (key : A -> string) (upd : option V -> A -> V).

Lemma get_grouped l : forall o k,
  get k (fold_left (gstep key upd) l o) =
  fold_left (fun v x => Some (upd v x)) (filter (hasKey key k) l) (get k o).
Proof.
  induction l as [|x l IH]; intros o k; simpl; [reflexivity|].
  rewrite IH. unfold hasKey at 2.
  destruct (String.eqb (key x) k) eqn:E; simpl; f_equal; unfold gstep.
  - apply String.eqb_eq in E. subst k. now rewrite get_set_same.
  - apply String.eqb_neq in E. now rewrite get_set_other.
Qed.

Lemma keys_grouped l : forall o k,
  In k (map fst (fold_left (gstep key upd) l o)) <->
  In k (map fst o) \/ In k (map key l).
Proof.
  induction l as [|x l IH]; intros o k; simpl; [tauto|].
  rewrite IH. unfold gstep. rewrite In_keys_set. intuition.
Qed.

Lemma NoDup_grouped l : forall o,
  NoDup (map fst o) -> NoDup (map fst (fold_left (gstep key upd) l o)).
Proof.
  induction l as [|x l IH]; intros o H; simpl; [assumption|].
  apply IH. unfold gstep. now apply NoDup_set.
Qed.

End GroupedFold.

End ObjFacts.

(** ** Sorting *)

Section SortFacts.
Variable A : Type.
Variable cmp : A -> A -> Num.num.

(** The order the comparator leaves two neighbours in. *)
Let keeps (a b : A) : Prop :=
  Num.gt (cmp b a) Num.zero = true \/ Num.gt (cmp a b) Num.zero = false.

Lemma insertBy_perm x l : Permutation (insertBy cmp x l) (x :: l).
Proof.
  induction l as [|y l IH]; simpl; [reflexivity|].
  destruct (Num.gt (cmp x y) Num.zero); [|reflexivity].
  rewrite IH. apply perm_swap.
Qed.

Lemma sortBy_perm l : Permutation (sortBy cmp l) l.
Proof.
  induction l as [|x l IH]; simpl; [reflexivity|].
  rewrite insertBy_perm. now constructor.
Qed.

Lemma sortBy_length l : List.length (sortBy cmp l) = List.length l.
Proof. apply Permutation_length, sortBy_perm. Qed.

Lemma sortBy_In x l : In x (sortBy cmp l) <-> In x l.
Proof.
  split; apply Permutation_in; [|symmetry]; apply sortBy_perm.
Qed.

Lemma insertBy_sorted x l : Sorted keeps l -> Sorted keeps (insertBy cmp x l).
Proof.
  induction l as [|y l IH]; simpl; intros Hs.
  - repeat constructor.
  - destruct (Num.gt (cmp x y) Num.zero) eqn:E.
    + inversion Hs as [|? ? Hs' Hhd]; subst. constructor; [auto|].
      destruct l as [|z l]; simpl.
      * constructor. now left.
      * destruct (Num.gt (cmp x z) Num.zero).
        -- inversion Hhd; subst. now constructor.
        -- constructor. now left.
    + constructor; [assumption|]. constructor. now right.
Qed.

Lemma sortBy_sorted l :
  Sorted (fun a b => Num.gt (cmp b a) Num.zero = true \/
                     Num.gt (cmp a b) Num.zero = false) (sortBy cmp l).
Proof.
  induction l as [|x l IH]; simpl; [constructor|].
  now apply insertBy_sorted.
Qed.

Lemma Sorted_weaken (R R' : A -> A -> Prop) l :
  (forall a b, R a b -> R' a b) -> Sorted R l -> Sorted R' l.
Proof.
  intros H. induction 1 as [|x l Hs IH Hhd]; constructor; [assumption|].
  destruct Hhd; constructor. auto.
Qed.

(** With a comparator that never asks for both orders, the sorted
    list has no neighbour the comparator wants in front. *)
Lemma sortBy_sorted_antisym l :
  (forall a b, Num.gt (cmp b a) Num.zero = true -> Num.gt (cmp a b) Num.zero = false) ->
  Sorted (fun a b => Num.gt (cmp a b) Num.zero = false) (sortBy cmp l).
Proof.
  intros Hanti. eapply Sorted_weaken; [|apply sortBy_sorted].
  intros a b [H|H]; auto.
Qed.

End SortFacts.

(** ** Numbers *)

Lemma add_sameNumber a b x y :
  sameNumber a b -> sameNumber x y -> sameNumber (Num.add a x) (Num.add b y).
Proof.
  unfold sameNumber, Num.add.
  intros [->|[Ha Hb]] [->|[Hx Hy]].
  - now left.
  - destruct x as [sx| | |]; try discriminate.
    destruct y as [sy| | |]; try discriminate.
    destruct b as [[]|[]| |[] mb eb], sx, sy; cbn; auto.
  - destruct a as [sa| | |]; try discriminate.
    destruct b as [sb| | |]; try discriminate.
    destruct y as [[]|[]| |[] my ey], sa, sb; cbn; auto.
  - destruct a as [sa| | |]; try discriminate.
    destruct b as [sb| | |]; try discriminate.
    destruct x as [sx| | |]; try discriminate.
    destruct y as [sy| | |]; try discriminate.
    destruct sa, sb, sx, sy; cbn; auto.
Qed.

Lemma sub_sameNumber a b x y :
  sameNumber a b -> sameNumber x y -> sameNumber (Num.sub a x) (Num.sub b y).
Proof.
  unfold sameNumber, Num.sub.
  intros [->|[Ha Hb]] [->|[Hx Hy]].
  - now left.
  - destruct x as [sx| | |]; try discriminate.
    destruct y as [sy| | |]; try discriminate.
    destruct b as [[]|[]| |[] mb eb], sx, sy; cbn; auto.
  - destruct a as [sa| | |]; try discriminate.
    destruct b as [sb| | |]; try discriminate.
    destruct y as [[]|[]| |[] my ey], sa, sb; cbn; auto.
  - destruct a as [sa| | |]; try discriminate.
    destruct b as [sb| | |]; try discriminate.
    destruct x as [sx| | |]; try discriminate.
    destruct y as [sy| | |]; try discriminate.
    destruct sa, sb, sx, sy; cbn; auto.
Qed.

Lemma orZero_sameNumber (f : onum) :
  isNumber f -> sameNumber (orZero f) (toNumber f).
Proof.
  intros (x & -> & Hx). unfold orZero, toNumber, Num.truthy. rewrite Hx.
  destruct (Num.isZero x) eqn:Hz; simpl.
  - right. now split.
  - now left.
Qed.

(** The two ways of summing a column agree on canonical holdings. *)
Lemma guarded_sum_sameNumber (get : Holding -> onum) (l : list Item) :
  Forall (fun i => isNumber (get (holding i))) l ->
  forall a b, sameNumber a b ->
  sameNumber
    (fold_left (fun acc curr => Num.add acc (orZero (get (holding curr)))) l a)
    (fold_left (fun acc c => Num.add acc (toNumber (get (holding c)))) l b).
Proof.
  induction 1 as [|i l Hi Hl IH]; intros a b Hab; simpl; [assumption|].
  apply IH. apply add_sameNumber; [assumption|]. now apply orZero_sameNumber.
Qed.

Lemma workingSet_incl b l i : In i (workingSet b l) -> In i l.
Proof.
  destruct b; simpl; [|trivial]. intros H. now apply filter_In in H.
Qed.

Lemma SFcompare_antisym (x y : spec_float) :
  SFcompare y x = option_map CompOpp (SFcompare x y).
Proof.
  destruct x as [[]|[]| |[] mx ex], y as [[]|[]| |[] my ey]; try reflexivity; simpl;
    rewrite (Z.compare_antisym ex ey); destruct (ex ?= ey); simpl; try reflexivity;
    rewrite (Pos.compare_cont_antisym mx my Eq); simpl;
    try rewrite CompOpp_involutive; reflexivity.
Qed.

Lemma ge_not_lt (x y : Num.num) : Num.ge x y = true -> Num.lt x y = false.
Proof.
  unfold Num.ge, Num.lt, SFleb, SFltb. rewrite (SFcompare_antisym x y).
  destruct (SFcompare x y) as [[]|]; simpl; congruence.
Qed.

(** *** The sign of a difference *)

Lemma binary_round_negative (m : positive) (e : Z) :
  SFltb Num.zero (binary_round Num.prec Num.emax true m e) = false.
Proof.
  unfold binary_round, binary_round_aux.
  destruct (shl_align _ _ _) as [mz ez].
  destruct (shr_fexp _ _ _ _ _) as [mrs' e'].
  destruct (shr_fexp _ _ _ _ _) as [mrs'' e''].
  destruct (shr_m mrs''); try reflexivity.
  destruct (_ <=? _); reflexivity.
Qed.

Lemma binary_normalize_opp (d : Z) (e : Z) :
  SFltb Num.zero (binary_normalize Num.prec Num.emax d e false) = true ->
  SFltb Num.zero (binary_normalize Num.prec Num.emax (- d) e false) = false.
Proof.
  destruct d as [|p|p]; simpl.
  - discriminate.
  - intros _. apply binary_round_negative.
  - now rewrite binary_round_negative.
Qed.

Lemma sub_antisym (x y : Num.num) :
  Num.gt (Num.sub y x) Num.zero = true -> Num.gt (Num.sub x y) Num.zero = false.
Proof.
  unfold Num.gt, Num.sub.
  destruct x as [[]|[]| |sx mx ex], y as [[]|[]| |sy my ey];
    try reflexivity; try discriminate;
    try (destruct sy; cbn; congruence); try (destruct sx; cbn; congruence).
  unfold SFsub. rewrite (Z.min_comm ex ey). intros H.
  apply binary_normalize_opp in H.
  match goal with |- SFltb _ (binary_normalize _ _ ?a _ _) = _ =>
    match type of H with SFltb _ (binary_normalize _ _ (- ?b) _ _) = _ =>
      replace a with (- b) by lia end end.
  exact H.
Qed.

Lemma digits2_size p : digits2_pos p = Pos.size p.
Proof. induction p; simpl; congruence. Qed.

Lemma digits_bounds p :
  2 ^ (Zpos (digits2_pos p) - 1) <= Zpos p < 2 ^ Zpos (digits2_pos p).
Proof.
  rewrite digits2_size.
  pose proof (Pos.size_gt p) as Hgt. pose proof (Pos.size_le p) as Hle.
  apply Pos2Z.pos_lt_pos in Hgt. apply Pos2Z.pos_le_pos in Hle.
  rewrite Pos2Z.inj_pow in Hgt, Hle.
  change (Z.pos p~0) with (2 * Z.pos p) in Hle.
  split; [|exact Hgt].
  assert (E : 2 ^ Z.pos (Pos.size p) = 2 * 2 ^ (Z.pos (Pos.size p) - 1)).
  { rewrite <- Z.pow_succ_r by lia. f_equal. lia. }
  lia.
Qed.

Lemma shr_1_m r : 0 <= shr_m r -> shr_m (shr_1 r) = shr_m r / 2.
Proof.
  destruct r as [m b s]. cbn [shr_m]. destruct m as [|[p|p|]|p]; cbn [shr_1 shr_m];
    intros H; try lia; try reflexivity.
  - apply Z.div_unique with 1; lia.
  - apply Z.div_unique with 0; lia.
Qed.

Lemma shr_iter (k : positive) : forall r,
  0 <= shr_m r -> shr_m (iter_pos shr_1 k r) = shr_m r / 2 ^ Zpos k.
Proof.
  induction k as [k IH|k IH|]; intros r Hr; simpl iter_pos.
  - assert (H1 : 0 <= shr_m (shr_1 r)).
    { rewrite shr_1_m by assumption. apply Z.div_pos; lia. }
    assert (H2 : 0 <= shr_m (iter_pos shr_1 k (shr_1 r))).
    { rewrite IH by assumption. apply Z.div_pos; [assumption|]. apply Z.pow_pos_nonneg; lia. }
    rewrite IH, IH, shr_1_m by assumption.
    rewrite !Z.div_div by (try apply Z.pow_pos_nonneg; lia).
    f_equal. rewrite Pos2Z.inj_xI. rewrite <- Z.pow_add_r by lia.
    rewrite <- (Z.pow_1_r 2) at 1. rewrite <- Z.pow_add_r by lia. f_equal. lia.
  - assert (H2 : 0 <= shr_m (iter_pos shr_1 k r)).
    { rewrite IH by assumption. apply Z.div_pos; [assumption|]. apply Z.pow_pos_nonneg; lia. }
    rewrite IH, IH by assumption.
    rewrite !Z.div_div by (try apply Z.pow_pos_nonneg; lia).
    f_equal. rewrite Pos2Z.inj_xO. rewrite <- Z.pow_add_r by lia. f_equal. lia.
  - rewrite shr_1_m by assumption. reflexivity.
Qed.

Lemma shr_record_m m l : shr_m (shr_record_of_loc m l) = m.
Proof. destruct l as [|[]]; reflexivity. Qed.

Lemma shr_fexp_pos (p : positive) (e : Z) (l : location) :
  eminZ <= e ->
  0 < shr_m (fst (shr_fexp Num.prec Num.emax (Zpos p) e l)) /\
  eminZ <= snd (shr_fexp Num.prec Num.emax (Zpos p) e l).
Proof.
  intros He. unfold shr_fexp, shr.
  destruct (fexp Num.prec Num.emax (Zdigits2 (Z.pos p) + e) - e) as [|k|k] eqn:En; simpl.
  - rewrite shr_record_m. lia.
  - rewrite shr_iter by (rewrite shr_record_m; lia). rewrite shr_record_m.
    unfold fexp in En. fold eminZ in En. simpl Zdigits2 in En.
    pose proof (digits_bounds p) as [Hlo Hhi].
    unfold Num.prec in En.
    assert (Hk : Zpos k <= Zpos (digits2_pos p) - 1) by lia.
    split; [|lia].
    apply Z.div_str_pos. split; [apply Z.pow_pos_nonneg; lia|].
    apply Z.le_trans with (2 ^ (Zpos (digits2_pos p) - 1)); [|assumption].
    apply Z.pow_le_mono_r; lia.
  - rewrite shr_record_m. lia.
Qed.

Lemma round_ge m l : m <= round_nearest_even m l.
Proof. destruct l as [|[]]; simpl; try destruct (Z.even m); lia. Qed.

Lemma binary_round_aux_pos (p : positive) (e : Z) (l : location) :
  eminZ <= e ->
  SFltb Num.zero (binary_round_aux Num.prec Num.emax false (Zpos p) e l) = true.
Proof.
  intros He. unfold binary_round_aux.
  pose proof (@shr_fexp_pos p e l He) as H1.
  destruct (shr_fexp Num.prec Num.emax (Z.pos p) e l) as [mrs' e']. simpl in H1.
  destruct H1 as [Hm He'].
  pose proof (round_ge (shr_m mrs') (loc_of_shr_record mrs')) as Hr.
  destruct (round_nearest_even (shr_m mrs') (loc_of_shr_record mrs')) as [|q|q]; try lia.
  pose proof (@shr_fexp_pos q e' loc_Exact He') as H2.
  destruct (shr_fexp Num.prec Num.emax (Z.pos q) e' loc_Exact) as [mrs'' e'']. simpl in H2.
  destruct H2 as [Hm2 _].
  destruct (shr_m mrs'') as [|m|m]; try lia.
  destruct (e'' <=? Num.emax - Num.prec); reflexivity.
Qed.

Lemma binary_round_pos (m : positive) (e : Z) :
  eminZ <= e -> SFltb Num.zero (binary_round Num.prec Num.emax false m e) = true.
Proof.
  intros He. unfold binary_round, shl_align.
  set (t := fexp Num.prec Num.emax (Z.pos (digits2_pos m) + e)).
  assert (Ht : eminZ <= t) by (unfold t, fexp; fold eminZ; lia).
  destruct (t - e); now apply binary_round_aux_pos.
Qed.

Lemma binary_normalize_pos (d e : Z) :
  0 < d -> eminZ <= e ->
  SFltb Num.zero (binary_normalize Num.prec Num.emax d e false) = true.
Proof.
  intros Hd He. destruct d as [|p|p]; try lia. simpl. now apply binary_round_pos.
Qed.

Lemma valid_finite s m e :
  canonical (S754_finite s m e) = true ->
  eminZ <= e /\ Zpos (digits2_pos m) <= 53 /\ (eminZ < e -> Zpos (digits2_pos m) = 53).
Proof.
  unfold canonical, valid_binary, bounded, canonical_mantissa, fexp. fold eminZ.
  intros H. apply andb_true_iff in H. destruct H as [H _].
  apply Z.eqb_eq in H. unfold Num.prec in H. lia.
Qed.

Lemma shl_align_fst m e ez :
  ez <= e -> Zpos (fst (shl_align m e ez)) = Zpos m * 2 ^ (e - ez).
Proof.
  intros H. unfold shl_align. destruct (ez - e) as [|d|d] eqn:E; cbn [fst]; try lia.
  - replace (e - ez) with 0 by lia. rewrite Z.pow_0_r. lia.
  - change (Pos.iter xO m d) with (shift_pos d m). rewrite shift_pos_correct.
    replace (e - ez) with (Zpos d) by lia.
    change (Z.pow_pos 2 d) with (2 ^ Zpos d). apply Z.mul_comm.
Qed.

Lemma mantissa_lt_shifted (mx my : positive) (ex ey : Z) :
  Zpos (digits2_pos mx) <= 53 -> Zpos (digits2_pos my) = 53 -> ex < ey ->
  Zpos mx * 2 ^ (ex - ex) < Zpos my * 2 ^ (ey - ex).
Proof.
  intros Hx Hy He. rewrite Z.sub_diag, Z.pow_0_r, Z.mul_1_r.
  pose proof (digits_bounds mx) as [_ Hmx]. pose proof (digits_bounds my) as [Hmy _].
  rewrite Hy in Hmy.
  assert (H53 : 2 ^ Zpos (digits2_pos mx) <= 2 ^ 53) by (apply Z.pow_le_mono_r; lia).
  assert (H2 : 2 ^ 1 <= 2 ^ (ey - ex)) by (apply Z.pow_le_mono_r; lia).
  change (2 ^ 1) with 2 in H2. change (2 ^ (53 - 1)) with 4503599627370496 in Hmy.
  change (2 ^ 53) with 9007199254740992 in H53.
  nia.
Qed.

Lemma sub_pos (x y : Num.num) :
  canonical x = true -> canonical y = true ->
  Num.lt x y = true -> Num.gt (Num.sub y x) Num.zero = true.
Proof.
  unfold Num.lt, Num.gt, Num.sub.
  destruct x as [[]|[]| |sx mx ex], y as [[]|[]| |sy my ey]; intros Vx Vy;
    try discriminate; try reflexivity;
    try (destruct sy; cbn; congruence); try (destruct sx; cbn; congruence).
  apply valid_finite in Vx, Vy.
  destruct Vx as (Hex & Hdx & Hnx), Vy as (Hey & Hdy & Hny).
  unfold SFltb, SFcompare, SFsub. intros Hlt.
  apply binary_normalize_pos; [|lia].
  rewrite !shl_align_fst by lia.
  assert (Px : 0 < Zpos mx * 2 ^ (ex - Z.min ey ex)).
  { apply Z.mul_pos_pos; [lia|]. apply Z.pow_pos_nonneg; lia. }
  assert (Py : 0 < Zpos my * 2 ^ (ey - Z.min ey ex)).
  { apply Z.mul_pos_pos; [lia|]. apply Z.pow_pos_nonneg; lia. }
  destruct sx, sy; cbn [cond_Zopp]; try discriminate; try lia.
  - (* both negative: x < y means |y| < |x| *)
    destruct (Z.compare_spec ex ey) as [E|E|E]; try discriminate.
    + subst ey. rewrite Z.min_id, Z.sub_diag, Z.pow_0_r.
      destruct (Pos.compare_cont Eq mx my) eqn:C; try discriminate.
      change (Pos.compare_cont Eq mx my) with (Pos.compare mx my) in C.
      apply Pos.compare_gt_iff in C. lia.
    + rewrite Z.min_l by lia.
      pose proof (@mantissa_lt_shifted my mx ey ex Hdy (Hnx ltac:(lia)) E). lia.
  - (* both positive *)
    destruct (Z.compare_spec ex ey) as [E|E|E]; try discriminate.
    + subst ey. rewrite Z.min_id, Z.sub_diag, Z.pow_0_r.
      change (Pos.compare_cont Eq mx my) with (Pos.compare mx my) in Hlt.
      destruct (Pos.compare_spec mx my) as [C|C|C]; try discriminate. lia.
    + rewrite Z.min_r by lia.
      pose proof (@mantissa_lt_shifted mx my ex ey Hdx (Hny ltac:(lia)) E). lia.
Qed.

(** ** Health score *)

Ltac qeq :=
  unfold Qeq, Qminus, Qplus, Qopp, Qmult, inject_Z; cbn [Qnum Qden]; lia.

Lemma clutter_penalty (c : nat) :
  (mathMin 20 (ofLength c * 2) == Z.min 40 (4 * Z.of_nat c) # 2)%Q.
Proof.
  unfold mathMin, ofLength, Qle_bool. cbn [Qnum Qden Qmult inject_Z].
  destruct (Z.leb_spec (20 * Z.pos (1 * 1)) (Z.of_nat c * 2 * 1)); qeq.
Qed.

Lemma loss_penalty (l : nat) :
  (mathMin 15 (ofLength l * (3 # 2)) == Z.min 30 (3 * Z.of_nat l) # 2)%Q.
Proof.
  unfold mathMin, ofLength, Qle_bool. cbn [Qnum Qden Qmult inject_Z].
  destruct (Z.leb_spec (15 * Z.pos (1 * 2)) (Z.of_nat l * 3 * 1)); qeq.
Qed.

Lemma round_half (k : Z) (q : Q) : (q == k # 2)%Q -> mathRound q = (k + 1) / 2.
Proof.
  intros H. unfold mathRound.
  rewrite (Qfloor_comp (q + (1 # 2)) ((k + 1) # 2)); [reflexivity|].
  rewrite H. qeq.
Qed.

Lemma halves_range c l n : 90 <= halves c l n <= 200.
Proof. unfold halves. destruct (20 <? n)%nat, (40 <? n)%nat; lia. Qed.

Lemma healthScoreOf_halves c l n : healthScoreOf c l n = (halves c l n + 1) / 2.
Proof.
  pose proof (halves_range c l n) as R.
  unfold healthScoreOf.
  rewrite (@round_half (halves c l n)).
  - apply Z.max_r. apply Z.div_pos; lia.
  - unfold halves. cbv zeta.
    destruct (20 <? n)%nat, (40 <? n)%nat;
      rewrite clutter_penalty, loss_penalty; qeq.
Qed.

Lemma healthScoreSpec_halves c l n : healthScoreSpec c l n = (halves c l n + 1) / 2.
Proof.
  pose proof (halves_range c l n) as R.
  unfold healthScoreSpec.
  set (raw := (100 - _ - _ - _ - _)%Q).
  assert (E : (raw == halves c l n # 2)%Q).
  { unfold raw, halves. rewrite clutter_penalty, loss_penalty.
    destruct (20 <? n)%nat, (40 <? n)%nat; qeq. }
  destruct (Qle_bool raw 0) eqn:E0.
  { apply Qle_bool_iff in E0. rewrite E in E0. unfold Qle in E0. simpl in E0. lia. }
  destruct (Qle_bool 100 raw) eqn:E1.
  - apply Qle_bool_iff in E1. rewrite E in E1. unfold Qle in E1. simpl in E1.
    apply round_half. qeq.
  - now apply round_half.
Qed.

(** ** The claims on the totals, the simulation and the health score *)

(** C8. The simulation statistics do not depend on [simulateCleanup]:
    with the toggle on or off they are the count and total value of the
    original list and the count and value of its clutter (the holdings
    below 5000), all taken before the filter. *)
Theorem simStats_simulation_invariant (data : list Holding) :
  Result.simStats (analysis data true) = Result.simStats (analysis data false) /\
  forall simulateCleanup,
    let s := Result.simStats (analysis data simulateCleanup) in
    let original := map processItem data in
    originalCount s = List.length data /\
    originalTotalVal s = sumItemCurrent original /\
    clutterCount s = List.length (filter isClutter original) /\
    clutterVal s = sumItemCurrent (filter isClutter original).
Proof.
  split; [reflexivity|].
  intros b. cbn. rewrite length_map. repeat split.
Qed.

(** C9 (amended). On holdings whose current value is a number (not
    NaN, not missing), [totalCurr] is the sum of the current values of the
    working set, up to the sign of a zero, and [totalReturns] is
    [totalCurr - totalInv], whatever [simulateCleanup] is; when the
    invested values are numbers too, [totalReturns] is the sum of the
    current values minus the sum of the invested values. *)
Theorem totals_exact (data : list Holding) (simulateCleanup : bool) :
  (forall h, In h data -> isNumber (currentValue h)) ->
  let r := analysis data simulateCleanup in
  let ws := Result.processedData r in
  ws = workingSet simulateCleanup (map processItem data) /\
  sameNumber (Result.totalCurr r) (sumItemCurrent ws) /\
  Result.totalReturns r = Num.sub (Result.totalCurr r) (Result.totalInv r) /\
  ((forall h, In h data -> isNumber (investedValue h)) ->
   sameNumber (Result.totalReturns r)
              (Num.sub (sumItemCurrent ws) (sumItemInvested ws))).
Proof.
  intros Hnum. cbn zeta.
  cbn [Result.processedData Result.totalCurr Result.totalInv Result.totalReturns analysis].
  set (ws := workingSet simulateCleanup (map processItem data)).
  assert (Hc : forall get : Holding -> onum,
             (forall h, In h data -> isNumber (get h)) ->
             sameNumber
               (fold_left (fun acc curr => Num.add acc (orZero (get (holding curr)))) ws Num.zero)
               (fold_left (fun acc c => Num.add acc (toNumber (get (holding c)))) ws Num.zero)).
  { intros get Hget. apply (guarded_sum_sameNumber get); [|now left].
    apply Forall_forall. intros i Hi.
    apply workingSet_incl, in_map_iff in Hi. destruct Hi as (h & <- & Hh).
    now apply Hget. }
  split; [reflexivity|]. split; [exact (Hc currentValue Hnum)|]. split; [reflexivity|].
  intros Hinv. apply sub_sameNumber; [exact (Hc currentValue Hnum)|exact (Hc investedValue Hinv)].
Qed.

Lemma totals_exact_witness :
  let r := analysis SAMPLE_DATA true in
  let ws := Result.processedData r in
  ws = workingSet true (map processItem SAMPLE_DATA) /\
  sameNumber (Result.totalCurr r) (sumItemCurrent ws) /\
  Result.totalReturns r = Num.sub (Result.totalCurr r) (Result.totalInv r) /\
  ((forall h, In h SAMPLE_DATA -> isNumber (investedValue h)) ->
   sameNumber (Result.totalReturns r)
              (Num.sub (sumItemCurrent ws) (sumItemInvested ws))).
Proof.
  apply (@totals_exact SAMPLE_DATA true).
  intros h Hin. simpl in Hin.
  repeat (destruct Hin as [<-|Hin]; [eexists; split; reflexivity|]).
  contradiction.
Defined.

(** C9, as stated, fails: of two holdings worth 6,000 and n/a, which
    the normalizer stores as NaN, the sum of the current values is NaN,
    and [totalCurr] is 6000: the loop adds [value || 0]. *)
Lemma nan_current_value_counts_as_zero :
  let r := analysis nanData false in
  map currentValue nanData = [Some (Num.ofZ 6000); Some Num.NaN] /\
  map itemCurrent (Result.processedData r) = [Num.ofZ 6000; Num.NaN] /\
  sumItemCurrent (Result.processedData r) = Num.NaN /\
  Result.totalCurr r = Num.ofZ 6000.
Proof. vm_compute. repeat split. Qed.

(** The totals of the sample portfolio, with the simulation on. *)
Example sample_totals :
  let r := analysis SAMPLE_DATA true in
  (Num.toString (Result.totalInv r), Num.toString (Result.totalCurr r),
   Num.toString (Result.totalReturns r),
   Num.toString (sumItemCurrent (Result.processedData r)),
   List.length (Result.processedData r))
    = ("295000", "398000", "103000", "398000", 8%nat).
Proof. vm_compute. reflexivity. Qed.

(** ** Texts *)

Lemma hasChar_app c (a b : string) : hasChar c (a ++ b) = hasChar c a || hasChar c b.
Proof. induction a as [|d a IH]; simpl; [reflexivity|]. rewrite IH. now rewrite orb_assoc. Qed.

Lemma toLowerCase_app (a b : string) :
  Str.toLowerCase (a ++ b) = Str.toLowerCase a ++ Str.toLowerCase b.
Proof. induction a as [|c a IH]; simpl; [reflexivity|]. now rewrite IH. Qed.

(** The text of a number holds digits, a point, a sign, an exponent
    mark or the letters of NaN and Infinity, and nothing else. *)
Lemma hasChar_ofUint c (d : Decimal.uint) :
  notNumeric c = true -> hasChar c (NilZero.string_of_uint d) = false.
Proof.
  intros H. apply negb_true_iff in H. cbn [list_ascii_of_string existsb] in H.
  repeat (apply orb_false_iff in H; destruct H as [? H]).
  assert (E : forall u, hasChar c (NilEmpty.string_of_uint u) = false).
  { induction u; cbn [NilEmpty.string_of_uint hasChar]; rewrite ?IHu;
      try reflexivity; rewrite orb_false_r; assumption. }
  destruct d; try apply E. cbn [NilZero.string_of_uint hasChar].
  rewrite orb_false_r. assumption.
Qed.

Lemma hasChar_repeat c d n : Ascii.eqb c d = false -> hasChar c (Str.repeatChar d n) = false.
Proof. intros H. induction n; simpl; [reflexivity|]. now rewrite H, IHn. Qed.

Lemma hasChar_takeN c s : hasChar c s = false -> forall n, hasChar c (Str.takeN n s) = false.
Proof.
  induction s as [|d s IH]; intros H [|n]; try reflexivity.
  cbn [hasChar] in H. apply orb_false_iff in H. destruct H as [H1 H2].
  cbn [Str.takeN hasChar]. now rewrite H1, IH.
Qed.

Lemma hasChar_dropN c s : hasChar c s = false -> forall n, hasChar c (Str.dropN n s) = false.
Proof.
  induction s as [|d s IH]; intros H [|n]; try reflexivity; try assumption.
  cbn [hasChar] in H. apply orb_false_iff in H. destruct H as [H1 H2].
  cbn [Str.dropN]. now apply IH.
Qed.

Ltac off c :=
  repeat match goal with E : Ascii.eqb c _ = false |- _ => rewrite E; clear E end.

Lemma hasChar_toString c (x : Num.num) :
  notNumeric c = true -> hasChar c (Num.toString x) = false.
Proof.
  intros H. pose proof H as H0.
  apply negb_true_iff in H0. cbn [list_ascii_of_string existsb] in H0.
  repeat (apply orb_false_iff in H0; destruct H0 as [? H0]).
  assert (Hn : forall n, hasChar c (Str.ofN n) = false)
    by (intros n; now apply hasChar_ofUint).
  assert (Hs : forall n, hasChar c (Num.exponentSuffix n) = false).
  { intros n. unfold Num.exponentSuffix. cbn [hasChar].
    destruct (0 <=? n - 1); cbn [append hasChar]; rewrite Hn; off c; reflexivity. }
  destruct x as [s|[]| |s m e]; cbn [Num.toString].
  - cbn [hasChar]. now off c.
  - cbn [hasChar]. now off c.
  - cbn [hasChar]. now off c.
  - cbn [hasChar]. now off c.
  - destruct (Num.fraction m e) as [p q].
    destruct (Num.shortest _ _ _ _ _ _) as [[d n] k].
    rewrite hasChar_app.
    assert (Hf : hasChar c (Num.formatDigits (Str.ofN (Z.to_N d)) n k) = false).
    { unfold Num.formatDigits.
      repeat match goal with |- context [if ?b then _ else _] => destruct b end;
        rewrite ?hasChar_app; cbn [hasChar];
        rewrite ?hasChar_app; cbn [hasChar];
        rewrite ?Hs, ?Hn, ?hasChar_takeN, ?hasChar_dropN, ?hasChar_repeat by auto;
        off c; reflexivity. }
    rewrite Hf. destruct s; cbn [hasChar]; [|reflexivity]. now off c.
Qed.

(** ** The normalizer *)

Lemma headerIndex_None (rows : list row) :
  headerIndex rows = None <-> Forall (fun r => isHeaderRow r = false) rows.
Proof.
  induction rows as [|r rows IH]; simpl.
  - split; [constructor|reflexivity].
  - destruct (isHeaderRow r) eqn:E.
    + split; [discriminate|]. intros H. inversion H; congruence.
    + destruct (headerIndex rows); simpl.
      * split; [discriminate|]. intros H. inversion H; subst.
        now apply IH in H3.
      * split; [|reflexivity]. intros _. constructor; [assumption|]. now apply IH.
Qed.

Lemma headerIndex_Some (rows : list row) : forall i,
  headerIndex rows = Some i <->
  (i < List.length rows)%nat /\ isHeaderRow (nth i rows []) = true /\
  Forall (fun r => isHeaderRow r = false) (firstn i rows).
Proof.
  induction rows as [|r rows IH]; intros i; simpl.
  - split; [discriminate|]. intros [H _]. inversion H.
  - destruct (isHeaderRow r) eqn:E.
    + split.
      * intros [= <-]. simpl. repeat split; [lia|assumption|constructor].
      * intros (_ & Hh & Hf). destruct i as [|i]; [reflexivity|].
        simpl in Hf. inversion Hf; congruence.
    + destruct i as [|i].
      * split.
        -- destruct (headerIndex rows); discriminate.
        -- intros (_ & Hh & _). simpl in Hh. congruence.
      * specialize (IH i). split.
        -- destruct (headerIndex rows) as [j|]; simpl; [|discriminate].
           intros [= ->]. destruct IH as [IH _]. specialize (IH eq_refl).
           destruct IH as (Hl & Hh & Hf). simpl. repeat split; [lia|assumption|].
           now constructor.
        -- intros (Hl & Hh & Hf). simpl in Hh, Hf. inversion Hf; subst.
           destruct IH as [_ IH]. rewrite IH; [reflexivity|].
           repeat split; [lia|assumption|assumption].
Qed.

Lemma headerIndex_skipn (rows : list row) : forall i,
  headerIndex rows = Some i -> headerIndex (skipn i rows) = Some O.
Proof.
  induction rows as [|r rows IH]; intros i; simpl; [discriminate|].
  destruct (isHeaderRow r) eqn:E.
  - intros [= <-]. simpl. now rewrite E.
  - destruct (headerIndex rows) as [j|]; simpl; [|discriminate].
    intros [= <-]. simpl. now apply IH.
Qed.

Lemma nth_skipn_0 (A : Type) (d : A) (l : list A) i : nth O (skipn i l) d = nth i l d.
Proof.
  revert l. induction i as [|i IH]; intros [|x l]; simpl; auto.
Qed.

Lemma skipn_S_skipn (A : Type) (l : list A) i : skipn 1 (skipn i l) = skipn (S i) l.
Proof.
  revert l. induction i as [|i IH]; intros [|x l]; try reflexivity.
  change (skipn 1 (skipn i l) = skipn (S i) l). apply IH.
Qed.

Lemma dataRows_from (headers : list string) (rows : list row) :
  Forall (fun o => exists r, In r rows /\ (2 <= List.length r)%nat /\
                             o = fillRow headers 0 r [] /\
                             truthy (prop o "Scheme Name") = true)
         (dataRows headers rows).
Proof.
  induction rows as [|r rows IH]; simpl; [constructor|].
  assert (IH' : Forall (fun o => exists r0, (r = r0 \/ In r0 rows) /\
                         (2 <= List.length r0)%nat /\
                         o = fillRow headers 0 r0 [] /\
                         truthy (prop o "Scheme Name") = true)
                       (dataRows headers rows)).
  { eapply Forall_impl; [|exact IH]. intros o (r0 & H1 & H2). exists r0. tauto. }
  destruct (Nat.ltb_spec (List.length r) 2); [assumption|].
  destruct (truthy (prop (fillRow headers 0 r []) "Scheme Name")) eqn:E; [|assumption].
  constructor; [|assumption]. exists r. auto.
Qed.

(** *** The header test, cell by cell *)

Module HeaderFacts.

Lemma includes_cons p c s :
  Str.includes p (String c s) = Str.startsWith p (String c s) || Str.includes p s.
Proof. reflexivity. Qed.

Lemma includes_nil p : Str.includes p "" = true -> p = "".
Proof. destruct p; [reflexivity|discriminate]. Qed.

Lemma startsWith_includes p s : Str.startsWith p s = true -> Str.includes p s = true.
Proof. intros H. destruct s; simpl; rewrite H; reflexivity. Qed.

Lemma startsWith_app p a b : Str.startsWith p a = true -> Str.startsWith p (a ++ b) = true.
Proof.
  revert a. induction p as [|c p IH]; intros a H; [reflexivity|].
  destruct a as [|x a]; [discriminate|]. simpl in *.
  apply andb_true_iff in H. destruct H as [-> H]. now apply IH.
Qed.

Lemma includes_app_l p a b : Str.includes p a = true -> Str.includes p (a ++ b) = true.
Proof.
  induction a as [|x a IH]; intros H.
  - apply includes_nil in H. subst p. now destruct b.
  - change ((String x a ++ b)%string) with (String x (a ++ b)).
    rewrite includes_cons in *. apply orb_true_iff in H. destruct H as [H|H].
    + apply (startsWith_app _ _ b) in H. simpl in H. simpl. now rewrite H.
    + rewrite (IH H). apply orb_true_r.
Qed.

Lemma includes_app_r p a b : Str.includes p b = true -> Str.includes p (a ++ b) = true.
Proof.
  intros H. induction a as [|x a IH]; [assumption|].
  change ((String x a ++ b)%string) with (String x (a ++ b)).
  rewrite includes_cons, IH. apply orb_true_r.
Qed.

(** A text found at the start of [a ++ d ++ b] that does not hold [d]
    lies in [a]. *)
Lemma startsWith_cut d p : forall a b,
  hasChar d p = false ->
  Str.startsWith p (a ++ String d b) = true -> Str.startsWith p a = true.
Proof.
  induction p as [|c p IH]; intros a b Hd H; [reflexivity|].
  cbn [hasChar] in Hd. apply orb_false_iff in Hd. destruct Hd as [Hc Hd].
  destruct a as [|x a]; simpl in *.
  - rewrite Ascii.eqb_sym, Hc in H. discriminate.
  - apply andb_true_iff in H. destruct H as [-> H]. now apply (IH a b).
Qed.

Lemma includes_cut d p a b :
  hasChar d p = false -> p <> "" ->
  Str.includes p (a ++ String d b) = true ->
  Str.includes p a = true \/ Str.includes p b = true.
Proof.
  intros Hd Hne. induction a as [|x a IH]; intros H.
  - change (("" ++ String d b)%string) with (String d b) in H.
    rewrite includes_cons in H. apply orb_true_iff in H. destruct H as [H|H]; [|now right].
    apply (startsWith_cut d p "" b Hd) in H. destruct p; [congruence|discriminate].
  - change ((String x a ++ String d b)%string) with (String x (a ++ String d b)) in H.
    rewrite includes_cons in H. apply orb_true_iff in H. destruct H as [H|H].
    + left. apply startsWith_includes.
      now apply (startsWith_cut d p (String x a) b Hd).
    + destruct (IH H) as [H'|H']; [left|now right].
      rewrite includes_cons, H'. apply orb_true_r.
Qed.

Lemma plainPhrase_hasChar d p :
  plainPhrase p = true -> isLetterOrSpace d = false -> hasChar d p = false.
Proof.
  intros Hp Hd. induction p as [|c p IH]; [reflexivity|].
  cbn [plainPhrase] in Hp. apply andb_true_iff in Hp. destruct Hp as [Hc Hp].
  cbn [hasChar]. rewrite (IH Hp), orb_false_r.
  destruct (Ascii.eqb_spec d c) as [->|]; [congruence|reflexivity].
Qed.

(** A letter or a space, in either case, is written as it is. *)
Lemma escapeChar_letter (c : ascii) :
  isLetterOrSpace (Str.lowerChar c) = true -> Json.escapeChar c = String c "".
Proof. destruct c as [[] [] [] [] [] [] [] []]; intros H; try discriminate H; reflexivity. Qed.

(** What is written for a character from the space on. *)
Lemma escapeChar_printable (c : ascii) :
  (32 <=? Str.code c)%N = true ->
  Json.escapeChar c = String c "" \/
  exists d, isLetterOrSpace d = false /\
            Str.toLowerCase (Json.escapeChar c) = String "\" (String d "").
Proof.
  destruct c as [[] [] [] [] [] [] [] []]; intros H; try discriminate H;
    try (left; reflexivity); right.
  - exists Str.quote. split; reflexivity.
  - exists "\"%char. split; reflexivity.
Qed.

Section Phrase.
Variable p : string.
Hypothesis Hplain : plainPhrase p = true.
Hypothesis Hne : p <> "".

Let E (s : string) : string := Str.toLowerCase (Json.escape s).

Lemma E_cons c s : E (String c s) = (Str.toLowerCase (Json.escapeChar c) ++ E s)%string.
Proof. unfold E. cbn [Json.escape]. apply toLowerCase_app. Qed.

(** From the cell to its serialization. *)
Lemma startsWith_escape : forall q s,
  plainPhrase q = true ->
  Str.startsWith q (Str.toLowerCase s) = true -> Str.startsWith q (E s) = true.
Proof.
  induction q as [|c q IH]; intros s Hq H; [reflexivity|].
  destruct s as [|x s]; [discriminate|].
  cbn [plainPhrase] in Hq. apply andb_true_iff in Hq. destruct Hq as [Hc Hq].
  cbn [Str.toLowerCase Str.startsWith] in H. apply andb_true_iff in H. destruct H as [Hx H].
  apply Ascii.eqb_eq in Hx. subst c.
  rewrite E_cons, (escapeChar_letter _ Hc). cbn [Str.toLowerCase append Str.startsWith].
  rewrite Ascii.eqb_refl. now apply IH.
Qed.

Lemma includes_escape s :
  Str.includes p (Str.toLowerCase s) = true -> Str.includes p (E s) = true.
Proof.
  induction s as [|x s IH]; intros H.
  - apply includes_nil in H. contradiction.
  - cbn [Str.toLowerCase] in H. rewrite includes_cons in H.
    apply orb_true_iff in H. destruct H as [H|H].
    + apply startsWith_includes. now apply (startsWith_escape p (String x s)).
    + rewrite E_cons. now apply includes_app_r, IH.
Qed.

(** From the serialization back to the cell. *)
Lemma startsWith_unescape : forall q s,
  plainPhrase q = true -> printable s = true ->
  Str.startsWith q (E s) = true -> Str.startsWith q (Str.toLowerCase s) = true.
Proof.
  induction q as [|c q IH]; intros s Hq Hs H; [reflexivity|].
  destruct s as [|x s]; [discriminate|].
  cbn [plainPhrase] in Hq. apply andb_true_iff in Hq. destruct Hq as [Hc Hq].
  cbn [printable] in Hs. apply andb_true_iff in Hs. destruct Hs as [Hx Hs].
  rewrite E_cons in H.
  destruct (escapeChar_printable _ Hx) as [Ex|(d & Hd & Ex)]; rewrite Ex in H.
  - cbn [Str.toLowerCase append Str.startsWith] in H |- *.
    apply andb_true_iff in H. destruct H as [-> H]. now apply IH.
  - cbn [append Str.startsWith] in H.
    apply andb_true_iff in H. destruct H as [H _].
    apply Ascii.eqb_eq in H. subst c. discriminate Hc.
Qed.

Lemma includes_unescape s :
  printable s = true ->
  Str.includes p (E s) = true -> Str.includes p (Str.toLowerCase s) = true.
Proof.
  induction s as [|x s IH]; intros Hs H.
  - apply includes_nil in H. contradiction.
  - pose proof Hs as Hs'.
    cbn [printable] in Hs. apply andb_true_iff in Hs. destruct Hs as [Hx Hs].
    cbn [Str.toLowerCase]. rewrite includes_cons.
    destruct (escapeChar_printable _ Hx) as [Ex|(d & Hd & Ex)].
    + rewrite E_cons, Ex in H. cbn [Str.toLowerCase append] in H.
      rewrite includes_cons in H. apply orb_true_iff in H. destruct H as [H|H].
      * assert (H' : Str.startsWith p (E (String x s)) = true).
        { rewrite E_cons, Ex. exact H. }
        apply (startsWith_unescape p (String x s) Hplain Hs') in H'.
        cbn [Str.toLowerCase] in H'. now rewrite H'.
      * rewrite (IH Hs H). apply orb_true_r.
    + rewrite E_cons, Ex in H. cbn [append] in H.
      change (String "\"%char (String d (E s)))
        with (("" ++ String "\"%char (String d (E s)))%string) in H.
      apply includes_cut in H; [|now apply plainPhrase_hasChar|assumption].
      destruct H as [H|H]; [apply includes_nil in H; contradiction|].
      change (String d (E s)) with (("" ++ String d (E s))%string) in H.
      apply includes_cut in H; [|now apply plainPhrase_hasChar|assumption].
      destruct H as [H|H]; [apply includes_nil in H; contradiction|].
      rewrite (IH Hs H). apply orb_true_r.
Qed.

Hypothesis Hother :
  forall v, (forall s, v <> VStr s) ->
            Str.includes p (Str.toLowerCase (Json.element v)) = false.

Let T (l : list value) : string := Str.toLowerCase (Json.joinComma (map Json.element l)).

Lemma element_text s :
  Str.toLowerCase (Json.element (VStr s)) = String Str.quote (E s ++ String Str.quote "").
Proof. unfold E. cbn [Json.element Str.toLowerCase]. now rewrite toLowerCase_app. Qed.

Lemma element_holds v :
  cellHolds p v = true -> Str.includes p (Str.toLowerCase (Json.element v)) = true.
Proof.
  destruct v as [| |s|x]; try discriminate. cbn [cellHolds]. intros H.
  rewrite element_text.
  apply (includes_app_r p (String Str.quote "")), includes_app_l. now apply includes_escape.
Qed.

Lemma element_held v :
  printableCell v = true ->
  Str.includes p (Str.toLowerCase (Json.element v)) = true -> cellHolds p v = true.
Proof.
  intros Hv H.
  destruct v as [| |s|x];
    try (rewrite Hother in H; [discriminate|intros s; discriminate]).
  cbn [cellHolds printableCell] in *. rewrite element_text in H.
  assert (Hq : hasChar Str.quote p = false) by now apply plainPhrase_hasChar.
  change (String Str.quote (E s ++ String Str.quote ""))
    with (("" ++ String Str.quote (E s ++ String Str.quote ""))%string) in H.
  apply includes_cut in H; [|assumption|assumption].
  destruct H as [H|H]; [apply includes_nil in H; contradiction|].
  apply includes_cut in H; [|assumption|assumption].
  destruct H as [H|H]; [|apply includes_nil in H; contradiction].
  now apply includes_unescape.
Qed.

Lemma T_cons v w l :
  T (v :: w :: l) = (Str.toLowerCase (Json.element v) ++ String "," (T (w :: l)))%string.
Proof.
  unfold T.
  change (Json.joinComma (map Json.element (v :: w :: l)))
    with (Json.element v ++ "," ++ Json.joinComma (map Json.element (w :: l)))%string.
  now rewrite !toLowerCase_app.
Qed.

Lemma cells_hold l :
  existsb (cellHolds p) l = true -> Str.includes p (T l) = true.
Proof.
  induction l as [|v l IH]; [discriminate|].
  cbn [existsb]. intros H. apply orb_true_iff in H.
  destruct l as [|w l].
  - destruct H as [H|H]; [|discriminate]. now apply element_holds.
  - rewrite T_cons. destruct H as [H|H].
    + now apply includes_app_l, element_holds.
    + apply includes_app_r. rewrite includes_cons, (IH H). apply orb_true_r.
Qed.

Lemma cells_held l :
  forallb printableCell l = true ->
  Str.includes p (T l) = true -> existsb (cellHolds p) l = true.
Proof.
  induction l as [|v l IH]; intros Hl H.
  - apply includes_nil in H. contradiction.
  - cbn [forallb] in Hl. apply andb_true_iff in Hl. destruct Hl as [Hv Hl].
    cbn [existsb]. apply orb_true_iff.
    destruct l as [|w l].
    + left. now apply element_held.
    + rewrite T_cons in H.
      apply includes_cut in H; [|now apply plainPhrase_hasChar|assumption].
      destruct H as [H|H]; [left; now apply element_held|right; now apply IH].
Qed.

Lemma rowStr_text r : rowStr r = String "[" (T r ++ "]").
Proof.
  unfold rowStr, Json.stringify, T. now rewrite !toLowerCase_app.
Qed.

(** The phrase is in the text of the row when a cell holds it, and,
    in a row without control characters, only then. *)
Lemma row_holds r :
  existsb (cellHolds p) r = true -> Str.includes p (rowStr r) = true.
Proof.
  intros H. rewrite rowStr_text.
  apply (includes_app_r p (String "[" "")), includes_app_l. now apply cells_hold.
Qed.

Lemma row_held r :
  forallb printableCell r = true ->
  Str.includes p (rowStr r) = true -> existsb (cellHolds p) r = true.
Proof.
  intros Hr H. rewrite rowStr_text in H.
  change (String "[" (T r ++ "]")) with (("" ++ String "["%char (T r ++ "]"))%string) in H.
  apply includes_cut in H; [|now apply plainPhrase_hasChar|assumption].
  destruct H as [H|H]; [apply includes_nil in H; contradiction|].
  apply includes_cut in H; [|now apply plainPhrase_hasChar|assumption].
  destruct H as [H|H]; [|apply includes_nil in H; contradiction].
  now apply cells_held.
Qed.

End Phrase.

(** The text of a cell that is not a string holds no letter but those
    of a number and of [null]. *)
Lemma startsWith_hasChar c : forall p t,
  Str.startsWith p t = true -> hasChar c p = true -> hasChar c t = true.
Proof.
  induction p as [|a p IH]; intros t H Hc; [discriminate|].
  destruct t as [|b t]; [discriminate|]. simpl in H.
  apply andb_true_iff in H. destruct H as [Hab H]. apply Ascii.eqb_eq in Hab. subst b.
  cbn [hasChar] in *. apply orb_true_iff in Hc. destruct Hc as [->|Hc]; [reflexivity|].
  rewrite (IH t H Hc). apply orb_true_r.
Qed.

Lemma includes_hasChar c p t :
  Str.includes p t = true -> hasChar c p = true -> hasChar c t = true.
Proof.
  intros H Hc. induction t as [|b t IH].
  - apply includes_nil in H. subst p. discriminate.
  - rewrite includes_cons in H. apply orb_true_iff in H. destruct H as [H|H].
    + now apply (startsWith_hasChar c p).
    + cbn [hasChar]. rewrite (IH H). apply orb_true_r.
Qed.

Lemma hasChar_lower c t :
  hasChar c (Str.toLowerCase t) = true ->
  exists d, hasChar d t = true /\ Str.lowerChar d = c.
Proof.
  induction t as [|b t IH]; [discriminate|]. cbn [Str.toLowerCase hasChar].
  intros H. apply orb_true_iff in H. destruct H as [H|H].
  - apply Ascii.eqb_eq in H. exists b. split; [|now symmetry].
    now rewrite Ascii.eqb_refl.
  - destruct (IH H) as (d & Hd & E). exists d. split; [|assumption].
    rewrite Hd. apply orb_true_r.
Qed.

Lemma other_cells (c C : ascii) (p : string) (v : value) :
  (forall d, Str.lowerChar d = c -> d = c \/ d = C) ->
  notNumeric c = true -> notNumeric C = true ->
  hasChar c "null" = false -> hasChar C "null" = false ->
  hasChar c p = true ->
  (forall s, v <> VStr s) ->
  Str.includes p (Str.toLowerCase (Json.element v)) = false.
Proof.
  intros Hl Hc HC Hn HN Hp Hv.
  destruct (Str.includes p (Str.toLowerCase (Json.element v))) eqn:E; [|reflexivity].
  apply (includes_hasChar c) in E; [|assumption].
  apply hasChar_lower in E. destruct E as (d & Hd & Ed).
  assert (Ht : hasChar d (Json.element v) = false).
  { destruct v as [| |s|x]; cbn [Json.element].
    - destruct (Hl d Ed) as [->| ->]; assumption.
    - destruct (Hl d Ed) as [->| ->]; assumption.
    - now destruct (Hv s).
    - destruct (Num.isFinite x).
      + destruct (Hl d Ed) as [->| ->]; now apply hasChar_toString.
      + destruct (Hl d Ed) as [->| ->]; assumption. }
  congruence.
Qed.

Lemma lower_s d : Str.lowerChar d = "s"%char -> d = "s"%char \/ d = "S"%char.
Proof.
  destruct d as [[] [] [] [] [] [] [] []]; intros H; try discriminate H; auto.
Qed.

Lemma lower_c d : Str.lowerChar d = "c"%char -> d = "c"%char \/ d = "C"%char.
Proof.
  destruct d as [[] [] [] [] [] [] [] []]; intros H; try discriminate H; auto.
Qed.

(** The header test, cell by cell. *)
Ltac phrase := first [assumption | reflexivity | discriminate].

Lemma holds_scheme_name r :
  forallb printableCell r = true ->
  Str.includes "scheme name" (rowStr r) = existsb (cellHolds "scheme name") r.
Proof.
  intros Hr. destruct (existsb (cellHolds "scheme name") r) eqn:E.
  - apply row_holds; phrase.
  - destruct (Str.includes "scheme name" (rowStr r)) eqn:E'; [|reflexivity].
    rewrite <- E. symmetry. apply row_held; try phrase.
    intros v. now apply (@other_cells "s" "S" "scheme name" v lower_s).
Qed.

Lemma holds_current_value r :
  forallb printableCell r = true ->
  Str.includes "current value" (rowStr r) = existsb (cellHolds "current value") r.
Proof.
  intros Hr. destruct (existsb (cellHolds "current value") r) eqn:E.
  - apply row_holds; phrase.
  - destruct (Str.includes "current value" (rowStr r)) eqn:E'; [|reflexivity].
    rewrite <- E. symmetry. apply row_held; try phrase.
    intros v. now apply (@other_cells "c" "C" "current value" v lower_c).
Qed.

Lemma namesBoth_header r : namesBoth r = true -> isHeaderRow r = true.
Proof.
  unfold namesBoth, isHeaderRow. intros H. apply andb_true_iff in H. destruct H as [H1 H2].
  apply andb_true_iff. split; apply row_holds; phrase.
Qed.

Lemma header_namesBoth r :
  forallb printableCell r = true -> isHeaderRow r = namesBoth r.
Proof.
  intros Hr. unfold namesBoth, isHeaderRow.
  now rewrite holds_scheme_name, holds_current_value.
Qed.

End HeaderFacts.

(** C7 (amended). The header is the first row, from the top, whose
    serialized text [JSON.stringify(row)], in lower case, contains both
    "scheme name" and "current value". A row in which one cell holds the
    first phrase and one cell holds the second, in any case of the
    letters, is such a row; in a grid without control characters these
    are the only ones, so a phrase that is split over two cells does not
    make a header. What the normalizer returns is read from the rows
    after the header only and does not depend on the rows before it;
    without a header the result is the empty list. *)
Theorem header_is_first_match (rows : list row) :
  (forall i, headerIndex rows = Some i <->
     (i < List.length rows)%nat /\ isHeaderRow (nth i rows []) = true /\
     Forall (fun r => isHeaderRow r = false) (firstn i rows)) /\
  (forall r, isHeaderRow r =
     Str.includes "scheme name" (Str.toLowerCase (Json.stringify r)) &&
     Str.includes "current value" (Str.toLowerCase (Json.stringify r))) /\
  (forall r, namesBoth r = true -> isHeaderRow r = true) /\
  (forall r, forallb printableCell r = true -> isHeaderRow r = namesBoth r) /\
  (Forall (fun r => forallb printableCell r = true) rows ->
   forall i, headerIndex rows = Some i <->
     (i < List.length rows)%nat /\ namesBoth (nth i rows []) = true /\
     Forall (fun r => namesBoth r = false) (firstn i rows)) /\
  match headerIndex rows with
  | None =>
      Forall (fun r => isHeaderRow r = false) rows /\ processRawRows rows = []
  | Some i =>
      let headers := map headerName (nth i rows []) in
      processRawRows rows = dataRows headers (skipn (S i) rows) /\
      processRawRows rows = processRawRows (skipn i rows) /\
      Forall (fun o => exists r, In r (skipn (S i) rows) /\ o = fillRow headers 0 r [])
             (processRawRows rows)
  end.
Proof.
  split; [apply headerIndex_Some|].
  split; [reflexivity|].
  split; [apply HeaderFacts.namesBoth_header|].
  split; [apply HeaderFacts.header_namesBoth|].
  split.
  { intros Hp i. rewrite headerIndex_Some.
    assert (Hn : (i < List.length rows)%nat ->
                 isHeaderRow (nth i rows []) = namesBoth (nth i rows [])).
    { intros Hi. apply HeaderFacts.header_namesBoth.
      rewrite Forall_forall in Hp. apply Hp. now apply nth_In. }
    assert (Hf : Forall (fun r => isHeaderRow r = false) (firstn i rows) <->
                 Forall (fun r => namesBoth r = false) (firstn i rows)).
    { rewrite !Forall_forall. rewrite Forall_forall in Hp.
      assert (Hr : forall r, In r (firstn i rows) -> isHeaderRow r = namesBoth r).
      { intros r Hr. apply HeaderFacts.header_namesBoth, Hp.
        rewrite <- (firstn_skipn i rows). apply in_or_app. now left. }
      split; intros H r Hin; specialize (H r Hin); specialize (Hr r Hin); congruence. }
    rewrite Hf. split; intros (Hi & Hh & Hb); (split; [assumption|split; [|assumption]]).
    - now rewrite <- Hn.
    - now rewrite Hn. }
  destruct (headerIndex rows) as [i|] eqn:E.
  - cbn zeta. unfold processRawRows. rewrite E.
    rewrite (headerIndex_skipn rows E), nth_skipn_0, skipn_S_skipn.
    repeat split.
    eapply Forall_impl; [|apply dataRows_from].
    intros o (r & H1 & _ & H2 & _). now exists r.
  - split; [now apply headerIndex_None|].
    unfold processRawRows. now rewrite E.
Qed.

(** C7, as stated, fails: the cells Scheme, Name and Current Value,
    put one after the other, read scheme name and current value, yet the
    row is no header for the code, which finds none in the grid and
    returns nothing. *)
Lemma phrase_split_over_cells_is_no_header :
  rowText (nth 0 splitGrid []) = "scheme namecurrent value" /\
  isHeaderBySpec (nth 0 splitGrid []) = true /\
  rowStr (nth 0 splitGrid [])
    = String "[" (String Str.quote ("scheme" ++ String Str.quote ("," ++
        String Str.quote (" name" ++ String Str.quote ("," ++
        String Str.quote ("current value" ++ String Str.quote "]")))))) /\
  isHeaderRow (nth 0 splitGrid []) = false /\
  headerIndex splitGrid = None /\
  processRawRows splitGrid = [].
Proof. vm_compute. repeat split. Qed.

Lemma prop_assign_other (h k : string) (v : value) (o : obj value) :
  k <> h \/ k = "__proto__" -> prop (assign h v o) k = prop o k.
Proof.
  intros H. unfold assign. destruct (String.eqb_spec h "__proto__") as [->|Hp]; [reflexivity|].
  unfold prop. rewrite ObjFacts.get_set_other; [reflexivity|].
  destruct H as [H| ->]; congruence.
Qed.

Lemma prop_assign_same (k : string) (v : value) (o : obj value) :
  k <> "__proto__" -> prop (assign k v o) k = v.
Proof.
  intros H. unfold assign. apply String.eqb_neq in H. rewrite H.
  unfold prop. now rewrite ObjFacts.get_set_same.
Qed.

(** What [headers.forEach] leaves under a key. *)
Lemma fillRow_prop (k : string) (r : row) (headers : list string) :
  forall index rowObj,
  (~ In k headers \/ k = "__proto__" ->
   prop (fillRow headers index r rowObj) k = prop rowObj k) /\
  (In k headers -> k <> "__proto__" ->
   exists j, nth_error headers j = Some k /\
             prop (fillRow headers index r rowObj) k = coerce k (cellAt r (index + j))).
Proof.
  induction headers as [|h headers IH]; intros index rowObj; simpl.
  - split; [reflexivity|tauto].
  - destruct (IH (S index) (assign h (coerce h (cellAt r index)) rowObj)) as [IH1 IH2].
    split.
    + intros H. rewrite IH1 by tauto. apply prop_assign_other.
      destruct H as [H|H]; [left; intros ->; tauto|now right].
    + intros Hin Hne. destruct (in_dec string_dec k headers) as [Hk|Hk].
      * destruct (IH2 Hk Hne) as (j & Hj & Hp).
        exists (S j). split; [assumption|]. rewrite Hp. f_equal. f_equal. lia.
      * destruct Hin as [->|Hin]; [|contradiction]. exists O. split; [reflexivity|].
        rewrite IH1 by tauto. rewrite prop_assign_same by assumption.
        f_equal. f_equal. lia.
Qed.

Lemma coerce_numeric (k : string) (cell : value) :
  In k numericFields -> coerce k cell = VNum (numericCell k cell).
Proof.
  unfold numericFields. simpl.
  intros [<-|[<-|[<-|[<-|[<-|[]]]]]];
    unfold coerce, numericCell, numericText, cleanCell; cbn [existsb numericColumns];
    destruct cell as [| |s|x]; cbn; try reflexivity;
    destruct (String.eqb (Str.unquote (Str.trim s)) ""); reflexivity.
Qed.

(** C1 (amended). In every row object the normalizer produces, each
    of the five numeric fields whose column is named in the header holds
    a number: 0 for an empty or missing cell, otherwise what [parseFloat]
    reads from the text of the cell without its commas (and, for XIRR,
    percent signs), which is NaN when no number starts the text. A
    numeric field whose column is not in the header is undefined. *)
Theorem numeric_columns_typed (rows : list row) (rowObj : obj value) :
  In rowObj (processRawRows rows) ->
  exists (i : nat) (r : row),
    headerIndex rows = Some i /\
    In r (skipn (S i) rows) /\
    let headers := map headerName (nth i rows []) in
    forall k, In k numericFields ->
      (~ In k headers /\ prop rowObj k = VUndefined) \/
      (exists j, nth_error headers j = Some k /\
                 prop rowObj k = VNum (numericCell k (cellAt r j)) /\
                 (isBlank (cleanCell (cellAt r j)) = true ->
                  prop rowObj k = VNum Num.zero)).
Proof.
  intros Hin. unfold processRawRows in Hin.
  destruct (headerIndex rows) as [i|] eqn:E; [|contradiction].
  pose proof (dataRows_from (map headerName (nth i rows [])) (skipn (S i) rows)) as HF.
  rewrite Forall_forall in HF. destruct (HF _ Hin) as (r & Hr & _ & -> & _).
  exists i, r. split; [reflexivity|]. split; [assumption|].
  cbn zeta. set (headers := map headerName (nth i rows [])).
  intros k Hk.
  destruct (fillRow_prop k r headers 0 []) as [H1 H2].
  destruct (in_dec string_dec k headers) as [Hh|Hh].
  - right.
    assert (Hne : k <> "__proto__").
    { intros ->. simpl in Hk. intuition discriminate. }
    destruct (H2 Hh Hne) as (j & Hj & Hp). exists j. simpl in Hp.
    rewrite Hp, (coerce_numeric _ Hk). repeat split; [assumption|].
    intros Hb. unfold numericCell. now rewrite Hb.
  - left. split; [assumption|]. now rewrite (H1 (or_introl Hh)).
Qed.

Lemma numeric_columns_typed_witness :
  exists (i : nat) (r : row),
    headerIndex smallGrid = Some i /\
    In r (skipn (S i) smallGrid) /\
    let headers := map headerName (nth i smallGrid []) in
    forall k, In k numericFields ->
      (~ In k headers /\
       prop (fillRow ["Scheme Name"; "Current Value"] 0 [VStr "X"; VStr "4,500"] []) k
         = VUndefined) \/
      (exists j, nth_error headers j = Some k /\
                 prop (fillRow ["Scheme Name"; "Current Value"] 0 [VStr "X"; VStr "4,500"] []) k
                   = VNum (numericCell k (cellAt r j)) /\
                 (isBlank (cleanCell (cellAt r j)) = true ->
                  prop (fillRow ["Scheme Name"; "Current Value"] 0 [VStr "X"; VStr "4,500"] []) k
                    = VNum Num.zero)).
Proof.
  apply (@numeric_columns_typed smallGrid).
  vm_compute. left. reflexivity.
Defined.

(** C1, as stated, fails: a Units cell holding the text n/a is stored
    as NaN, and a row of a grid without an XIRR column has no XIRR. *)
Lemma unparseable_cell_is_NaN :
  map (fun o => prop o "Units") (processRawRows badGrid) = [VNum Num.NaN] /\
  Num.isFinite Num.NaN = false /\
  map (fun o => prop o "XIRR") (processRawRows badGrid) = [VUndefined].
Proof. vm_compute. repeat split. Qed.

(** The example of the specification: one holding, worth 4,500. *)
Example smallGrid_normalized :
  map (fun o => (prop o "Scheme Name", prop o "Current Value")) (processRawRows smallGrid)
  = [(VStr "X", VNum (Num.ofZ 4500))]
  /\ processRawRows titledGrid = processRawRows smallGrid
  /\ headerIndex titledGrid = Some 1%nat.
Proof. vm_compute. repeat split. Qed.

(** ** The pass over the working set *)

Lemma filter_filter_and (A : Type) (f g : A -> bool) (l : list A) :
  filter f (filter g l) = filter (fun x => g x && f x) l.
Proof.
  induction l as [|x l IH]; simpl; [reflexivity|].
  destruct (g x); simpl; [destruct (f x)|]; now rewrite IH.
Qed.

(** A loop that creates an entry on first use and then updates it. *)
Lemma fold_some (A V : Type) (step : V -> A -> V) (d : V) (l : list A) :
  forall v,
  fold_left (fun v x => Some (step (match v with Some a => a | None => d end) x)) l v =
  match l with
  | [] => v
  | _ :: _ => Some (fold_left step l (match v with Some a => a | None => d end))
  end.
Proof.
  induction l as [|x l IH]; intros v; simpl; [reflexivity|].
  rewrite IH. destruct l; reflexivity.
Qed.

Lemma accumulateXIRR_gstep cx it :
  accumulateXIRR cx it = gstep subCatKey updXirr cx it.
Proof.
  unfold accumulateXIRR, gstep, updXirr.
  destruct (Obj.get (subCatKey it) cx) as [a|] eqn:E.
  - rewrite E. destruct (xirrCounts it); [reflexivity|].
    symmetry. now apply ObjFacts.set_same.
  - rewrite ObjFacts.get_set_same.
    destruct (xirrCounts it); [|reflexivity].
    now rewrite ObjFacts.set_set.
Qed.

Lemma addToGroups_gstep sg it :
  addToGroups sg it = gstep catKey updSubs sg it.
Proof.
  unfold addToGroups, gstep at 1, updSubs, updGroup, gstep.
  destruct (Obj.get (catKey it) sg) as [subs|] eqn:E.
  - rewrite E. destruct (Obj.get (subCatKey it) subs) as [g|] eqn:E'.
    + now rewrite E'.
    + now rewrite ObjFacts.get_set_same, ObjFacts.set_set.
  - rewrite ObjFacts.get_set_same, ObjFacts.set_set. simpl.
    now rewrite String.eqb_refl.
Qed.

Lemma runPass_categoryXIRR l : forall st,
  categoryXIRR (fold_left passStep l st) =
  fold_left (gstep subCatKey updXirr) l (categoryXIRR st).
Proof.
  induction l as [|it l IH]; intros st; simpl; [reflexivity|].
  rewrite IH. simpl. now rewrite accumulateXIRR_gstep.
Qed.

Lemma runPass_smartGroups l : forall st,
  smartGroups (fold_left passStep l st) =
  fold_left (gstep catKey updSubs) l (smartGroups st).
Proof.
  induction l as [|it l IH]; intros st; simpl; [reflexivity|].
  rewrite IH. simpl. now rewrite addToGroups_gstep.
Qed.

Lemma runPass_lossMakers l : forall st,
  lossMakers (fold_left passStep l st) =
  (lossMakers st ++ filter (fun it => Num.lt (itemReturns it) Num.zero) l)%list.
Proof.
  induction l as [|it l IH]; intros st; simpl.
  - now rewrite app_nil_r.
  - rewrite IH. simpl. destruct (Num.lt (itemReturns it) Num.zero); [|reflexivity].
    now rewrite <- app_assoc.
Qed.

Lemma runPass_clutter l : forall st,
  clutter (fold_left passStep l st) = (clutter st ++ filter isClutter l)%list.
Proof.
  induction l as [|it l IH]; intros st; simpl.
  - now rewrite app_nil_r.
  - rewrite IH. simpl. unfold isClutter at 2.
    destruct (Num.lt (itemCurrent it) clutterLimit); [|reflexivity].
    now rewrite <- app_assoc.
Qed.

Lemma Forall_filter (A : Type) (P : A -> Prop) (f : A -> bool) (l : list A) :
  Forall P l -> Forall P (filter f l).
Proof.
  intros H. apply Forall_forall. intros x Hx. apply filter_In in Hx.
  rewrite Forall_forall in H. now apply H.
Qed.

(** The funds of a group are grouped by scheme name, as long as no
    scheme name is inherited. *)
Lemma funds_fold rows : forall g,
  Forall ordinaryScheme rows ->
  funds (fold_left addToGroup rows g) =
  fold_left (gstep schemeKey updFund) rows (funds g).
Proof.
  induction rows as [|it rows IH]; intros g Hos; simpl; [reflexivity|].
  inversion Hos as [|? ? Hit Hrows]; subst.
  rewrite IH by assumption. f_equal. unfold addToGroup, gstep, updFund. simpl.
  unfold ordinaryScheme in Hit. rewrite Hit.
  now destruct (Obj.get (schemeKey it) (funds g)).
Qed.

Lemma ordinaryScheme_groupRows (ws : list Item) (cat subCat : string) :
  Forall ordinaryScheme ws -> Forall ordinaryScheme (groupRows cat subCat ws).
Proof. apply Forall_filter. Qed.

(** The grouping the pass builds, entry by entry. *)
Lemma groupAt_spec (ws : list Item) (cat subCat : string) :
  groupAt (smartGroups (runPass ws)) cat subCat =
  match groupRows cat subCat ws with
  | [] => None
  | _ :: _ => Some (groupOf cat subCat ws)
  end.
Proof.
  unfold groupAt, runPass. rewrite runPass_smartGroups. simpl.
  rewrite ObjFacts.get_grouped. simpl.
  unfold updSubs. rewrite (fold_some (gstep subCatKey updGroup) []).
  unfold groupOf, groupRows, inGroup.
  rewrite <- (filter_filter_and (fun i => String.eqb (subCatKey i) subCat)
                                (fun i => String.eqb (catKey i) cat)).
  change (fun i => String.eqb (catKey i) cat) with (hasKey catKey cat).
  destruct (filter (hasKey catKey cat) ws) as [|x l]; [reflexivity|].
  rewrite ObjFacts.get_grouped. simpl Obj.get.
  unfold updGroup. rewrite (fold_some addToGroup emptyGroup).
  reflexivity.
Qed.

Lemma fold_updFund l : forall f,
  fold_left (fun v x => Some (updFund v x)) l (Some f) = Some (fold_left mergeFund l f).
Proof.
  induction l as [|x l IH]; intros f; simpl; [reflexivity|]. apply IH.
Qed.

Lemma fundAt_groupAt sg cat subCat scheme :
  fundAt sg cat subCat scheme =
  match groupAt sg cat subCat with
  | Some g => Obj.get scheme (funds g)
  | None => None
  end.
Proof.
  unfold fundAt, groupAt. destruct (Obj.get cat sg); reflexivity.
Qed.

Lemma funds_groupOf_get (ws : list Item) (cat subCat scheme : string) :
  Forall ordinaryScheme ws ->
  Obj.get scheme (funds (groupOf cat subCat ws)) =
  match schemeRows cat subCat scheme ws with
  | [] => None
  | first :: rest => Some (fold_left mergeFund rest (mkFund first 1))
  end.
Proof.
  intros Hos. unfold groupOf.
  rewrite funds_fold by now apply ordinaryScheme_groupRows.
  rewrite ObjFacts.get_grouped. simpl.
  unfold schemeRows.
  change (fun i => String.eqb (schemeKey i) scheme) with (hasKey schemeKey scheme).
  destruct (filter (hasKey schemeKey scheme) (groupRows cat subCat ws)) as [|x l];
    [reflexivity|].
  simpl. apply fold_updFund.
Qed.

Lemma fundAt_spec (ws : list Item) (cat subCat scheme : string) :
  Forall ordinaryScheme ws ->
  fundAt (smartGroups (runPass ws)) cat subCat scheme =
  match schemeRows cat subCat scheme ws with
  | [] => None
  | first :: rest => Some (fold_left mergeFund rest (mkFund first 1))
  end.
Proof.
  intros Hos. rewrite fundAt_groupAt, groupAt_spec.
  destruct (groupRows cat subCat ws) as [|x l] eqn:E.
  - unfold schemeRows. now rewrite E.
  - now apply funds_groupOf_get.
Qed.

(** Merging row after row gives the closed form. *)
Lemma mergeFund_closed (rest : list Item) : forall (f : Fund) (x : Item),
  fold_left mergeFund (x :: rest) f =
  let h := holding (item f) in
  let sum get := fold_left Num.add (map get (x :: rest)) (get (item f)) in
  {| item :=
       {| holding :=
            {| schemeName := schemeName h;
               category := category h;
               subCategory := subCategory h;
               amc := amc h;
               units := Some (sum itemUnits);
               investedValue := Some (sum itemInvested);
               currentValue := Some (sum itemCurrent);
               returns := Some (sum itemReturns);
               xirr := xirr h |};
          _currentNAV := _currentNAV (item f);
          _avgBuyNAV := _avgBuyNAV (item f);
          _absReturn := returnPct (sum itemCurrent) (sum itemInvested) |};
     count := S (List.length rest) + count f |}.
Proof.
  induction rest as [|y rest IH]; intros f x.
  - reflexivity.
  - change (fold_left mergeFund (x :: y :: rest) f)
      with (fold_left mergeFund (y :: rest) (mergeFund f x)).
    rewrite IH. cbn zeta. unfold mergeFund at 1 2 3 4 5 6 7 8 9 10 11 12 13.
    cbn [item holding schemeName category subCategory amc xirr count
         _currentNAV _avgBuyNAV]. 
    f_equal; try reflexivity; simpl; lia.
Qed.

Lemma mergeFund_merged (first : Item) (rest : list Item) :
  fold_left mergeFund rest (mkFund first 1) = mergedFund first rest.
Proof.
  destruct rest as [|x rest]; [reflexivity|].
  rewrite mergeFund_closed. unfold mergedFund, sumFrom. cbn zeta.
  cbn [item count]. f_equal; try reflexivity; simpl; lia.
Qed.

(** ** The grouping: categories, sub-categories, merged funds *)

Lemma ordinary_items (data : list Holding) (b : bool) :
  ordinaryData data = true ->
  Forall (fun i => ordinaryKeys i = true) (workingSet b (map processItem data)).
Proof.
  intros H. apply Forall_forall. intros i Hi.
  apply workingSet_incl, in_map_iff in Hi. destruct Hi as (h & <- & Hh).
  unfold ordinaryData in H. rewrite forallb_forall in H. now apply H.
Qed.

Lemma ordinary_schemes (data : list Holding) (b : bool) :
  ordinaryData data = true ->
  Forall ordinaryScheme (workingSet b (map processItem data)).
Proof.
  intros H. eapply Forall_impl; [|apply (@ordinary_items data b H)].
  intros i Hi. unfold ordinaryKeys in Hi. unfold ordinaryScheme.
  apply andb_true_iff in Hi. destruct Hi as [_ Hi]. now apply negb_true_iff in Hi.
Qed.

Section Grouping.
Variable ws : list Item.
Hypothesis Hos : Forall ordinaryScheme ws.

Let sg : obj (obj Group) := smartGroups (runPass ws).

Lemma sg_fold : sg = fold_left (gstep catKey updSubs) ws [].
Proof. unfold sg, runPass. now rewrite runPass_smartGroups. Qed.

Lemma sg_NoDup : NoDup (map fst sg).
Proof. rewrite sg_fold. apply ObjFacts.NoDup_grouped. constructor. Qed.

Lemma sg_entry cat subs :
  In (cat, subs) sg ->
  Obj.get cat sg = Some subs /\
  subs = fold_left (gstep subCatKey updGroup) (filter (hasKey catKey cat) ws) [] /\
  NoDup (map fst subs).
Proof.
  intros Hin. pose proof (ObjFacts.In_get _ _ _ sg_NoDup Hin) as Hget.
  split; [assumption|].
  rewrite sg_fold, ObjFacts.get_grouped in Hget. simpl in Hget.
  unfold updSubs in Hget. rewrite (fold_some (gstep subCatKey updGroup) []) in Hget.
  destruct (filter (hasKey catKey cat) ws) as [|x l]; [discriminate|].
  assert (Hs : subs = fold_left (gstep subCatKey updGroup) (x :: l) []) by congruence.
  split; [assumption|]. rewrite Hs.
  apply (ObjFacts.NoDup_grouped subCatKey updGroup (x :: l)). constructor.
Qed.

Lemma groupRows_filter cat subCat :
  groupRows cat subCat ws =
  filter (hasKey subCatKey subCat) (filter (hasKey catKey cat) ws).
Proof.
  unfold groupRows, inGroup, hasKey. now rewrite filter_filter_and.
Qed.

Lemma subs_entry cat subs subCat g :
  In (cat, subs) sg -> In (subCat, g) subs ->
  g = groupOf cat subCat ws /\ groupRows cat subCat ws <> [] /\
  groupAt sg cat subCat = Some g.
Proof.
  intros Hc Hs. destruct (sg_entry _ _ Hc) as (Hget & Hsubs & Hnd).
  pose proof (ObjFacts.In_get _ _ _ Hnd Hs) as Hg.
  assert (Hat : groupAt sg cat subCat = Some g).
  { unfold groupAt. now rewrite Hget. }
  pose proof Hat as Hat'. unfold sg in Hat'. rewrite groupAt_spec in Hat'.
  destruct (groupRows cat subCat ws) as [|x l] eqn:E; [discriminate|].
  injection Hat' as <-. repeat split; [discriminate|assumption].
Qed.

Lemma funds_groupOf cat subCat :
  funds (groupOf cat subCat ws) =
  fold_left (gstep schemeKey updFund) (groupRows cat subCat ws) [].
Proof. unfold groupOf. rewrite funds_fold; [reflexivity|]. now apply ordinaryScheme_groupRows. Qed.

Lemma funds_NoDup cat subCat : NoDup (map fst (funds (groupOf cat subCat ws))).
Proof. rewrite funds_groupOf. apply ObjFacts.NoDup_grouped. constructor. Qed.

Lemma funds_keys cat subCat scheme :
  In scheme (map fst (funds (groupOf cat subCat ws))) <->
  In scheme (map schemeKey (groupRows cat subCat ws)).
Proof.
  rewrite funds_groupOf, ObjFacts.keys_grouped. simpl. tauto.
Qed.

(** Every fund stored in a group is the merged fund of its scheme. *)
Lemma funds_entry cat subCat scheme f :
  In (scheme, f) (funds (groupOf cat subCat ws)) ->
  exists first rest,
    schemeRows cat subCat scheme ws = first :: rest /\
    f = mergedFund first rest /\
    fundAt sg cat subCat scheme = Some f.
Proof.
  intros Hin.
  pose proof (ObjFacts.In_get _ _ _ (funds_NoDup cat subCat) Hin) as Hget.
  pose proof Hget as Hget'. rewrite funds_groupOf_get in Hget' by assumption.
  destruct (schemeRows cat subCat scheme ws) as [|first rest] eqn:E; [discriminate|].
  injection Hget' as <-. exists first, rest.
  split; [reflexivity|]. split; [apply mergeFund_merged|].
  unfold sg. rewrite fundAt_spec, E by assumption. reflexivity.
Qed.

Lemma schemeRows_first cat subCat scheme first rest :
  schemeRows cat subCat scheme ws = first :: rest ->
  catKey first = cat /\ subCatKey first = subCat /\ schemeKey first = scheme /\
  In first ws.
Proof.
  intros E. assert (H : In first (schemeRows cat subCat scheme ws)).
  { rewrite E. now left. }
  unfold schemeRows, groupRows, inGroup in H.
  apply filter_In in H. destruct H as [H Hs]. apply filter_In in H.
  destruct H as [Hw Hg]. apply andb_true_iff in Hg. destruct Hg as [Hc Hsub].
  apply String.eqb_eq in Hs, Hc, Hsub. auto.
Qed.

End Grouping.

Lemma mergedFund_keys first rest :
  catKey (item (mergedFund first rest)) = catKey first /\
  subCatKey (item (mergedFund first rest)) = subCatKey first /\
  schemeKey (item (mergedFund first rest)) = schemeKey first /\
  xirr (holding (item (mergedFund first rest))) = xirr (holding first).
Proof. destruct rest; repeat split. Qed.

(** ** The category tree *)

Lemma tree_category (sg : obj (obj Group)) c :
  In c (buildCategoryTree sg) <-> exists e, In e sg /\ c = categoryOf e.
Proof.
  unfold buildCategoryTree. rewrite sortBy_In, in_map_iff. split.
  - intros (e & <- & He). exists e. split; [|reflexivity].
    eapply Permutation_in; [apply ObjFacts.entries_perm|exact He].
  - intros (e & He & ->). exists e. split; [reflexivity|].
    eapply Permutation_in; [symmetry; apply ObjFacts.entries_perm|exact He].
Qed.

Lemma tree_subCategory (e : string * obj Group) s :
  In s (subCategories (categoryOf e)) <-> exists e', In e' (snd e) /\ s = subCategoryOf e'.
Proof.
  unfold categoryOf. cbn [subCategories]. rewrite sortBy_In, in_map_iff. split.
  - intros (e' & <- & He). exists e'. split; [|reflexivity].
    eapply Permutation_in; [apply ObjFacts.entries_perm|exact He].
  - intros (e' & He & ->). exists e'. split; [reflexivity|].
    eapply Permutation_in; [symmetry; apply ObjFacts.entries_perm|exact He].
Qed.

Lemma tree_fund (e : string * Group) f :
  In f (subFunds (subCategoryOf e)) <-> exists scheme, In (scheme, f) (funds (snd e)).
Proof.
  unfold subCategoryOf. cbn [subFunds]. rewrite sortBy_In. unfold Obj.values.
  rewrite in_map_iff. split.
  - intros ([k v] & <- & He). exists k.
    eapply Permutation_in; [apply ObjFacts.entries_perm|exact He].
  - intros (k & He). exists (k, f). split; [reflexivity|].
    eapply Permutation_in; [symmetry; apply ObjFacts.entries_perm|exact He].
Qed.

(** The funds of the tree are the merged funds of the grouping. *)
Lemma tree_funds_merged (ws : list Item) c s f :
  Forall ordinaryScheme ws ->
  In c (buildCategoryTree (smartGroups (runPass ws))) ->
  In s (subCategories c) -> In f (subFunds s) ->
  exists first rest,
    schemeRows (catName c) (subName s) (schemeKey (item f)) ws = first :: rest /\
    f = mergedFund first rest /\
    fundAt (smartGroups (runPass ws)) (catName c) (subName s) (schemeKey (item f)) = Some f.
Proof.
  intros Hos Hc Hs Hf.
  apply tree_category in Hc. destruct Hc as ([cat subs] & Hc & ->).
  apply tree_subCategory in Hs. destruct Hs as ([subCat g] & Hs & ->).
  apply tree_fund in Hf. destruct Hf as (scheme & Hf). simpl in *.
  destruct (subs_entry _ _ _ _ _ Hc Hs) as (-> & _ & _).
  destruct (@funds_entry ws Hos _ _ _ _ Hf) as (first & rest & E & -> & Hat).
  destruct (schemeRows_first _ _ _ _ E) as (_ & _ & Hk & _).
  destruct (mergedFund_keys first rest) as (_ & _ & Hk' & _).
  rewrite Hk', Hk. exists first, rest. auto.
Qed.

(** C10 (amended). Rows that share category, sub-category and scheme
    name are merged into one fund, when no key of the holdings is
    inherited from [Object.prototype]: with more than one row its invested
    value, current value, returns and units are the sums over the rows and
    its return percentage is [(current - invested) / invested * 100] of
    the summed values (0 when the summed invested value is not above 0),
    while the names, the XIRR and the two NAV fields are those of the
    first row; so the consolidation ranks a merged fund by the XIRR of
    its first row. The funds of the category tree are these merged
    funds. *)
Theorem merged_fund_keeps_first_row
    (data : list Holding) (simulateCleanup : bool) (cat subCat scheme : string) :
  ordinaryData data = true ->
  let r := analysis data simulateCleanup in
  let ws := Result.processedData r in
  fundAt (smartGroups (runPass ws)) cat subCat scheme =
    match schemeRows cat subCat scheme ws with
    | [] => None
    | first :: rest => Some (mergedFund first rest)
    end /\
  (forall first rest,
     schemeRows cat subCat scheme ws = first :: rest ->
     rankKey (mergedFund first rest) =
       match xirr (holding first) with
       | Some x => if Num.truthy x then x else _absReturn (item (mergedFund first rest))
       | None => _absReturn (item (mergedFund first rest))
       end) /\
  Forall (fun c =>
    Forall (fun s =>
      Forall (fun f =>
        exists first rest,
          schemeRows (catName c) (subName s) (schemeKey (item f)) ws = first :: rest /\
          f = mergedFund first rest)
        (subFunds s))
      (subCategories c))
    (Result.categoryTree r).
Proof.
  intros Hord. cbn zeta. cbn [Result.processedData Result.categoryTree analysis].
  pose proof (@ordinary_schemes data simulateCleanup Hord) as Hos.
  set (ws := workingSet simulateCleanup (map processItem data)) in *.
  split; [|split].
  - rewrite fundAt_spec by assumption.
    destruct (schemeRows cat subCat scheme ws) as [|first rest]; [reflexivity|].
    now rewrite mergeFund_merged.
  - intros first rest _. unfold rankKey.
    destruct (mergedFund_keys first rest) as (_ & _ & _ & ->). reflexivity.
  - apply Forall_forall. intros c Hc. apply Forall_forall. intros s Hs.
    apply Forall_forall. intros f Hf.
    destruct (@tree_funds_merged ws c s f Hos Hc Hs Hf) as (first & rest & E & -> & _).
    exists first, rest. split; [assumption|reflexivity].
Qed.

Lemma merged_fund_keeps_first_row_witness :
  let r := analysis mergeData false in
  let ws := Result.processedData r in
  fundAt (smartGroups (runPass ws)) "Equity" "Large Cap" "A" =
    match schemeRows "Equity" "Large Cap" "A" ws with
    | [] => None
    | first :: rest => Some (mergedFund first rest)
    end /\
  (forall first rest,
     schemeRows "Equity" "Large Cap" "A" ws = first :: rest ->
     rankKey (mergedFund first rest) =
       match xirr (holding first) with
       | Some x => if Num.truthy x then x else _absReturn (item (mergedFund first rest))
       | None => _absReturn (item (mergedFund first rest))
       end) /\
  Forall (fun c =>
    Forall (fun s =>
      Forall (fun f =>
        exists first rest,
          schemeRows (catName c) (subName s) (schemeKey (item f)) ws = first :: rest /\
          f = mergedFund first rest)
        (subFunds s))
      (subCategories c))
    (Result.categoryTree r).
Proof.
  apply (@merged_fund_keeps_first_row mergeData false "Equity" "Large Cap" "A").
  reflexivity.
Defined.

(** C10, as stated, fails: two holdings of one group share the scheme
    name constructor, and no fund is stored for them; the sub-category
    is in the tree with no fund at all. *)
Lemma inherited_scheme_is_not_merged :
  let r := analysis constructorData false in
  let ws := Result.processedData r in
  map schemeKey (schemeRows "Equity" "Large Cap" "constructor" ws)
    = ["constructor"; "constructor"] /\
  fundAt (smartGroups (runPass ws)) "Equity" "Large Cap" "constructor" = None /\
  map (fun c => (catName c,
                 map (fun s => (subName s, fundCount s, subFunds s)) (subCategories c)))
      (Result.categoryTree r)
    = [("Equity", [("Large Cap", O, [])])].
Proof. vm_compute. repeat split. Qed.

(** The merged fund of the two rows of the scheme A: the sums, the
    return percentage of the sums, and the XIRR of the first row. *)
Example merged_fund_example :
  option_map
    (fun f => (count f,
               Num.toString (itemInvested (item f)), Num.toString (itemCurrent (item f)),
               Num.toString (itemReturns (item f)), Num.toString (itemUnits (item f)),
               Num.toString (_absReturn (item f)), option_map Num.toString (xirr (holding (item f)))))
    (fundAt (smartGroups (runPass (map processItem mergeData))) "Equity" "Large Cap" "A")
  = Some (2%nat, "24000", "30000", "6000", "30", "25", Some "10").
Proof. vm_compute. reflexivity. Qed.

(** ** Benchmark comparison *)

Lemma xirrCounts_present (it : Item) : xirrCounts it = xirrPresent it.
Proof.
  unfold xirrCounts, xirrPresent, orZero.
  destruct (xirr (holding it)) as [[[]|[]| |[] m e]|]; reflexivity.
Qed.

Lemma orZero_present (it : Item) :
  xirrPresent it = true -> orZero (xirr (holding it)) = toNumber (xirr (holding it)).
Proof.
  unfold xirrPresent, orZero, toNumber.
  destruct (xirr (holding it)) as [[[]|[]| |[] m e]|]; try discriminate; reflexivity.
Qed.

Lemma fold_updXirr (l : list Item) (v : option XirrAcc) :
  fold_left (fun v x => Some (updXirr v x)) l v =
  match l with
  | [] => v
  | _ :: _ => Some (fold_left accStep l (match v with Some a => a | None => zeroAcc end))
  end.
Proof. exact (fold_some accStep zeroAcc l v). Qed.

Lemma fold_accStep (l : list Item) : forall a,
  fold_left accStep l a =
  fold_left
    (fun a i =>
       mkXirrAcc (Num.add (sumProduct a) (Num.mul (toNumber (xirr (holding i))) (itemCurrent i)))
                 (Num.add (sumWeight a) (itemCurrent i)))
    (filter xirrPresent l) a.
Proof.
  induction l as [|it l IH]; intros a; [reflexivity|].
  change (fold_left accStep (it :: l) a) with (fold_left accStep l (accStep a it)).
  rewrite IH. cbn [filter]. unfold accStep, updXirr. rewrite xirrCounts_present.
  destruct (xirrPresent it) eqn:E; [|reflexivity].
  cbn [fold_left]. now rewrite (orZero_present it E).
Qed.

Lemma categoryXIRR_fold (ws : list Item) :
  categoryXIRR (runPass ws) = fold_left (gstep subCatKey updXirr) ws [].
Proof. unfold runPass. now rewrite runPass_categoryXIRR. Qed.

Lemma categoryXIRR_NoDup (ws : list Item) : NoDup (map fst (categoryXIRR (runPass ws))).
Proof. rewrite categoryXIRR_fold. apply ObjFacts.NoDup_grouped. constructor. Qed.

Lemma weightedRows_filter (subCat : string) (ws : list Item) :
  weightedRows subCat ws = filter xirrPresent (subCatRows subCat ws).
Proof. unfold weightedRows, subCatRows, hasKey. now rewrite filter_filter_and. Qed.

(** The accumulator the pass leaves for a sub-category. *)
Lemma categoryXIRR_get (ws : list Item) (subCat : string) :
  Obj.get subCat (categoryXIRR (runPass ws)) =
  match subCatRows subCat ws with
  | [] => None
  | _ :: _ => Some (weightedAcc subCat ws)
  end.
Proof.
  rewrite categoryXIRR_fold, ObjFacts.get_grouped. simpl Obj.get.
  rewrite fold_updXirr. unfold weightedAcc. rewrite weightedRows_filter.
  unfold subCatRows. destruct (filter (hasKey subCatKey subCat) ws); [reflexivity|].
  now rewrite fold_accStep.
Qed.

Lemma subCatRows_nonempty (ws : list Item) (subCat : string) :
  subCatRows subCat ws <> [] <-> In subCat (map subCatKey ws).
Proof.
  unfold subCatRows, hasKey. rewrite in_map_iff. split.
  - destruct (filter _ ws) as [|x l] eqn:E; [congruence|]. intros _.
    assert (H : In x (filter (fun x => String.eqb (subCatKey x) subCat) ws)).
    { rewrite E. now left. }
    apply filter_In in H. destruct H as [H1 H2]. apply String.eqb_eq in H2. eauto.
  - intros (x & Hk & Hx) E.
    assert (H : In x (filter (fun x => String.eqb (subCatKey x) subCat) ws)).
    { apply filter_In. split; [assumption|]. now apply String.eqb_eq. }
    rewrite E in H. contradiction.
Qed.

Lemma comparisonOf_In (e : string * XirrAcc) (c : Comparison) :
  In c (comparisonOf e) <->
  Num.gt (sumWeight (snd e)) Num.zero = true /\
  c = {| cmpCategory := fst e;
         myXIRR := Num.round2 (weightedXirr (snd e));
         benchXIRR := snd (bench (fst e));
         benchName := fst (bench (fst e));
         alpha := Num.round2 (Num.sub (weightedXirr (snd e)) (snd (bench (fst e))));
         weight := sumWeight (snd e) |}.
Proof.
  destruct e as [k a]. unfold comparisonOf, weightedXirr. simpl fst. simpl snd.
  destruct (Num.gt (sumWeight a) Num.zero); simpl.
  - split; [intros [<-|[]]; auto | intros [_ ->]; auto].
  - split; [tauto | intros [H _]; discriminate].
Qed.

Lemma buildComparison_In (cx : obj XirrAcc) (c : Comparison) :
  In c (buildComparison cx) <-> exists e, In e cx /\ In c (comparisonOf e).
Proof.
  unfold buildComparison. rewrite sortBy_In, in_flat_map. split.
  - intros (e & He & Hc). exists e. split; [|assumption].
    eapply Permutation_in; [apply ObjFacts.entries_perm|exact He].
  - intros (e & He & Hc). exists e. split; [|assumption].
    eapply Permutation_in; [symmetry; apply ObjFacts.entries_perm|exact He].
Qed.

Lemma comparison_categories_NoDup (l : obj XirrAcc) :
  NoDup (map fst l) -> NoDup (map cmpCategory (flat_map comparisonOf l)).
Proof.
  induction l as [|[k a] l IH]; simpl; intros Hnd; [constructor|].
  inversion Hnd as [|? ? Hni Hnd']; subst. specialize (IH Hnd').
  destruct (Num.gt (sumWeight a) Num.zero); simpl; [|assumption].
  constructor; [|assumption]. intros Hin. apply Hni.
  apply in_map_iff in Hin. destruct Hin as (c & Hc & Hin).
  apply in_flat_map in Hin. destruct Hin as (e & He & Hce).
  apply comparisonOf_In in Hce. destruct Hce as [_ ->]. simpl in Hc. subst k.
  now apply in_map.
Qed.

Lemma buildComparison_NoDup (cx : obj XirrAcc) :
  NoDup (map fst cx) -> NoDup (map cmpCategory (buildComparison cx)).
Proof.
  intros Hnd. unfold buildComparison.
  eapply Permutation_NoDup.
  - apply Permutation_map. symmetry. apply sortBy_perm.
  - apply comparison_categories_NoDup.
    eapply Permutation_NoDup; [|exact Hnd].
    apply Permutation_map. symmetry. apply ObjFacts.entries_perm.
Qed.

(** Every entry of the comparison, read off the rows of its sub-category. *)
Lemma comparison_entry (ws : list Item) (c : Comparison) :
  In c (buildComparison (categoryXIRR (runPass ws))) <->
  In (cmpCategory c) (map subCatKey ws) /\
  let a := weightedAcc (cmpCategory c) ws in
  Num.gt (sumWeight a) Num.zero = true /\
  c = {| cmpCategory := cmpCategory c;
         myXIRR := Num.round2 (weightedXirr a);
         benchXIRR := snd (bench (cmpCategory c));
         benchName := fst (bench (cmpCategory c));
         alpha := Num.round2 (Num.sub (weightedXirr a) (snd (bench (cmpCategory c))));
         weight := sumWeight a |}.
Proof.
  rewrite buildComparison_In. cbn zeta. split.
  - intros ([k a] & He & Hc). apply comparisonOf_In in Hc. simpl in Hc.
    destruct Hc as [Hw Hc].
    apply (ObjFacts.In_get _ _ _ (categoryXIRR_NoDup ws)) in He.
    rewrite categoryXIRR_get in He.
    assert (Hk : cmpCategory c = k) by now rewrite Hc.
    rewrite Hk.
    destruct (subCatRows k ws) as [|x l] eqn:E; [discriminate|].
    injection He as <-. split; [|split; [assumption|exact Hc]].
    apply subCatRows_nonempty. congruence.
  - intros (Hin & Hw & Hc). apply subCatRows_nonempty in Hin.
    exists (cmpCategory c, weightedAcc (cmpCategory c) ws). split.
    + apply ObjFacts.get_In. rewrite categoryXIRR_get.
      destruct (subCatRows (cmpCategory c) ws); [congruence|reflexivity].
    + apply comparisonOf_In. simpl. split; [assumption|exact Hc].
Qed.

(** C5 (amended). When no key of the holdings is inherited from
    [Object.prototype]: a holding enters the weighted XIRR of its
    sub-category exactly when its XIRR is a number other than NaN and
    zero (an infinite XIRR is not skipped); [sumProduct] and [sumWeight]
    are the sums of [xirr * currentValue] and [currentValue] over these
    holdings; the comparison has one entry, with
    [sumProduct / sumWeight] rounded to two decimals, for each
    sub-category of the working set whose [sumWeight] is positive, and no
    other entry. *)
Theorem weighted_xirr_accumulation
    (data : list Holding) (simulateCleanup : bool) (subCat : string) :
  ordinaryData data = true ->
  let r := analysis data simulateCleanup in
  let ws := Result.processedData r in
  (forall it, xirrCounts it = xirrPresent it) /\
  Obj.get subCat (categoryXIRR (runPass ws)) =
    match subCatRows subCat ws with
    | [] => None
    | _ :: _ => Some (weightedAcc subCat ws)
    end /\
  ((exists c, In c (Result.comparisonData r) /\ cmpCategory c = subCat) <->
   (In subCat (map subCatKey ws) /\
    Num.gt (sumWeight (weightedAcc subCat ws)) Num.zero = true)) /\
  NoDup (map cmpCategory (Result.comparisonData r)) /\
  Forall (fun c =>
            Obj.inherited (cmpCategory c) = false /\
            myXIRR c = Num.round2 (weightedXirr (weightedAcc (cmpCategory c) ws)) /\
            weight c = sumWeight (weightedAcc (cmpCategory c) ws))
         (Result.comparisonData r).
Proof.
  intros Hord. cbn zeta. cbn [Result.processedData Result.comparisonData analysis].
  pose proof (@ordinary_items data simulateCleanup Hord) as Hitems.
  set (ws := workingSet simulateCleanup (map processItem data)) in *.
  split; [apply xirrCounts_present|].
  split; [apply categoryXIRR_get|].
  split; [|split].
  - split.
    + intros (c & Hc & <-). apply comparison_entry in Hc.
      destruct Hc as (H1 & H2 & _). split; assumption.
    + intros (Hin & Hw).
      eexists {| cmpCategory := subCat |}. split; [|reflexivity].
      apply comparison_entry. cbn [cmpCategory]. cbn zeta.
      split; [assumption|]. split; [assumption|reflexivity].
  - apply buildComparison_NoDup, categoryXIRR_NoDup.
  - apply Forall_forall. intros c Hc. apply comparison_entry in Hc.
    destruct Hc as (Hin & _ & Hc).
    pose proof (f_equal myXIRR Hc) as Hm. pose proof (f_equal weight Hc) as Hw.
    cbn [myXIRR weight] in Hm, Hw. split; [|split; assumption].
    apply in_map_iff in Hin. destruct Hin as (it & <- & Hit).
    rewrite Forall_forall in Hitems. specialize (Hitems it Hit).
    unfold ordinaryKeys in Hitems.
    repeat (apply andb_true_iff in Hitems; destruct Hitems as [Hitems ?]).
    now apply negb_true_iff.
Qed.

Lemma weighted_xirr_accumulation_witness :
  let r := analysis SAMPLE_DATA false in
  let ws := Result.processedData r in
  (forall it, xirrCounts it = xirrPresent it) /\
  Obj.get "Large Cap" (categoryXIRR (runPass ws)) =
    match subCatRows "Large Cap" ws with
    | [] => None
    | _ :: _ => Some (weightedAcc "Large Cap" ws)
    end /\
  ((exists c, In c (Result.comparisonData r) /\ cmpCategory c = "Large Cap") <->
   (In "Large Cap" (map subCatKey ws) /\
    Num.gt (sumWeight (weightedAcc "Large Cap" ws)) Num.zero = true)) /\
  NoDup (map cmpCategory (Result.comparisonData r)) /\
  Forall (fun c =>
            Obj.inherited (cmpCategory c) = false /\
            myXIRR c = Num.round2 (weightedXirr (weightedAcc (cmpCategory c) ws)) /\
            weight c = sumWeight (weightedAcc (cmpCategory c) ws))
         (Result.comparisonData r).
Proof.
  apply (@weighted_xirr_accumulation SAMPLE_DATA false "Large Cap"). reflexivity.
Defined.

(** The weighted XIRR of the Large Cap holdings of the sample
    portfolio: four holdings, worth 156,000 together. *)
Example sample_weighted_xirr :
  map (fun c => (cmpCategory c, Num.toString (weight c), Num.toString (myXIRR c)))
      (filter (fun c => String.eqb (cmpCategory c) "Large Cap")
              (Result.comparisonData (analysis SAMPLE_DATA false)))
    = [("Large Cap", "156000", "12.21")].
Proof. vm_compute. reflexivity. Qed.

(** C5, as stated, fails: a holding whose XIRR reads Infinity is not
    skipped; its current value goes into [sumWeight] and its
    sub-category gets a comparison entry. *)
Lemma infinite_xirr_is_counted :
  map xirr (xirrData "Infinity") = [Some (Num.infinity false)] /\
  Num.isFinite (Num.infinity false) = false /\
  map xirrCounts (map processItem (xirrData "Infinity")) = [true] /\
  map (fun c => (cmpCategory c, weight c, myXIRR c))
      (Result.comparisonData (analysis (xirrData "Infinity") false))
    = [("Large Cap", Num.ofZ 1000, Num.infinity false)].
Proof. vm_compute. repeat split. Qed.



(** The example of the specification: an XIRR of 15.5 against 13.5. *)
Example alpha_example :
  map (fun c => (cmpCategory c, Num.toString (myXIRR c), Num.toString (benchXIRR c),
                 Num.toString (alpha c)))
      (Result.comparisonData (analysis (xirrData "15.5") false))
    = [("Large Cap", "15.5", "13.5", "2")].
Proof. vm_compute. reflexivity. Qed.

(** ** Consolidation plan *)

Lemma Permutation_filter (A : Type) (f : A -> bool) (l l' : list A) :
  Permutation l l' -> Permutation (filter f l) (filter f l').
Proof.
  induction 1 as [|x l l' H IH|x y l|l l' l'' H1 IH1 H2 IH2]; simpl.
  - constructor.
  - destruct (f x); [now constructor|assumption].
  - destruct (f x), (f y); try reflexivity. apply perm_swap.
  - now transitivity (filter f l').
Qed.

Lemma flat_map_map (A B C : Type) (g : A -> B) (f : B -> list C) (l : list A) :
  flat_map f (map g l) = flat_map (fun x => f (g x)) l.
Proof.
  induction l as [|x l IH]; simpl; [reflexivity|]. now rewrite IH.
Qed.

Lemma flat_map_pointwise_perm (A B : Type) (f g : A -> list B) (l : list A) :
  (forall x, Permutation (f x) (g x)) ->
  Permutation (flat_map f l) (flat_map g l).
Proof.
  intros H. induction l as [|x l IH]; simpl; [constructor|].
  now apply Permutation_app.
Qed.

Lemma filter_nil (A : Type) (f : A -> bool) (l : list A) :
  (forall x, In x l -> f x = false) -> filter f l = [].
Proof.
  induction l as [|x l IH]; simpl; intros H; [reflexivity|].
  rewrite (H x (or_introl eq_refl)). apply IH. intros y Hy. apply H. now right.
Qed.

(** Among the entries a dictionary gives rise to, those that can only
    come from the key [k0] come from its entry. *)
Lemma filter_at_key (V B : Type) (G : string * V -> list B) (P : B -> bool)
    (k0 : string) (l : obj V) :
  NoDup (map fst l) ->
  (forall k v b, In (k, v) l -> In b (G (k, v)) -> P b = true -> k = k0) ->
  filter P (flat_map G l) =
  match Obj.get k0 l with
  | Some v => filter P (G (k0, v))
  | None => []
  end.
Proof.
  induction l as [|[k v] l IH]; simpl; intros Hnd HG; [reflexivity|].
  inversion Hnd as [|? ? Hni Hnd']; subst.
  rewrite filter_app, IH; [|assumption|intros; eapply HG; eauto].
  destruct (String.eqb k0 k) eqn:E.
  - apply String.eqb_eq in E. subst k.
    apply ObjFacts.get_None in Hni. rewrite Hni. apply app_nil_r.
  - apply String.eqb_neq in E. rewrite filter_nil; [reflexivity|].
    intros b Hb. destruct (P b) eqn:EP; [|reflexivity].
    exfalso. apply E. symmetry. eapply HG; eauto.
Qed.

Lemma planOf_In (s : SubCategory) (p : Plan) :
  In p (planOf s) <->
  (2 <? fundCount s)%nat = true /\
  p = {| planCategory := subName s;
         winner := hd_error (sortBy byRank (subFunds s));
         others := tl (sortBy byRank (subFunds s));
         potentialMoveValue := sumCurrent (tl (sortBy byRank (subFunds s))) |}.
Proof.
  unfold planOf. destruct (2 <? fundCount s)%nat; simpl.
  - split; [intros [<-|[]]; auto | intros [_ ->]; auto].
  - split; [tauto | intros [H _]; discriminate].
Qed.

Lemma buildPlan_perm (sg : obj (obj Group)) :
  Permutation (buildPlan (buildCategoryTree sg)) (flat_map plansOfCategory sg).
Proof.
  unfold buildPlan, buildCategoryTree.
  rewrite sortBy_perm, ObjFacts.entries_perm, flat_map_map.
  apply flat_map_pointwise_perm. intros e.
  unfold categoryOf, plansOfCategory, plansOfGroup. cbn [subCategories].
  now rewrite sortBy_perm, ObjFacts.entries_perm, flat_map_map.
Qed.

Lemma length_values (V : Type) (o : obj V) :
  List.length (Obj.values o) = List.length (map fst o).
Proof.
  unfold Obj.values. rewrite !length_map.
  apply Permutation_length, ObjFacts.entries_perm.
Qed.

(** Numbers that are not NaN are ordered: [x >= y >= z] gives
    [x >= z]. *)
Lemma lt_false_trans (a b c : Num.num) :
  Num.isNaN a = false -> Num.isNaN b = false -> Num.isNaN c = false ->
  Num.lt a b = false -> Num.lt b c = false -> Num.lt a c = false.
Proof.
  unfold Num.lt, SFltb.
  destruct a as [[]|[]| |[] ma ea], b as [[]|[]| |[] mb eb], c as [[]|[]| |[] mc ec];
    cbn [SFcompare Num.isNaN]; intros Ha Hb Hc;
    try discriminate; clear Ha Hb Hc; try reflexivity; try (intros; reflexivity);
    try (intros; discriminate);
    change (Pos.compare_cont Eq) with Pos.compare;
    repeat match goal with
           | |- context [Z.compare ?x ?y] => destruct (Z.compare_spec x y)
           end;
    try (intros; reflexivity); try (intros; discriminate); try lia; subst;
    repeat match goal with
           | |- context [Pos.compare ?x ?y] => destruct (Pos.compare_spec x y)
           end;
    try (intros; reflexivity); try (intros; discriminate); try lia.
Qed.

Lemma sorted_strongly (A : Type) (R : A -> A -> Prop) (P : A -> Prop) (l : list A) :
  (forall a b c, P a -> P b -> P c -> R a b -> R b c -> R a c) ->
  Sorted R l -> Forall P l -> StronglySorted R l.
Proof.
  intros Ht. induction 1 as [|a l Hs IH Hhd]; intros Hp; [constructor|].
  inversion Hp as [|? ? Ha Hl]; subst. specialize (IH Hl).
  constructor; [assumption|].
  destruct Hhd as [|b l' Hab]; [constructor|].
  inversion IH as [|? ? _ Hb]; subst. inversion Hl as [|? ? Pb Pl]; subst.
  constructor; [assumption|].
  rewrite Forall_forall in Hb, Pl |- *. intros c Hc.
  apply (Ht a b c); auto.
Qed.

(** The key of the comparator is the ranking key. *)
Lemma rankKey_spec (f : Fund) : rankKey f = rankingKey f.
Proof.
  unfold rankKey, rankingKey, Num.truthy.
  destruct (xirr (holding (item f))) as [x|]; [|reflexivity].
  now destruct (Num.isZero x || Num.isNaN x).
Qed.

(** On canonical keys the comparator orders as the keys do. *)
Lemma ranked_keys_descend (l : list Fund) :
  Sorted rankedBefore l ->
  Forall (fun f => canonical (rankKey f) = true) l ->
  Sorted keyNotBelow l.
Proof.
  induction 1 as [|a l Hs IH Hhd]; intros HF; constructor.
  - apply IH. now inversion HF.
  - destruct Hhd as [|b l Hab]; constructor.
    inversion HF as [|? ? Va HF']; subst. inversion HF' as [|? ? Vb _]; subst.
    unfold keyNotBelow. rewrite <- !rankKey_spec.
    destruct (Num.lt (rankKey a) (rankKey b)) eqn:E; [|reflexivity].
    apply (sub_pos _ _ Va Vb) in E. unfold rankedBefore, byRank in Hab. congruence.
Qed.

Section Plans.
Variable ws : list Item.
Hypothesis Hos : Forall ordinaryScheme ws.

Let sg : obj (obj Group) := smartGroups (runPass ws).

Lemma fundCount_distinct cat subCat :
  fundCount (subCategoryOf (subCat, groupOf cat subCat ws)) = distinctSchemes cat subCat ws.
Proof.
  unfold subCategoryOf, distinctSchemes. cbn [fundCount snd].
  rewrite sortBy_length, length_values.
  apply Permutation_length, NoDup_Permutation.
  - now apply funds_NoDup.
  - apply NoDup_nodup.
  - intros k. rewrite nodup_In. now apply funds_keys.
Qed.

Lemma funds_schemes_NoDup cat subCat :
  NoDup (map (fun f => schemeKey (item f)) (Obj.values (funds (groupOf cat subCat ws)))).
Proof.
  unfold Obj.values. rewrite map_map.
  rewrite (map_ext_in _ fst).
  - eapply Permutation_NoDup; [|apply (@funds_NoDup ws Hos cat subCat)].
    apply Permutation_map. symmetry. apply ObjFacts.entries_perm.
  - intros [scheme f] Hin. cbn [fst snd].
    eapply Permutation_in in Hin; [|apply ObjFacts.entries_perm].
    destruct (@funds_entry ws Hos _ _ _ _ Hin) as (first & rest & E & -> & _).
    destruct (schemeRows_first _ _ _ _ E) as (_ & _ & Hk & _).
    destruct (mergedFund_keys first rest) as (_ & _ & -> & _). exact Hk.
Qed.

Lemma byRank_antisym (a b : Fund) :
  Num.gt (byRank b a) Num.zero = true -> Num.gt (byRank a b) Num.zero = false.
Proof. unfold byRank. apply sub_antisym. Qed.

Lemma rankedFunds_sorted cat subCat : Sorted rankedBefore (rankedFunds cat subCat ws).
Proof.
  unfold rankedFunds. apply (sortBy_sorted_antisym byRank). exact byRank_antisym.
Qed.

Lemma rankedFunds_length cat subCat :
  List.length (rankedFunds cat subCat ws) = distinctSchemes cat subCat ws.
Proof.
  unfold rankedFunds. rewrite sortBy_length, <- fundCount_distinct. reflexivity.
Qed.

(** The ranked funds of a group are its merged funds. *)
Lemma rankedFunds_In cat subCat f :
  groupRows cat subCat ws <> [] ->
  (In f (rankedFunds cat subCat ws) <->
   exists scheme, fundAt sg cat subCat scheme = Some f).
Proof.
  intros Hne. unfold rankedFunds. rewrite sortBy_In, tree_fund. cbn [snd].
  split.
  - intros (scheme & Hin). exists scheme.
    destruct (@funds_entry ws Hos _ _ _ _ Hin) as (first & rest & _ & _ & H). exact H.
  - intros (scheme & Hat). exists scheme.
    unfold sg in Hat. rewrite fundAt_groupAt, groupAt_spec in Hat.
    destruct (groupRows cat subCat ws); [discriminate|].
    now apply ObjFacts.get_In.
Qed.

Lemma rankedFunds_cat cat subCat f :
  In f (rankedFunds cat subCat ws) ->
  catKey (item f) = cat /\ subCatKey (item f) = subCat.
Proof.
  unfold rankedFunds. rewrite sortBy_In, tree_fund. cbn [snd].
  intros (scheme & Hin).
  destruct (@funds_entry ws Hos _ _ _ _ Hin) as (first & rest & E & -> & _).
  destruct (schemeRows_first _ _ _ _ E) as (Hc & Hs & _ & _).
  destruct (mergedFund_keys first rest) as (-> & -> & _ & _). auto.
Qed.

Lemma plansOfGroup_In cat subCat p :
  In p (plansOfGroup (subCat, groupOf cat subCat ws)) <->
  (2 <? distinctSchemes cat subCat ws)%nat = true /\ p = groupPlan cat subCat ws.
Proof.
  unfold plansOfGroup. rewrite planOf_In, fundCount_distinct. reflexivity.
Qed.

Lemma plansOfGroup_eq cat subCat :
  plansOfGroup (subCat, groupOf cat subCat ws) =
  if (2 <? distinctSchemes cat subCat ws)%nat then [groupPlan cat subCat ws] else [].
Proof.
  unfold plansOfGroup, planOf. now rewrite fundCount_distinct.
Qed.

Lemma groupPlan_winner cat subCat :
  (2 <? distinctSchemes cat subCat ws)%nat = true ->
  exists w, rankedFunds cat subCat ws = w :: others (groupPlan cat subCat ws) /\
            winner (groupPlan cat subCat ws) = Some w /\
            catKey (item w) = cat.
Proof.
  intros Hn. apply Nat.ltb_lt in Hn. rewrite <- rankedFunds_length in Hn.
  unfold groupPlan. cbn [winner others].
  destruct (rankedFunds cat subCat ws) as [|w l] eqn:E; [simpl in Hn; lia|].
  exists w. repeat split.
  apply (rankedFunds_cat cat subCat). rewrite E. now left.
Qed.

Lemma groupPlan_planFor cat subCat :
  (2 <? distinctSchemes cat subCat ws)%nat = true ->
  planFor cat subCat (groupPlan cat subCat ws) = true.
Proof.
  intros Hn. destruct (groupPlan_winner _ _ Hn) as (w & _ & Hw & Hc).
  unfold planFor. rewrite Hw, Hc. cbn [planCategory groupPlan].
  now rewrite !String.eqb_refl.
Qed.

(** A plan entry carries the keys of the group it stems from. *)
Lemma plansOfCategory_keys cat subs p cat' subCat' :
  In (cat, subs) sg -> In p (plansOfCategory (cat, subs)) ->
  planFor cat' subCat' p = true -> cat = cat'.
Proof.
  intros Hc Hp HP. unfold plansOfCategory in Hp. cbn [snd] in Hp.
  apply in_flat_map in Hp. destruct Hp as ([subCat g] & Hs & Hp).
  destruct (subs_entry _ _ _ _ _ Hc Hs) as (-> & _ & _).
  apply plansOfGroup_In in Hp. destruct Hp as [Hn ->].
  destruct (groupPlan_winner _ _ Hn) as (w & _ & Hw & Hk).
  unfold planFor in HP. rewrite Hw in HP.
  apply andb_true_iff in HP. destruct HP as [_ HP].
  apply String.eqb_eq in HP. congruence.
Qed.

Lemma plansOfGroup_keys (e : string * Group) p cat' subCat' :
  In p (plansOfGroup e) -> planFor cat' subCat' p = true -> fst e = subCat'.
Proof.
  unfold plansOfGroup. rewrite planOf_In. intros [_ ->] HP.
  unfold planFor in HP. cbn [planCategory] in HP.
  apply andb_true_iff in HP. destruct HP as [HP _].
  now apply String.eqb_eq in HP.
Qed.

(** The entries of the plan that stem from one group. *)
Lemma plan_of_group cat subCat :
  Permutation
    (filter (planFor cat subCat) (buildPlan (buildCategoryTree sg)))
    (if (2 <? distinctSchemes cat subCat ws)%nat then [groupPlan cat subCat ws] else []).
Proof.
  rewrite (Permutation_filter _ (buildPlan_perm sg)).
  rewrite (@filter_at_key _ _ plansOfCategory (planFor cat subCat) cat sg);
    [|apply sg_NoDup|intros k v b; apply plansOfCategory_keys].
  destruct (Obj.get cat sg) as [subs|] eqn:Ec.
  - pose proof (ObjFacts.get_In _ _ Ec) as Hc.
    destruct (sg_entry _ _ _ Hc) as (_ & _ & Hnd).
    unfold plansOfCategory. cbn [snd].
    rewrite (@filter_at_key _ _ plansOfGroup (planFor cat subCat) subCat subs);
      [|assumption|intros k v b _; apply (plansOfGroup_keys (k, v))].
    destruct (Obj.get subCat subs) as [g|] eqn:Es.
    + pose proof (ObjFacts.get_In _ _ Es) as Hs.
      destruct (subs_entry _ _ _ _ _ Hc Hs) as (-> & _ & _).
      rewrite plansOfGroup_eq.
      destruct (2 <? distinctSchemes cat subCat ws)%nat eqn:En; [|reflexivity].
      cbn [filter]. now rewrite (groupPlan_planFor _ _ En).
    + assert (Hat : groupAt sg cat subCat = None).
      { unfold groupAt. now rewrite Ec. }
      unfold sg in Hat. rewrite groupAt_spec in Hat.
      unfold distinctSchemes.
      destruct (groupRows cat subCat ws); [reflexivity|discriminate].
  - assert (Hat : groupAt sg cat subCat = None).
    { unfold groupAt. now rewrite Ec. }
    unfold sg in Hat. rewrite groupAt_spec in Hat.
    unfold distinctSchemes.
    destruct (groupRows cat subCat ws); [reflexivity|discriminate].
Qed.

Lemma plan_entries_have_winner :
  Forall (fun p => exists w, winner p = Some w /\
                             planFor (catKey (item w)) (planCategory p) p = true)
         (buildPlan (buildCategoryTree sg)).
Proof.
  apply Forall_forall. intros p Hp.
  eapply Permutation_in in Hp; [|apply buildPlan_perm].
  apply in_flat_map in Hp. destruct Hp as ([cat subs] & Hc & Hp).
  unfold plansOfCategory in Hp. cbn [snd] in Hp.
  apply in_flat_map in Hp. destruct Hp as ([subCat g] & Hs & Hp).
  destruct (subs_entry _ _ _ _ _ Hc Hs) as (-> & _ & _).
  apply plansOfGroup_In in Hp. destruct Hp as [Hn ->].
  destruct (groupPlan_winner _ _ Hn) as (w & _ & Hw & Hk).
  exists w. split; [assumption|]. rewrite Hk.
  now apply groupPlan_planFor.
Qed.

End Plans.

Lemma ranked_strongly (l : list Fund) :
  Sorted rankedBefore l ->
  Forall (fun f => properNumber (rankingKey f) = true) l ->
  StronglySorted keyNotBelow l.
Proof.
  intros Hs Hp.
  assert (Hc : Forall (fun f => canonical (rankKey f) = true) l).
  { eapply Forall_impl; [|exact Hp]. intros f Hf. rewrite rankKey_spec.
    unfold properNumber in Hf. now apply andb_true_iff in Hf. }
  apply (sorted_strongly (P := fun f => Num.isNaN (rankingKey f) = false)).
  - intros a b c Na Nb Nc. unfold keyNotBelow. now apply lt_false_trans.
  - now apply ranked_keys_descend.
  - eapply Forall_impl; [|exact Hp]. intros f Hf.
    unfold properNumber in Hf. apply andb_true_iff in Hf.
    destruct Hf as [_ Hf]. now apply negb_true_iff in Hf.
Qed.

Lemma sumCurrent_fold (l : list Fund) :
  sumCurrent l =
  fold_left Num.add (map (fun f => toNumber (currentValue (holding (item f)))) l) Num.zero.
Proof.
  unfold sumCurrent. generalize Num.zero.
  induction l as [|f l IH]; intros a; simpl; [reflexivity|]. apply IH.
Qed.

(** C4 (amended). When no key of the holdings is inherited from
    [Object.prototype]: for every category/sub-category group the plan
    has one entry when the group holds more than two distinct schemes and
    none otherwise, and every entry of the plan is the entry of a group.
    In the entry of a group the winner and the others are the merged
    funds of the group, each once, so the others number one less than the
    distinct schemes, and [potentialMoveValue] is the sum of the current
    values of the others. When the ranking keys [XIRR || _absReturn] of
    these funds are numbers (none is NaN), the winner is top-ranked, no
    other fund has a key above its key, and the funds stand in descending
    order of their keys. *)
Theorem consolidation_plan
    (data : list Holding) (simulateCleanup : bool) (cat subCat : string) :
  ordinaryData data = true ->
  let r := analysis data simulateCleanup in
  let ws := Result.processedData r in
  let plan := Result.consolidationPlan r in
  let n := distinctSchemes cat subCat ws in
  List.length (filter (planFor cat subCat) plan) = (if (2 <? n)%nat then 1 else 0)%nat /\
  Forall (fun p => exists w, winner p = Some w /\
                             planFor (catKey (item w)) (planCategory p) p = true) plan /\
  Forall (fun p =>
            planFor cat subCat p = true ->
            exists w,
              winner p = Some w /\
              List.length (others p) = (n - 1)%nat /\
              NoDup (map (fun f => schemeKey (item f)) (w :: others p)) /\
              (forall f, In f (w :: others p) <->
                         exists scheme,
                           fundAt (smartGroups (runPass ws)) cat subCat scheme = Some f) /\
              potentialMoveValue p =
                fold_left Num.add
                  (map (fun f => toNumber (currentValue (holding (item f)))) (others p))
                  Num.zero /\
              (Forall (fun f => properNumber (rankingKey f) = true) (w :: others p) ->
               Forall (fun f => Num.lt (rankingKey w) (rankingKey f) = false) (others p) /\
               StronglySorted keyNotBelow (w :: others p)))
         plan.
Proof.
  intros Hord. cbn zeta. cbn [Result.processedData Result.consolidationPlan analysis].
  pose proof (@ordinary_schemes data simulateCleanup Hord) as Hos.
  set (ws := workingSet simulateCleanup (map processItem data)) in *.
  pose proof (plan_of_group Hos cat subCat) as Hperm.
  split; [|split].
  - rewrite (Permutation_length Hperm).
    now destruct (2 <? distinctSchemes cat subCat ws)%nat.
  - now apply plan_entries_have_winner.
  - apply Forall_forall. intros p Hp HP.
    assert (Hin : In p (filter (planFor cat subCat)
                          (buildPlan (buildCategoryTree (smartGroups (runPass ws)))))).
    { apply filter_In. now split. }
    eapply Permutation_in in Hin; [|exact Hperm].
    destruct (2 <? distinctSchemes cat subCat ws)%nat eqn:En; [|contradiction].
    destruct Hin as [<-|[]].
    destruct (groupPlan_winner Hos _ _ En) as (w & Hr & Hw & _).
    exists w. split; [assumption|].
    pose proof (rankedFunds_length Hos cat subCat) as Hlen.
    assert (Hne : groupRows cat subCat ws <> []).
    { intros E. unfold distinctSchemes in En. rewrite E in En. discriminate. }
    rewrite <- Hr. split; [|split; [|split; [|split]]].
    + assert (H : List.length (w :: others (groupPlan cat subCat ws))
                  = distinctSchemes cat subCat ws) by (rewrite <- Hr; exact Hlen).
      change (S (List.length (others (groupPlan cat subCat ws)))
              = distinctSchemes cat subCat ws) in H.
      lia.
    + unfold rankedFunds.
      eapply Permutation_NoDup; [apply Permutation_map; symmetry; apply sortBy_perm|].
      unfold subCategoryOf. cbn [subFunds snd].
      eapply Permutation_NoDup; [apply Permutation_map; symmetry; apply sortBy_perm|].
      now apply funds_schemes_NoDup.
    + intros f. now apply rankedFunds_In.
    + cbn [potentialMoveValue groupPlan]. apply sumCurrent_fold.
    + intros Hp'. rewrite Hr in Hp' |- *.
      pose proof (rankedFunds_sorted ws cat subCat) as Hs. rewrite Hr in Hs.
      pose proof (ranked_strongly Hs Hp') as Hss.
      split; [|exact Hss]. now inversion Hss.
Qed.

Lemma consolidation_plan_witness :
  let r := analysis threeFunds false in
  let ws := Result.processedData r in
  let plan := Result.consolidationPlan r in
  let n := distinctSchemes "Equity" "Large Cap" ws in
  List.length (filter (planFor "Equity" "Large Cap") plan)
    = (if (2 <? n)%nat then 1 else 0)%nat /\
  Forall (fun p => exists w, winner p = Some w /\
                             planFor (catKey (item w)) (planCategory p) p = true) plan /\
  Forall (fun p =>
            planFor "Equity" "Large Cap" p = true ->
            exists w,
              winner p = Some w /\
              List.length (others p) = (n - 1)%nat /\
              NoDup (map (fun f => schemeKey (item f)) (w :: others p)) /\
              (forall f, In f (w :: others p) <->
                         exists scheme,
                           fundAt (smartGroups (runPass ws)) "Equity" "Large Cap" scheme
                             = Some f) /\
              potentialMoveValue p =
                fold_left Num.add
                  (map (fun f => toNumber (currentValue (holding (item f)))) (others p))
                  Num.zero /\
              (Forall (fun f => properNumber (rankingKey f) = true) (w :: others p) ->
               Forall (fun f => Num.lt (rankingKey w) (rankingKey f) = false) (others p) /\
               StronglySorted keyNotBelow (w :: others p)))
         plan.
Proof.
  apply (@consolidation_plan threeFunds false "Equity" "Large Cap").
  reflexivity.
Defined.

(** C4, as stated, fails: of three funds with the ranking keys 1,
    NaN and 3 the fund with the key 1 is the winner, though the key of
    another fund is above it. Every comparison with the NaN key leaves
    the order as it is. *)
Lemma nan_key_hides_the_top_fund :
  map (fun p =>
         (option_map (fun w => (schemeName (holding (item w)), rankingKey w)) (winner p),
          map (fun f => (schemeName (holding (item f)), rankingKey f)) (others p)))
      (Result.consolidationPlan (analysis nanKeyData false))
    = [(Some (VStr "A", Num.ofZ 1), [(VStr "B", Num.NaN); (VStr "C", Num.ofZ 3)])] /\
  Num.lt (Num.ofZ 1) (Num.ofZ 3) = true /\
  ordinaryData nanKeyData = true.
Proof. vm_compute. repeat split. Qed.

(** ** Worked examples *)

(** The example of the specification: XIRRs 10, 30 and 20 in one
    sub-category; the fund with 30 wins and the two others, worth
    10,000 each, are the merge candidates. A sub-category with a single
    scheme gives no entry. *)
Example consolidation_example :
  map (fun p => (planCategory p,
                 option_map (fun w => schemeName (holding (item w))) (winner p),
                 map (fun f => schemeName (holding (item f))) (others p),
                 Num.toString (potentialMoveValue p)))
      (Result.consolidationPlan (analysis threeFunds false))
    = [("Large Cap", Some (VStr "B"), [VStr "C"; VStr "A"], "20000")]
  /\ Result.consolidationPlan (analysis (firstn 2 threeFunds) false) = []
  /\ forallb (fun p => forallb (fun f => canonical (rankKey f)) (others p))
              (Result.consolidationPlan (analysis threeFunds false)) = true.
Proof. vm_compute. repeat split. Qed.

(** The example of the specification: the holding worth 4,500 is
    clutter, with the simulation on or off. *)
Example clutter_example :
  clutterCount (Result.simStats (analysis smallData true)) = 1%nat /\
  clutterCount (Result.simStats (analysis smallData false)) = 1%nat /\
  List.length (Result.clutter (analysis smallData false)) = 1%nat.
Proof. vm_compute. repeat split. Qed.

(** The health score over [Q] is the score binary64 arithmetic gives:
    checked for every count of clutter and of loss-makers up to 12 (both
    penalties are capped from 10 on) and sizes on each side of the two
    thresholds. *)
Example health_score_matches_binary64 :
  forallb (fun c =>
    forallb (fun l =>
      forallb (fun n =>
                 Num.same (healthScoreNum c l n) (Num.ofZ (healthScoreOf c l n)))
              [0; 20; 21; 40; 41]%nat)
      (seq 0 13))
    (seq 0 13) = true.
Proof. vm_compute. reflexivity. Qed.

(** ** The cleanup simulation *)

Lemma cleaned_has_no_clutter (l : list Item) :
  filter isClutter (workingSet true l) = [].
Proof.
  apply filter_nil. intros i Hi. simpl in Hi. apply filter_In in Hi.
  destruct Hi as [_ Hge]. unfold isClutter. now apply ge_not_lt.
Qed.

(** C6. The health score follows the formula of the specification,
    100 minus [min(20, 2 * clutter)], minus [min(15, 1.5 * lossMakers)],
    minus 10 above 20 holdings and 10 more above 40, clamped to [0, 100]
    and rounded, on the loss-makers and the size of the working set and
    on the clutter count of the original list. With the simulation off
    that is the clutter count of the working set, and the score is the
    one the specification gives. With the simulation on the working set
    holds no clutter, and the score still pays for the clutter that was
    removed: on a single holding worth 4,500 it is 98, where the formula
    on the working set gives 100. The score is an integer between 0 and
    100 in every case, and with no clutter in the original list, no
    loss-maker and at most 20 holdings it is 100, labelled Excellent. *)
Theorem health_score_formula (data : list Holding) (simulateCleanup : bool) :
  (let r := analysis data simulateCleanup in
   let ws := Result.processedData r in
   let originalClutter := List.length (filter isClutter (map processItem data)) in
   let clutterCount := List.length (filter isClutter ws) in
   let lossMakerCount :=
     List.length (filter (fun it => Num.lt (itemReturns it) Num.zero) ws) in
   let size := List.length ws in
   Result.score r = healthScoreSpec originalClutter lossMakerCount size /\
   (simulateCleanup = false ->
    Result.score r = healthScoreSpec clutterCount lossMakerCount size) /\
   (simulateCleanup = true -> clutterCount = O) /\
   0 <= Result.score r <= 100 /\
   Result.label r = healthLabel (Result.score r) /\
   (originalClutter = O -> lossMakerCount = O -> (size <= 20)%nat ->
    Result.score r = 100 /\ Result.label r = "Excellent")) /\
  (let r := analysis smallData true in
   let ws := Result.processedData r in
   ws = [] /\
   Result.score r = 98 /\
   healthScoreSpec (List.length (filter isClutter ws))
                   (List.length (filter (fun it => Num.lt (itemReturns it) Num.zero) ws))
                   (List.length ws) = 100).
Proof.
  split; [|vm_compute; repeat split].
  cbn zeta. cbn [Result.score Result.label Result.processedData analysis].
  unfold runPass. rewrite runPass_lossMakers. cbn [emptyPass lossMakers app].
  set (ws := workingSet simulateCleanup (map processItem data)).
  set (c := List.length (filter isClutter (map processItem data))).
  set (l := List.length (filter _ ws)).
  set (n := List.length ws).
  pose proof (halves_range c l n) as R.
  rewrite healthScoreSpec_halves, healthScoreOf_halves.
  split; [reflexivity|]. split; [|split; [|split; [|split; [reflexivity|]]]].
  - intros E. unfold c, ws. rewrite E. cbn [workingSet].
    now rewrite healthScoreSpec_halves.
  - intros E. unfold ws. rewrite E. now rewrite cleaned_has_no_clutter.
  - split; [apply Z.div_pos; lia|].
    apply Z.lt_succ_r, Z.div_lt_upper_bound; lia.
  - intros Hc Hl Hn. unfold halves. rewrite Hc, Hl.
    destruct (Nat.ltb_spec 20 n); [lia|]. destruct (Nat.ltb_spec 40 n); [lia|].
    split; reflexivity.
Qed.

(** C2. With [simulateCleanup] on, the loss-makers, the clutter list
    and the size that enter the result are those of the working set, which
    holds no clutter at all, but the clutter penalty of the health score
    still counts the clutter of the original list: on a single holding
    worth 4,500 the working set is empty and the score is 98, not 100. *)
Theorem cleanup_score_counts_removed_clutter :
  (forall data,
     let r := analysis data true in
     let original := map processItem data in
     let ws := workingSet true original in
     Result.processedData r = ws /\
     Result.lossMakers r = filter (fun it => Num.lt (itemReturns it) Num.zero) ws /\
     Result.clutter r = filter isClutter ws /\
     Result.clutter r = [] /\
     Result.score r =
       healthScoreOf (List.length (filter isClutter original))
                     (List.length (Result.lossMakers r))
                     (List.length ws)) /\
  (let r := analysis smallData true in
   Result.processedData r = [] /\
   Result.clutter r = [] /\
   Result.lossMakers r = [] /\
   Result.score r = 98 /\
   healthScoreOf (List.length (Result.clutter r))
                 (List.length (Result.lossMakers r))
                 (List.length (Result.processedData r)) = 100).
Proof.
  split.
  - intros data. cbn zeta.
    cbn [Result.processedData Result.lossMakers Result.clutter Result.score analysis].
    unfold runPass. rewrite runPass_lossMakers, runPass_clutter.
    cbn [emptyPass lossMakers clutter app].
    rewrite cleaned_has_no_clutter. repeat split.
  - vm_compute. repeat split.
Qed.

(* ================================================================== *)
(** * Part III. Further properties of the code                         *)
(* ================================================================== *)

(** ** The CSV reader *)

Module CsvFacts.
Import Csv.

Lemma append_nil (s : string) : s ++ "" = s.
Proof. induction s; simpl; congruence. Qed.

Lemma append_assoc (a b c : string) : (a ++ b) ++ c = a ++ (b ++ c).
Proof. induction a; simpl; congruence. Qed.

Lemma removeChar_app c (a b : string) :
  Str.removeChar c (a ++ b) = Str.removeChar c a ++ Str.removeChar c b.
Proof.
  induction a as [|d a IH]; simpl; [reflexivity|].
  destruct (Ascii.eqb c d); simpl; congruence.
Qed.

Lemma join_snoc sep (l : list string) (a b : string) :
  join sep ((l ++ [a]) ++ [b]) = join sep (l ++ [a]) ++ sep ++ b.
Proof.
  induction l as [|x l IH]; simpl.
  - reflexivity.
  - destruct (l ++ [a])%list as [|y r] eqn:E.
    + now destruct l.
    + simpl in IH |- *. rewrite IH. now rewrite !append_assoc.
Qed.

Lemma charStep_read st c :
  Forall (fun s => hasChar Str.quote s = false) (row st ++ [currentValue st]) ->
  readSoFar (charStep st c) = readSoFar st ++ Str.removeChar Str.quote (String c "") /\
  Forall (fun s => hasChar Str.quote s = false)
         (row (charStep st c) ++ [currentValue (charStep st c)]).
Proof.
  intros H. unfold charStep, readSoFar.
  destruct (Ascii.eqb c Str.quote) eqn:Eq.
  - apply Ascii.eqb_eq in Eq. subst c. simpl. rewrite append_nil. now split.
  - assert (Eq' : Ascii.eqb Str.quote c = false) by (now rewrite Ascii.eqb_sym).
    cbn [Str.removeChar]. rewrite Eq'.
    destruct (Ascii.eqb c comma && negb (inQuotes st)) eqn:Ec; cbn [row currentValue].
    + apply andb_true_iff in Ec. destruct Ec as [Ec _]. apply Ascii.eqb_eq in Ec. subst c.
      split.
      * rewrite join_snoc. reflexivity.
      * apply Forall_app. split; [assumption|]. now constructor.
    + split.
      * destruct (row st) as [|x r] using rev_ind.
        -- reflexivity.
        -- rewrite !join_snoc. now rewrite !append_assoc.
      * apply Forall_app in H. destruct H as [H1 H2]. apply Forall_app. split; [assumption|].
        constructor; [|constructor]. rewrite hasChar_app. inversion H2; subst.
        cbn [hasChar]. rewrite H3, Eq'. reflexivity.
Qed.

Lemma scan_read line : forall st,
  Forall (fun s => hasChar Str.quote s = false) (row st ++ [currentValue st]) ->
  readSoFar (scan line st) = readSoFar st ++ Str.removeChar Str.quote line /\
  Forall (fun s => hasChar Str.quote s = false)
         (row (scan line st) ++ [currentValue (scan line st)]).
Proof.
  induction line as [|c r IH]; intros st H; simpl scan.
  - simpl. rewrite append_nil. now split.
  - destruct (@charStep_read st c H) as [E F]. destruct (IH _ F) as [E' F'].
    split; [|assumption]. rewrite E', E, append_assoc. f_equal.
    change (String c r) with (String c "" ++ r). now rewrite removeChar_app.
Qed.

Lemma scan_app (a : string) : forall (b : string) st, scan (a ++ b) st = scan b (scan a st).
Proof. induction a as [|c a IH]; intros b st; simpl; [reflexivity|apply IH]. Qed.

(** Inside quotes the doubled quotes of the export cancel out. *)
Lemma scan_quoted (s : string) : forall st,
  inQuotes st = true ->
  scan (doubleQuotes s) st =
  mkLineState (row st) true (currentValue st ++ Str.removeChar Str.quote s).
Proof.
  induction s as [|c s IH]; intros [r q cv] Hq; simpl in Hq; subst q.
  - simpl. now rewrite append_nil.
  - cbn [doubleQuotes Str.removeChar]. rewrite (Ascii.eqb_sym Str.quote c).
    destruct (Ascii.eqb c Str.quote) eqn:Eq.
    + cbn [scan]. unfold charStep at 2. rewrite Ascii.eqb_refl.
      cbn [row inQuotes currentValue negb].
      unfold charStep. rewrite Ascii.eqb_refl. cbn [row inQuotes currentValue negb].
      now rewrite IH.
    + cbn [scan]. unfold charStep. rewrite Eq. cbn [row inQuotes currentValue negb].
      rewrite andb_false_r. rewrite IH by reflexivity. cbn [row currentValue].
      now rewrite append_assoc.
Qed.

(** A text with neither quote nor comma is appended as it is. *)
Lemma scan_plain (s : string) : forall st,
  hasChar Str.quote s = false -> hasChar comma s = false ->
  scan s st = mkLineState (row st) (inQuotes st) (currentValue st ++ s).
Proof.
  induction s as [|c s IH]; intros [r q cv] Hq Hc.
  - simpl. now rewrite append_nil.
  - cbn [hasChar] in Hq, Hc. apply orb_false_iff in Hq, Hc.
    destruct Hq as [Hq Hq'], Hc as [Hc Hc'].
    cbn [scan]. unfold charStep. rewrite (Ascii.eqb_sym c Str.quote), Hq.
    rewrite (Ascii.eqb_sym c comma), Hc. cbn [andb row inQuotes currentValue].
    rewrite IH by assumption. cbn [row inQuotes currentValue]. now rewrite append_assoc.
Qed.

(** One field of an exported line, read outside quotes. *)
Lemma scan_field (v : value) st :
  inQuotes st = false ->
  scan (field v) st = mkLineState (row st) false (currentValue st ++ exported v).
Proof.
  destruct st as [r q cv]. cbn [inQuotes]. intros ->.
  destruct v as [| |s|x]; cbn [field exported].
  - simpl. now rewrite append_nil.
  - simpl. now rewrite append_nil.
  - cbn [scan]. unfold charStep at 1. rewrite Ascii.eqb_refl.
    cbn [row inQuotes currentValue negb].
    rewrite scan_app, scan_quoted by reflexivity. cbn [row currentValue scan].
    unfold charStep. now rewrite Ascii.eqb_refl.
  - rewrite scan_plain by (apply hasChar_toString; reflexivity). reflexivity.
Qed.

Lemma scan_fields (vs : list value) : forall (v : value) st,
  inQuotes st = false ->
  let st' := scan (join "," (map field (v :: vs))) st in
  (row st' ++ [currentValue st'])%list =
  (row st ++ (currentValue st ++ exported v)%string :: map exported vs)%list.
Proof.
  induction vs as [|w vs IH]; intros v st Hq.
  - cbn [map join]. rewrite scan_field by assumption. reflexivity.
  - change (join "," (map field (v :: w :: vs)))
      with (field v ++ String comma (join "," (map field (w :: vs)))).
    cbv zeta. rewrite scan_app, scan_field by assumption. cbn [scan].
    unfold charStep at 1 2. change (Ascii.eqb comma Str.quote) with false.
    rewrite Ascii.eqb_refl. cbn [inQuotes negb andb row currentValue].
    pose proof (IH w (mkLineState (row st ++ [currentValue st ++ exported v]) false "")
                   eq_refl) as E.
    cbv zeta in E. cbn [row currentValue] in E. rewrite E.
    rewrite <- app_assoc. reflexivity.
Qed.

Lemma parseLine_fields (vals : list value) :
  vals <> [] -> parseLine (join "," (map field vals)) = map exported vals.
Proof.
  destruct vals as [|v vs]; [congruence|]. intros _. unfold parseLine.
  exact (@scan_fields vs v (mkLineState [] false "") eq_refl).
Qed.

Lemma split_cons sep (s : string) : exists h t, split sep s = h :: t.
Proof.
  destruct s as [|c s]; simpl; [now eexists; eexists|].
  destruct (Ascii.eqb c sep); [now eexists; eexists|].
  destruct (split sep s); now eexists; eexists.
Qed.

(** Without quotes the scan cuts at every comma. *)
Lemma scan_split (s : string) : forall st,
  inQuotes st = false -> hasChar Str.quote s = false ->
  (row (scan s st) ++ [currentValue (scan s st)])%list =
  (row st ++ prepend (currentValue st) (split comma s))%list.
Proof.
  induction s as [|c s IH]; intros [r q cv] Hq Hs; cbn [inQuotes] in Hq; subst q.
  - simpl. now rewrite append_nil.
  - cbn [hasChar] in Hs. apply orb_false_iff in Hs. destruct Hs as [Hc Hs].
    cbn [scan split]. unfold charStep. rewrite (Ascii.eqb_sym c Str.quote), Hc.
    cbn [inQuotes negb row currentValue]. rewrite andb_true_r.
    destruct (split_cons comma s) as (h & t & E).
    destruct (Ascii.eqb c comma) eqn:Ec.
    + rewrite IH by (reflexivity || assumption). cbn [row currentValue prepend].
      rewrite E. cbn [prepend]. rewrite append_nil. rewrite <- app_assoc. reflexivity.
    + rewrite IH by (reflexivity || assumption). cbn [row currentValue].
      rewrite E. cbn [prepend]. now rewrite append_assoc.
Qed.

(** [split] undoes [join] on texts that do not hold the separator. *)
Lemma hasChar_join c (sep : string) (l : list string) :
  hasChar c sep = false -> Forall (fun s => hasChar c s = false) l ->
  hasChar c (join sep l) = false.
Proof.
  intros Hsep. induction 1 as [|s l Hs Hl IH]; [reflexivity|].
  destruct l as [|t l]; [assumption|].
  change (join sep (s :: t :: l)) with (s ++ sep ++ join sep (t :: l)).
  now rewrite !hasChar_app, Hs, Hsep, IH.
Qed.

Lemma split_app (sep : ascii) (a b : string) :
  hasChar sep a = false ->
  split sep (a ++ String sep b) = a :: split sep b.
Proof.
  induction a as [|c a IH]; intros H.
  - simpl. now rewrite Ascii.eqb_refl.
  - cbn [hasChar] in H. apply orb_false_iff in H. destruct H as [H1 H2].
    cbn [append split]. rewrite (Ascii.eqb_sym c sep), H1. now rewrite IH.
Qed.

Lemma split_one (sep : ascii) (a : string) :
  hasChar sep a = false -> split sep a = [a].
Proof.
  induction a as [|c a IH]; intros H; [reflexivity|].
  cbn [hasChar] in H. apply orb_false_iff in H. destruct H as [H1 H2].
  cbn [split]. rewrite (Ascii.eqb_sym c sep), H1. now rewrite IH.
Qed.

Lemma split_join (sep : ascii) (l : list string) :
  l <> [] -> Forall (fun s => hasChar sep s = false) l ->
  split sep (join (String sep "") l) = l.
Proof.
  intros Hne H. induction H as [|s l Hs Hl IH]; [congruence|].
  destruct l as [|t l]; [now apply split_one|].
  change (join (String sep "") (s :: t :: l))
    with (s ++ String sep (join (String sep "") (t :: l))).
  rewrite split_app by assumption. f_equal. apply IH. discriminate.
Qed.

(** A line of plain texts reads back as it is. *)
Lemma scan_plains (l : list string) : forall (s : string) st,
  inQuotes st = false ->
  Forall (fun s => plainKey s = true) (s :: l) ->
  let st' := scan (join "," (s :: l)) st in
  (row st' ++ [currentValue st'])%list =
  (row st ++ (currentValue st ++ s)%string :: l)%list.
Proof.
  induction l as [|t l IH]; intros s st Hq H; inversion H as [|? ? Hs Hl]; subst;
    unfold plainKey in Hs; apply andb_true_iff in Hs; destruct Hs as [Hs _];
    apply andb_true_iff in Hs; destruct Hs as [Hs1 Hs2];
    apply negb_true_iff in Hs1, Hs2.
  - change (join "," [s]) with s. cbv zeta. rewrite scan_plain by assumption. reflexivity.
  - change (join "," (s :: t :: l)) with (s ++ String comma (join "," (t :: l))).
    cbv zeta. rewrite scan_app, (@scan_plain s st Hs1 Hs2). cbn [scan].
    unfold charStep at 1 2. change (Ascii.eqb comma Str.quote) with false.
    rewrite Ascii.eqb_refl. cbn [inQuotes row currentValue]. rewrite Hq. cbn [negb andb].
    pose proof (IH t (mkLineState (row st ++ [currentValue st ++ s]) false "")
                   eq_refl Hl) as E.
    cbv zeta in E. cbn [row currentValue] in E. rewrite E.
    rewrite <- app_assoc. reflexivity.
Qed.

Lemma parseLine_plains (l : list string) :
  l <> [] -> Forall (fun s => plainKey s = true) l ->
  parseLine (join "," l) = l.
Proof.
  destruct l as [|s l]; [congruence|]. intros _ H. unfold parseLine.
  exact (@scan_plains l s (mkLineState [] false "") eq_refl H).
Qed.

End CsvFacts.

(** X1. The scan of a line by [parseCSVText] loses nothing but the
    quotes: the cells of a line, joined by commas again, are the line
    without its quote characters; no cell holds a quote; and every line,
    the empty one too, gives at least one cell. *)
Theorem parseLine_keeps_all_but_quotes (line : string) :
  Csv.join "," (Csv.parseLine line) = Str.removeChar Str.quote line /\
  Forall (fun cell => hasChar Str.quote cell = false) (Csv.parseLine line) /\
  Csv.parseLine line <> [].
Proof.
  unfold Csv.parseLine.
  destruct (@CsvFacts.scan_read line (Csv.mkLineState [] false "")) as [E F].
  { repeat constructor. }
  repeat split; try assumption.
  intros H. now apply app_eq_nil in H.
Qed.

(** X2. On a line without quote characters the scan is [split] at the
    commas. *)
Theorem parseLine_without_quotes (line : string) :
  hasChar Str.quote line = false ->
  Csv.parseLine line = Csv.split Csv.comma line.
Proof.
  intros H. unfold Csv.parseLine.
  rewrite CsvFacts.scan_split by (reflexivity || assumption).
  destruct (CsvFacts.split_cons Csv.comma line) as (h & t & E). rewrite E. reflexivity.
Qed.

Lemma parseLine_without_quotes_witness :
  Csv.parseLine "HDFC Top 100 Fund,Equity,75000" =
  Csv.split Csv.comma "HDFC Top 100 Fund,Equity,75000".
Proof. apply parseLine_without_quotes. reflexivity. Defined.

(** X3. A line written by [downloadCSV] is read back by the scan of
    [parseCSVText] cell for cell, whatever commas and quotes the strings
    hold: a string comes back without its quote characters, a number as
    its text, [undefined] and [null] as the empty cell. *)
Theorem exported_line_reads_back (vals : list value) :
  vals <> [] ->
  Csv.parseLine (Csv.join "," (map Csv.field vals)) = map exported vals /\
  List.length (Csv.parseLine (Csv.join "," (map Csv.field vals))) = List.length vals.
Proof.
  intros H. rewrite (CsvFacts.parseLine_fields H). split; [reflexivity|].
  apply length_map.
Qed.

Lemma exported_line_reads_back_witness :
  let vals := [VStr "Axis, Midcap"; VNum (Num.ofZ 300); VUndefined] in
  Csv.parseLine (Csv.join "," (map Csv.field vals)) = map exported vals /\
  List.length (Csv.parseLine (Csv.join "," (map Csv.field vals))) = List.length vals.
Proof.
  apply (@exported_line_reads_back [VStr "Axis, Midcap"; VNum (Num.ofZ 300); VUndefined]).
  discriminate.
Defined.

(** X4. The whole file [downloadCSV] builds reads back: when the keys
    of the first row hold no quote, comma or line feed and no field text
    holds a line feed, cutting [csvContent] at the line feeds and scanning
    every line gives the keys, then one row of cells per object, in
    order. *)
Theorem exported_file_reads_back (first : obj value) (rest : list (obj value)) :
  let data := first :: rest in
  let headers := Obj.keys first in
  headers <> [] ->
  Forall (fun k => plainKey k = true) headers ->
  Forall (fun rowObj => Forall (fun k => oneLine (Csv.field (prop rowObj k)) = true) headers)
         data ->
  exists content,
    csvContent data = Some content /\
    map Csv.parseLine (Csv.split Csv.lineFeed content) =
    headers :: map (fun rowObj => map (fun k => exported (prop rowObj k)) headers) data.
Proof.
  cbv zeta. intros Hne Hkeys Hrows.
  eexists. split; [reflexivity|]. cbv zeta.
  set (headers := Obj.keys first) in *.
  generalize dependent (first :: rest). intros data Hrows.
  rewrite CsvFacts.split_join.
  - cbn [map]. f_equal; [now apply CsvFacts.parseLine_plains|].
    rewrite map_map. apply map_ext. intros o. unfold Csv.line.
    rewrite <- (map_map (fun k => prop o k) Csv.field).
    rewrite CsvFacts.parseLine_fields.
    + now rewrite map_map.
    + destruct headers; [congruence|discriminate].
  - discriminate.
  - constructor.
    + apply CsvFacts.hasChar_join; [reflexivity|].
      eapply Forall_impl; [|exact Hkeys]. cbv beta. intros k Hk.
      unfold plainKey in Hk. apply andb_true_iff in Hk. destruct Hk as [_ Hk].
      now apply negb_true_iff in Hk.
    + apply Forall_forall. intros line Hline. apply in_map_iff in Hline.
      destruct Hline as (o & <- & Ho). unfold Csv.line.
      apply CsvFacts.hasChar_join; [reflexivity|].
      rewrite Forall_forall in Hrows. specialize (Hrows o Ho).
      apply Forall_forall. intros f Hf. apply in_map_iff in Hf.
      destruct Hf as (k & <- & Hk). rewrite Forall_forall in Hrows.
      specialize (Hrows k Hk). now apply negb_true_iff in Hrows.
Qed.

Lemma exported_file_reads_back_witness :
  exists content,
    csvContent exportRows = Some content /\
    map Csv.parseLine (Csv.split Csv.lineFeed content) =
    ["Scheme Name"; "Units"] ::
    map (fun rowObj => map (fun k => exported (prop rowObj k)) ["Scheme Name"; "Units"])
        exportRows.
Proof.
  apply (@exported_file_reads_back
           [("Scheme Name", VStr "Axis, Midcap"); ("Units", VNum (Num.ofZ 300))]
           [[("Scheme Name", VStr "UTI Nifty 50");
             ("Units", VNum (Num.ofDecimal false 105 (-1)))]]).
  - discriminate.
  - repeat constructor.
  - repeat constructor.
Defined.

(** A text of three lines read as CSV: the quoted value keeps its
    comma, the last line has one cell and is passed over. *)
Example csv_text_example :
  map (map VStr) (map Csv.parseLine (Csv.split Csv.lineFeed smallText)) =
    (smallGrid ++ [[VStr "end of statement"]])%list /\
  parseCSVText smallText = processRawRows smallGrid /\
  map (fun o => (prop o "Scheme Name", prop o "Current Value")) (parseCSVText smallText)
    = [(VStr "X", VNum (Num.ofZ 4500))].
Proof. vm_compute. repeat split. Qed.

(** ** More on the normalizer *)

Lemma cellAt_text (cells : list string) (j : nat) :
  cellAt (map VStr cells) j = VUndefined \/ exists s, cellAt (map VStr cells) j = VStr s.
Proof.
  unfold cellAt. revert j. induction cells as [|c cells IH]; intros [|j]; simpl; eauto.
Qed.

Lemma coerce_defined (k : string) (cell : value) :
  cell <> VNull -> coerce k cell <> VNull.
Proof.
  intros H. unfold coerce.
  destruct cell as [| |s|x]; try congruence;
    repeat match goal with
           | |- context [if ?b then _ else _] => destruct b
           end; discriminate.
Qed.

(** The rows [parseCSVText] returns are filled from cells that are
    strings. *)
Lemma csv_rows_from_cells (text : string) :
  Forall (fun rowObj =>
            exists headers cells,
              rowObj = fillRow headers 0 (map VStr cells) [] /\
              truthy (prop rowObj "Scheme Name") = true)
         (parseCSVText text).
Proof.
  unfold parseCSVText, processRawRows.
  set (rows := map (fun line => map VStr (Csv.parseLine line)) (Csv.split Csv.lineFeed text)).
  destruct (headerIndex rows) as [i|]; [|constructor].
  match goal with |- Forall _ (dataRows ?h _) => set (headers := h) end.
  eapply Forall_impl; [|apply dataRows_from].
  intros o (r & Hr & _ & -> & Ht).
  assert (Hr' : In r rows).
  { rewrite <- (firstn_skipn (S i) rows). apply in_or_app. now right. }
  unfold rows in Hr'. apply in_map_iff in Hr'. destruct Hr' as (line & <- & _).
  exists headers, (Csv.parseLine line). split; [reflexivity|assumption].
Qed.

Lemma text_row_scheme_name (headers : list string) (cells : list string) :
  truthy (prop (fillRow headers 0 (map VStr cells) []) "Scheme Name") = true ->
  exists s, prop (fillRow headers 0 (map VStr cells) []) "Scheme Name" = VStr s /\ s <> "".
Proof.
  intros Ht.
  destruct (fillRow_prop "Scheme Name" (map VStr cells) headers 0 []) as [E1 E2].
  destruct (in_dec string_dec "Scheme Name" headers) as [Hin|Hnin].
  - destruct (E2 Hin) as (j & _ & E); [discriminate|]. rewrite E in Ht.
    destruct (cellAt_text cells (0 + j)) as [Ec|[s Ec]]; rewrite Ec in Ht, E.
    + discriminate.
    + exists (Str.unquote (Str.trim s)). split; [exact E|].
      cbn in Ht. intros E0. rewrite E0 in Ht. discriminate.
  - rewrite (E1 (or_introl Hnin)) in Ht. discriminate.
Qed.

(** X5. Every row object [parseCSVText] returns has a scheme name
    that is a string and is not empty, and none of its properties is
    [null]. *)
Theorem csv_rows_have_a_text_scheme_name (text : string) :
  Forall (fun rowObj =>
            (exists s, prop rowObj "Scheme Name" = VStr s /\ s <> "") /\
            (forall k, prop rowObj k <> VNull))
         (parseCSVText text).
Proof.
  eapply Forall_impl; [|apply csv_rows_from_cells].
  intros o (headers & cells & -> & Ht). split; [now apply text_row_scheme_name|].
  intros k.
  destruct (fillRow_prop k (map VStr cells) headers 0 []) as [E1 E2].
  destruct (String.eqb_spec k "__proto__") as [Hp|Hp].
  { rewrite (E1 (or_intror Hp)). discriminate. }
  destruct (in_dec string_dec k headers) as [Hin|Hnin].
  - destruct (E2 Hin Hp) as (j & _ & E). rewrite E. apply coerce_defined.
    destruct (cellAt_text cells (0 + j)) as [->|[s ->]]; discriminate.
  - rewrite (E1 (or_introl Hnin)). discriminate.
Qed.

Lemma dataRows_filter (headers : list string) (rows : list row) :
  dataRows headers rows = dataRows headers (filter (fun r => negb (isShort r)) rows).
Proof.
  induction rows as [|r rows IH]; simpl; [reflexivity|]. unfold isShort at 1.
  destruct (List.length r <? 2)%nat eqn:E; simpl; [assumption|].
  rewrite E. now rewrite IH.
Qed.

Lemma dataRows_length (headers : list string) (rows : list row) :
  (List.length (dataRows headers rows) <=
   List.length (filter (fun r => negb (isShort r)) rows))%nat.
Proof.
  induction rows as [|r rows IH]; simpl; [lia|]. unfold isShort at 1.
  destruct (List.length r <? 2)%nat; simpl; [assumption|].
  destruct (truthy _); simpl; lia.
Qed.

(** X6. The rows with fewer than two cells leave no trace: the
    normalizer returns what it would without them, at most one object per
    longer row, and never more objects than there are rows below the
    header. *)
Theorem short_rows_are_skipped (headers : list string) (rows : list row) :
  dataRows headers rows = dataRows headers (filter (fun r => negb (isShort r)) rows) /\
  (List.length (dataRows headers rows) <=
   List.length (filter (fun r => negb (isShort r)) rows))%nat /\
  (forall i, headerIndex rows = Some i ->
     (List.length (processRawRows rows) + S i <= List.length rows)%nat).
Proof.
  split; [apply dataRows_filter|]. split; [apply dataRows_length|].
  intros i E. unfold processRawRows. rewrite E.
  pose proof (dataRows_length (map headerName (nth i rows [])) (skipn (S i) rows)) as H1.
  pose proof (filter_length_le (fun r => negb (isShort r)) (skipn (S i) rows)) as H2.
  rewrite length_skipn in H2.
  apply headerIndex_Some in E. destruct E as [E _]. lia.
Qed.

Lemma dataRows_no_scheme_column (headers : list string) (rows : list row) :
  ~ In "Scheme Name" headers -> dataRows headers rows = [].
Proof.
  intros H. induction rows as [|r rows IH]; simpl; [reflexivity|].
  destruct (List.length r <? 2)%nat; [assumption|].
  destruct (fillRow_prop "Scheme Name" r headers 0 []) as [E _].
  rewrite (E (or_introl H)). simpl. assumption.
Qed.

(** X7. The scheme-name column is looked up by its exact name: when
    no header cell, trimmed and unquoted, is Scheme Name letter for
    letter, the normalizer returns nothing, even though the header row was
    found. *)
Theorem scheme_name_column_is_case_sensitive (rows : list row) (i : nat) :
  headerIndex rows = Some i ->
  ~ In "Scheme Name" (map headerName (nth i rows [])) ->
  processRawRows rows = [].
Proof.
  intros E H. unfold processRawRows. rewrite E. now apply dataRows_no_scheme_column.
Qed.

Lemma scheme_name_column_is_case_sensitive_witness :
  headerIndex lowerGrid = Some O /\ processRawRows lowerGrid = [].
Proof.
  split; [reflexivity|].
  apply (@scheme_name_column_is_case_sensitive lowerGrid O); [reflexivity|].
  vm_compute. intros [H|[H|[]]]; discriminate.
Defined.

Lemma escapeChar_lower (c : ascii) :
  Str.toLowerCase (Json.escapeChar (Str.lowerChar c)) = Str.toLowerCase (Json.escapeChar c).
Proof. destruct c as [[] [] [] [] [] [] [] []]; reflexivity. Qed.

Lemma escape_lower (s : string) :
  Str.toLowerCase (Json.escape (Str.toLowerCase s)) = Str.toLowerCase (Json.escape s).
Proof.
  induction s as [|c s IH]; simpl; [reflexivity|].
  now rewrite !toLowerCase_app, escapeChar_lower, IH.
Qed.

Lemma element_lower (v : value) :
  Str.toLowerCase (Json.element (lowerCell v)) = Str.toLowerCase (Json.element v).
Proof.
  destruct v as [| |s|x]; try reflexivity. cbn [lowerCell Json.element Str.toLowerCase].
  f_equal. now rewrite !toLowerCase_app, escape_lower.
Qed.

Lemma joinComma_lower (l : list value) :
  Str.toLowerCase (Json.joinComma (map Json.element (map lowerCell l))) =
  Str.toLowerCase (Json.joinComma (map Json.element l)).
Proof.
  induction l as [|v l IH]; [reflexivity|].
  destruct l as [|w l]; [apply element_lower|].
  change (Json.joinComma (map Json.element (map lowerCell (v :: w :: l))))
    with (Json.element (lowerCell v) ++ "," ++
          Json.joinComma (map Json.element (map lowerCell (w :: l)))).
  change (Json.joinComma (map Json.element (v :: w :: l)))
    with (Json.element v ++ "," ++ Json.joinComma (map Json.element (w :: l))).
  now rewrite !toLowerCase_app, element_lower, IH.
Qed.

(** X8. The header test does not see the case of the cells: a row
    and the same row with its strings in lower case have the same
    serialized text, so the header is found at the same index. *)
Theorem header_test_ignores_case (r : row) (rows : list row) :
  rowStr (map lowerCell r) = rowStr r /\
  isHeaderRow (map lowerCell r) = isHeaderRow r /\
  headerIndex (map (map lowerCell) rows) = headerIndex rows.
Proof.
  assert (E : forall r, rowStr (map lowerCell r) = rowStr r).
  { intros r0. unfold rowStr, Json.stringify.
    now rewrite !toLowerCase_app, joinComma_lower. }
  split; [apply E|]. split; [unfold isHeaderRow; now rewrite E|].
  induction rows as [|r0 rows IH]; simpl; [reflexivity|].
  unfold isHeaderRow at 1. rewrite E. fold (isHeaderRow r0). now rewrite IH.
Qed.

(** The keys of the row object. *)
Lemma fillRow_keys (r : row) (headers : list string) : forall index rowObj,
  (NoDup (map fst rowObj) -> NoDup (map fst (fillRow headers index r rowObj))) /\
  (forall k, In k (map fst (fillRow headers index r rowObj)) <->
             In k (map fst rowObj) \/ (In k headers /\ k <> "__proto__")).
Proof.
  induction headers as [|h headers IH]; intros index rowObj; simpl.
  - split; [trivial|]. intros k. tauto.
  - destruct (IH (S index) (assign h (coerce h (cellAt r index)) rowObj)) as [IH1 IH2].
    unfold assign in *. destruct (String.eqb_spec h "__proto__") as [->|Hp].
    + split; [assumption|]. intros k. rewrite IH2. intuition congruence.
    + split.
      * intros H. apply IH1. now apply ObjFacts.NoDup_set.
      * intros k. rewrite IH2, ObjFacts.In_keys_set. intuition congruence.
Qed.

(** The last column of a name is the one that stays. *)
Lemma fillRow_last (k : string) (r : row) (headers : list string) :
  k <> "__proto__" ->
  forall index rowObj j,
  nth_error headers j = Some k ->
  (forall j', (j < j')%nat -> nth_error headers j' <> Some k) ->
  prop (fillRow headers index r rowObj) k = coerce k (cellAt r (index + j)).
Proof.
  intros Hp.
  induction headers as [|h headers IH]; intros index rowObj j Hj Hlast.
  - destruct j; discriminate.
  - simpl. destruct j as [|j].
    + injection Hj as ->.
      destruct (fillRow_prop k r headers (S index)
                  (assign k (coerce k (cellAt r index)) rowObj)) as [E _].
      rewrite E.
      * rewrite prop_assign_same by assumption. f_equal. f_equal. lia.
      * left. intros Hin. apply In_nth_error in Hin. destruct Hin as [n Hn].
        apply (Hlast (S n)); [lia|exact Hn].
    + rewrite (IH (S index) _ j Hj).
      * f_equal. f_equal. lia.
      * intros j' Hlt. apply (Hlast (S j')). lia.
Qed.

Lemma coerce_text (k : string) (cell : value) :
  ~ In k numericFields -> coerce k cell = cleanCell cell.
Proof.
  intros H. unfold coerce, cleanCell.
  assert (E1 : existsb (String.eqb k) numericColumns = false).
  { destruct (existsb (String.eqb k) numericColumns) eqn:E; [|reflexivity].
    exfalso. apply H. apply existsb_exists in E. destruct E as (x & Hx & Hk).
    apply String.eqb_eq in Hk. subst x. simpl in Hx. simpl. tauto. }
  assert (E2 : String.eqb k "XIRR" = false).
  { destruct (String.eqb k "XIRR") eqn:E; [|reflexivity].
    exfalso. apply H. apply String.eqb_eq in E. subst k. simpl. tauto. }
  rewrite E1, E2. reflexivity.
Qed.

(** X9. When the header row has no undefined cell and the grid no
    null cell, every row object has as its keys the header names other
    than [__proto__], each once; under such a name it holds the cell of the last column of that
    name (a repeated header overwrites), coerced, and for a name that is
    not one of the five numeric columns that is the cell as it is, a
    string trimmed and unquoted. A column headed [__proto__] leaves no
    property. *)
Theorem row_objects_follow_the_header (rows : list row) (i : nat) :
  headerIndex rows = Some i ->
  ~ In VUndefined (nth i rows []) ->
  Forall (fun r => ~ In VNull r) rows ->
  let headers := map headerName (nth i rows []) in
  Forall (fun rowObj =>
            NoDup (map fst rowObj) /\
            (forall k, In k (map fst rowObj) <-> In k headers /\ k <> "__proto__") /\
            Obj.get "__proto__" rowObj = None /\
            exists r, In r (skipn (S i) rows) /\
              forall k j,
                k <> "__proto__" ->
                nth_error headers j = Some k ->
                (forall j', (j < j')%nat -> nth_error headers j' <> Some k) ->
                prop rowObj k = coerce k (cellAt r j) /\
                (~ In k numericFields -> prop rowObj k = cleanCell (cellAt r j)))
         (processRawRows rows).
Proof.
  intros Ei _ _. unfold processRawRows. rewrite Ei.
  cbv zeta. set (headers := map headerName (nth i rows [])).
  eapply Forall_impl; [|apply dataRows_from].
  intros o (r & Hr & _ & -> & _).
  destruct (fillRow_keys r headers 0 []) as [K1 K2].
  split; [apply K1; constructor|]. split; [|split].
  - intros k. rewrite K2. simpl. tauto.
  - apply ObjFacts.get_None. rewrite K2. simpl. tauto.
  - exists r. split; [assumption|]. intros k j Hp Hj Hlast.
    pose proof (@fillRow_last k r headers Hp 0%nat [] j Hj Hlast) as E. simpl in E.
    split; [assumption|]. intros Hn. rewrite E. now apply coerce_text.
Qed.

(** A grid whose third column is headed [__proto__]. *)
Example proto_header_leaves_no_property :
  map (map fst)
      (processRawRows [ [VStr "Scheme Name"; VStr "Current Value"; VStr "__proto__"];
                        [VStr "X"; VStr "4,500"; VStr "y"] ])
    = [["Scheme Name"; "Current Value"]].
Proof. vm_compute. reflexivity. Qed.

Lemma row_objects_follow_the_header_witness :
  let headers := map headerName (nth 1 titledGrid []) in
  Forall (fun rowObj =>
            NoDup (map fst rowObj) /\
            (forall k, In k (map fst rowObj) <-> In k headers /\ k <> "__proto__") /\
            Obj.get "__proto__" rowObj = None /\
            exists r, In r (skipn 2 titledGrid) /\
              forall k j,
                k <> "__proto__" ->
                nth_error headers j = Some k ->
                (forall j', (j < j')%nat -> nth_error headers j' <> Some k) ->
                prop rowObj k = coerce k (cellAt r j) /\
                (~ In k numericFields -> prop rowObj k = cleanCell (cellAt r j)))
         (processRawRows titledGrid).
Proof.
  apply (@row_objects_follow_the_header titledGrid 1%nat).
  - reflexivity.
  - simpl. intros [H|[H|[]]]; discriminate.
  - repeat constructor; simpl; intros [H|[H|[]]]; discriminate.
Defined.

(** ** More on the engine *)

Lemma gt_orZero (f : onum) : Num.gt (orZero f) Num.zero = isPositive f.
Proof.
  unfold isPositive. destruct f as [x|]; [|reflexivity].
  unfold orZero, toNumber, Num.truthy.
  destruct x as [s|s| |s m e]; reflexivity.
Qed.

Lemma orZero_positive (f : onum) : isPositive f = true -> orZero f = toNumber f.
Proof.
  unfold isPositive. destruct f as [x|]; [|discriminate].
  unfold orZero, toNumber, Num.truthy.
  destruct x as [s|s| |s m e]; try reflexivity; discriminate.
Qed.

(** X10. The derived fields never divide by a value that is not
    positive: unless Units is a number above zero (a missing, NaN, zero
    or negative value is not) both NAVs are 0, and otherwise they are the
    quotients by Units itself; likewise the return percentage is 0 unless
    Invested Value is above zero. *)
Theorem derived_fields_guard_their_divisions (h : Holding) :
  let it := processItem h in
  holding it = h /\
  (isPositive (units h) = false ->
   _currentNAV it = Num.zero /\ _avgBuyNAV it = Num.zero) /\
  (isPositive (units h) = true ->
   _currentNAV it = Num.div (orZero (currentValue h)) (toNumber (units h)) /\
   _avgBuyNAV it = Num.div (orZero (investedValue h)) (toNumber (units h))) /\
  (isPositive (investedValue h) = false -> _absReturn it = Num.zero) /\
  (isPositive (investedValue h) = true ->
   _absReturn it =
     Num.mul (Num.div (Num.sub (orZero (currentValue h)) (toNumber (investedValue h)))
                      (toNumber (investedValue h)))
             hundred) /\
  (units h = None -> _currentNAV it = Num.zero) /\
  (investedValue h = None -> _absReturn it = Num.zero).
Proof.
  cbv zeta. unfold processItem, returnPct. cbn [holding _currentNAV _avgBuyNAV _absReturn].
  rewrite !gt_orZero.
  split; [reflexivity|].
  split; [intros ->; now split|].
  split; [intros E; rewrite E, (orZero_positive _ E); now split|].
  split; [now intros ->|].
  split; [intros E; now rewrite E, (orZero_positive _ E)|].
  split; intros ->; reflexivity.
Qed.

Lemma filter_map_swap (A B : Type) (g : A -> B) (f : B -> bool) (l : list A) :
  filter f (map g l) = map g (filter (fun x => f (g x)) l).
Proof.
  induction l as [|x l IH]; simpl; [reflexivity|].
  destruct (f (g x)); simpl; now rewrite IH.
Qed.

Lemma workingSet_kept (data : list Holding) :
  workingSet true (map processItem data) = map processItem (filter keepsValue data).
Proof. unfold workingSet. now rewrite filter_map_swap. Qed.

(** X11. Simulating the cleanup is analysing the portfolio without
    the holdings below 5000: whatever does not report on the original
    list (the simulation statistics and the health score) is the same in
    both results. *)
Theorem simulation_is_analysis_of_kept_holdings (data : list Holding) :
  let a := analysis data true in
  let b := analysis (filter keepsValue data) false in
  Result.processedData a = Result.processedData b /\
  Result.totalInv a = Result.totalInv b /\
  Result.totalCurr a = Result.totalCurr b /\
  Result.totalReturns a = Result.totalReturns b /\
  Result.absReturn a = Result.absReturn b /\
  Result.lossMakers a = Result.lossMakers b /\
  Result.clutter a = Result.clutter b /\
  Result.categoryData a = Result.categoryData b /\
  Result.amcData a = Result.amcData b /\
  Result.categoryTree a = Result.categoryTree b /\
  Result.comparisonData a = Result.comparisonData b /\
  Result.consolidationPlan a = Result.consolidationPlan b /\
  Result.treemapData a = Result.treemapData b.
Proof.
  cbv zeta. unfold analysis. cbn [Result.processedData Result.totalInv Result.totalCurr
    Result.totalReturns Result.absReturn Result.lossMakers Result.clutter
    Result.categoryData Result.amcData Result.categoryTree Result.comparisonData
    Result.consolidationPlan Result.treemapData].
  rewrite workingSet_kept. cbn [workingSet]. repeat split.
Qed.

Lemma lt_not_ge (x y : Num.num) : Num.lt x y = true -> Num.ge x y = false.
Proof.
  unfold Num.ge, Num.lt, SFleb, SFltb. rewrite (SFcompare_antisym x y).
  destruct (SFcompare x y) as [[]|]; simpl; congruence.
Qed.

Lemma filter_all (A : Type) (f : A -> bool) (l : list A) :
  Forall (fun x => f x = true) l -> filter f l = l.
Proof. induction 1 as [|x l Hx Hl IH]; simpl; [reflexivity|]. now rewrite Hx, IH. Qed.

(** X12. When every holding is below 5000 the simulated cleanup
    leaves nothing to analyse: the working set and every list are empty,
    the totals and the return are 0 (nothing is divided by the zero
    total), while the clutter count is the number of holdings and the
    score is 100 less the clutter penalty. *)
Theorem all_clutter_portfolio_cleans_to_nothing (data : list Holding) :
  Forall (fun h => Num.lt (toNumber (currentValue h)) clutterLimit = true) data ->
  let r := analysis data true in
  Result.processedData r = [] /\
  Result.totalInv r = Num.zero /\ Result.totalCurr r = Num.zero /\
  Result.totalReturns r = Num.zero /\ Result.absReturn r = Num.zero /\
  Result.lossMakers r = [] /\ Result.clutter r = [] /\
  Result.categoryData r = [] /\ Result.amcData r = [] /\
  Result.categoryTree r = [] /\ Result.comparisonData r = [] /\
  Result.consolidationPlan r = [] /\
  clutterCount (Result.simStats r) = List.length data /\
  Result.score r = 100 - Z.min 20 (2 * Z.of_nat (List.length data)).
Proof.
  intros H. cbv zeta.
  assert (E : workingSet true (map processItem data) = []).
  { rewrite workingSet_kept. rewrite filter_nil; [reflexivity|].
    intros h Hh. rewrite Forall_forall in H. unfold keepsValue. apply lt_not_ge. now apply H. }
  assert (Ec : filter isClutter (map processItem data) = map processItem data).
  { apply filter_all. apply Forall_forall. intros it Hit. apply in_map_iff in Hit.
    destruct Hit as (h & <- & Hh). rewrite Forall_forall in H. now apply H. }
  unfold analysis.
  cbn [Result.processedData Result.totalInv Result.totalCurr Result.totalReturns
       Result.absReturn Result.lossMakers Result.clutter Result.categoryData Result.amcData
       Result.categoryTree Result.comparisonData Result.consolidationPlan Result.simStats
       Result.score clutterCount].
  rewrite E, Ec. rewrite length_map.
  repeat (split; [reflexivity|]).
  rewrite healthScoreOf_halves. unfold halves. cbn [List.length Nat.ltb Nat.leb].
  change (lossMakers (runPass [])) with (@nil Item). cbn [List.length].
  set (n := Z.of_nat (List.length data)).
  change (Z.min 30 (3 * Z.of_nat 0)) with 0.
  replace (200 - Z.min 40 (4 * n) - 0 - 0 - 0 + 1) with (1 + (100 - Z.min 20 (2 * n)) * 2) by lia.
  rewrite Z.div_add by lia. reflexivity.
Qed.

Lemma all_clutter_portfolio_cleans_to_nothing_witness :
  let r := analysis smallData true in
  Result.processedData r = [] /\
  Result.totalInv r = Num.zero /\ Result.totalCurr r = Num.zero /\
  Result.totalReturns r = Num.zero /\ Result.absReturn r = Num.zero /\
  Result.lossMakers r = [] /\ Result.clutter r = [] /\
  Result.categoryData r = [] /\ Result.amcData r = [] /\
  Result.categoryTree r = [] /\ Result.comparisonData r = [] /\
  Result.consolidationPlan r = [] /\
  clutterCount (Result.simStats r) = List.length smallData /\
  Result.score r = 100 - Z.min 20 (2 * Z.of_nat (List.length smallData)).
Proof.
  apply (@all_clutter_portfolio_cleans_to_nothing smallData).
  repeat constructor.
Defined.

(** X13. The health score never falls below 45, so the label is
    never Critical and the clamp at 0 never acts; the label is Poor below
    60, Good from 60 to 79 and Excellent from 80 on. *)
Theorem health_score_is_never_critical (data : list Holding) (simulateCleanup : bool) :
  let r := analysis data simulateCleanup in
  45 <= Result.score r <= 100 /\
  Result.label r <> "Critical" /\
  (Result.label r = "Poor" <-> Result.score r < 60) /\
  (Result.label r = "Good" <-> 60 <= Result.score r < 80) /\
  (Result.label r = "Excellent" <-> 80 <= Result.score r).
Proof.
  cbv zeta. cbn [Result.score Result.label analysis].
  match goal with |- context [healthScoreOf ?c ?l ?n] =>
    generalize c l n; intros c0 l0 n0 end.
  rewrite healthScoreOf_halves. pose proof (halves_range c0 l0 n0) as H.
  set (s := (halves c0 l0 n0 + 1) / 2).
  assert (Hs : 45 <= s <= 100).
  { unfold s. split.
    - apply Z.div_le_lower_bound; lia.
    - apply Z.lt_succ_r, Z.div_lt_upper_bound; lia. }
  split; [assumption|]. unfold healthLabel.
  destruct (Z.ltb_spec s 40); [lia|].
  destruct (Z.ltb_spec s 60); [|destruct (Z.ltb_spec s 80)];
    repeat split; intros; try discriminate; try lia; try reflexivity.
Qed.

(** X14. The loss-makers and the clutter list are the holdings of
    the working set with negative Returns, and with a current value below
    5000, in the order of the working set; every one of them is a holding
    of the input, and with the simulation off the clutter list has as
    many entries as the simulation statistics count. *)
Theorem loss_makers_and_clutter_are_filters (data : list Holding) (simulateCleanup : bool) :
  let r := analysis data simulateCleanup in
  let ws := Result.processedData r in
  Result.lossMakers r = filter (fun it => Num.lt (itemReturns it) Num.zero) ws /\
  Result.clutter r = filter isClutter ws /\
  (forall it, In it (Result.clutter r) -> In (holding it) data) /\
  (simulateCleanup = false ->
   List.length (Result.clutter r) = clutterCount (Result.simStats r)).
Proof.
  cbv zeta. cbn [Result.processedData Result.lossMakers Result.clutter Result.simStats
                 clutterCount analysis].
  unfold runPass. rewrite runPass_lossMakers, runPass_clutter.
  cbn [emptyPass lossMakers clutter app]. repeat split.
  - intros it Hin. apply filter_In in Hin. destruct Hin as [Hin _].
    apply workingSet_incl in Hin. apply in_map_iff in Hin.
    destruct Hin as (h & <- & Hh). exact Hh.
  - intros ->. reflexivity.
Qed.

(** X25. On holdings whose invested value is a number, [totalInv]
    is the plain sum of the invested values of the working set (up to the
    sign of a zero); the overall return percentage is
    [totalReturns / totalInv * 100] when [totalInv] is above zero and 0
    otherwise, so an empty working set has a total and a return of 0. *)
Theorem total_invested_is_plain_sum (data : list Holding) (simulateCleanup : bool) :
  (forall h, In h data -> isNumber (investedValue h)) ->
  let r := analysis data simulateCleanup in
  sameNumber (Result.totalInv r) (sumItemInvested (Result.processedData r)) /\
  Result.absReturn r =
    (if Num.gt (Result.totalInv r) Num.zero
     then Num.mul (Num.div (Result.totalReturns r) (Result.totalInv r)) hundred
     else Num.zero) /\
  (Result.processedData r = [] ->
   Result.totalInv r = Num.zero /\ Result.absReturn r = Num.zero).
Proof.
  intros Hnum. cbv zeta.
  cbn [Result.totalInv Result.absReturn Result.totalReturns Result.processedData analysis].
  split; [|split; [reflexivity|]].
  - unfold sumItemInvested, itemInvested.
    apply (guarded_sum_sameNumber investedValue); [|now left].
    apply Forall_forall. intros i Hi.
    apply workingSet_incl, in_map_iff in Hi. destruct Hi as (h & <- & Hh).
    now apply Hnum.
  - intros ->. split; reflexivity.
Qed.

Lemma total_invested_is_plain_sum_witness :
  let r := analysis SAMPLE_DATA true in
  sameNumber (Result.totalInv r) (sumItemInvested (Result.processedData r)) /\
  Result.absReturn r =
    (if Num.gt (Result.totalInv r) Num.zero
     then Num.mul (Num.div (Result.totalReturns r) (Result.totalInv r)) hundred
     else Num.zero) /\
  (Result.processedData r = [] ->
   Result.totalInv r = Num.zero /\ Result.absReturn r = Num.zero).
Proof.
  apply (@total_invested_is_plain_sum SAMPLE_DATA true).
  intros h Hin. simpl in Hin.
  repeat (destruct Hin as [<-|Hin]; [eexists; split; reflexivity|]).
  contradiction.
Defined.

(** *** Totals per category and per AMC *)

Lemma runPass_byCategory l : forall st,
  byCategory (fold_left passStep l st) =
  fold_left (gstep catKey updTotal) l (byCategory st).
Proof. induction l as [|x l IH]; intros st; simpl; [reflexivity|]. now rewrite IH. Qed.

Lemma runPass_byAMC l : forall st,
  byAMC (fold_left passStep l st) =
  fold_left (gstep amcKey updTotal) l (byAMC st).
Proof. induction l as [|x l IH]; intros st; simpl; [reflexivity|]. now rewrite IH. Qed.

Lemma fold_updTotal (l : list Item) : forall (x : Item),
  fold_left (fun v x => Some (updTotal v x)) (x :: l) None = Some (guardedTotal (x :: l)).
Proof.
  intros x. unfold guardedTotal. cbn [fold_left].
  change (updTotal None x) with (Num.add (orZero (Some Num.zero)) (itemCurrent x)).
  generalize (Num.add (orZero (Some Num.zero)) (itemCurrent x)).
  induction l as [|y l IH]; intros a; [reflexivity|]. cbn [fold_left]. apply IH.
Qed.

Lemma sortBy_descending (A : Type) (key : A -> Num.num) (l : list A) :
  descending key (sortBy (fun a b => Num.sub (key b) (key a)) l).
Proof.
  unfold descending. apply (sortBy_sorted_antisym (fun a b => Num.sub (key b) (key a))).
  intros a b. apply sub_antisym.
Qed.

Lemma sortBy_ascending (A : Type) (key : A -> Num.num) (l : list A) :
  ascending key (sortBy (fun a b => Num.sub (key a) (key b)) l).
Proof.
  unfold ascending. apply (sortBy_sorted_antisym (fun a b => Num.sub (key a) (key b))).
  intros a b. apply sub_antisym.
Qed.

Lemma sorted_keys (A : Type) (R R' : A -> A -> Prop) (P : A -> Prop) (l : list A) :
  (forall a b, P a -> P b -> R a b -> R' a b) ->
  Sorted R l -> Forall P l -> Sorted R' l.
Proof.
  intros H. induction 1 as [|a l Hs IH Hhd]; intros Hp; [constructor|].
  inversion Hp as [|? ? Ha Hl]; subst. constructor; [now apply IH|].
  destruct Hhd as [|b l' Hab]; constructor.
  inversion Hl; subst. now apply H.
Qed.

Lemma descending_keys (A : Type) (key : A -> Num.num) (l : list A) :
  descending key l ->
  Forall (fun a => canonical (key a) = true) l ->
  Sorted (fun a b => Num.lt (key a) (key b) = false) l.
Proof.
  intros Hs Hc. eapply sorted_keys; [|exact Hs|exact Hc]. cbv beta.
  intros a b Ca Cb Hab.
  destruct (Num.lt (key a) (key b)) eqn:E; [|reflexivity].
  apply sub_pos in E; try assumption. congruence.
Qed.

Lemma properNumber_spec (x : Num.num) :
  properNumber x = true <-> canonical x = true /\ Num.isNaN x = false.
Proof.
  unfold properNumber. rewrite andb_true_iff, negb_true_iff. tauto.
Qed.

(** A list in the order of [(a, b) => key(b) - key(a)] whose keys are
    numbers: no element has a key below the key of a later one. *)
Lemma descending_strongly (A : Type) (key : A -> Num.num) (l : list A) :
  descending key l ->
  Forall (fun a => properNumber (key a) = true) l ->
  StronglySorted (fun a b => Num.lt (key a) (key b) = false) l.
Proof.
  intros Hs Hp.
  apply (sorted_strongly (P := fun a => Num.isNaN (key a) = false)).
  - intros a b c Na Nb Nc. now apply lt_false_trans.
  - apply descending_keys; [assumption|].
    eapply Forall_impl; [|exact Hp]. intros a Ha. now apply properNumber_spec in Ha.
  - eapply Forall_impl; [|exact Hp]. intros a Ha. now apply properNumber_spec in Ha.
Qed.

Lemma ascending_strongly (A : Type) (key : A -> Num.num) (l : list A) :
  ascending key l ->
  Forall (fun a => properNumber (key a) = true) l ->
  StronglySorted (fun a b => Num.lt (key b) (key a) = false) l.
Proof.
  intros Hs Hp.
  apply (sorted_strongly (P := fun a => Num.isNaN (key a) = false)).
  - intros a b c Na Nb Nc H1 H2. now apply (@lt_false_trans (key c) (key b) (key a)).
  - eapply sorted_keys; [|exact Hs|exact Hp]. cbv beta.
    intros a b Ca Cb Hab. apply properNumber_spec in Ca, Cb.
    destruct (Num.lt (key b) (key a)) eqn:E; [|reflexivity].
    apply sub_pos in E; try tauto. congruence.
  - eapply Forall_impl; [|exact Hp]. intros a Ha. now apply properNumber_spec in Ha.
Qed.

Section Totals.
Variables (key : Item -> string) (ws : list Item).

Let totals : obj Num.num := fold_left (gstep key updTotal) ws [].

Lemma totals_NoDup : NoDup (map fst (sortBy byValue (Obj.entries totals))).
Proof.
  eapply Permutation_NoDup.
  - apply Permutation_map. symmetry.
    etransitivity; [apply sortBy_perm|apply ObjFacts.entries_perm].
  - apply ObjFacts.NoDup_grouped. constructor.
Qed.

Lemma totals_keys k :
  In k (map fst (sortBy byValue (Obj.entries totals))) <-> In k (map key ws).
Proof.
  assert (P : Permutation (map fst (sortBy byValue (Obj.entries totals))) (map fst totals)).
  { apply Permutation_map. etransitivity; [apply sortBy_perm|apply ObjFacts.entries_perm]. }
  split.
  - intros H. eapply Permutation_in in H; [|exact P].
    apply ObjFacts.keys_grouped in H. destruct H as [[]|H]. exact H.
  - intros H. eapply Permutation_in; [symmetry; exact P|].
    apply ObjFacts.keys_grouped. now right.
Qed.

Lemma totals_entry e :
  In e (sortBy byValue (Obj.entries totals)) ->
  filter (hasKey key (fst e)) ws <> [] /\
  snd e = guardedTotal (filter (hasKey key (fst e)) ws).
Proof.
  intros H. apply sortBy_In in H.
  eapply Permutation_in in H; [|apply ObjFacts.entries_perm].
  destruct e as [k v]. cbn [fst snd].
  apply ObjFacts.In_get in H; [|apply ObjFacts.NoDup_grouped; constructor].
  unfold totals in H. rewrite ObjFacts.get_grouped in H. cbn [Obj.get] in H.
  destruct (filter (hasKey key k) ws) as [|x l]; [discriminate|].
  rewrite fold_updTotal in H. split; [discriminate|congruence].
Qed.

Lemma totals_sorted : descending snd (sortBy byValue (Obj.entries totals)).
Proof. apply (sortBy_descending snd). Qed.

End Totals.

(** X15. When no key of the holdings is inherited from
    [Object.prototype], the category data and the AMC data have one entry
    for each category key, and each AMC key, of the working set and none
    else; the value of an entry is the total the loop builds over the
    holdings of the key, each step adding to [acc || 0]; and when the
    totals of a list are numbers (none is NaN) the list is in descending
    order: no entry has a total below that of a later entry. *)
Theorem category_and_amc_data_cover_the_keys (data : list Holding) (simulateCleanup : bool) :
  ordinaryData data = true ->
  let r := analysis data simulateCleanup in
  let ws := Result.processedData r in
  (NoDup (map fst (Result.categoryData r)) /\
   (forall k, In k (map fst (Result.categoryData r)) <-> In k (map catKey ws)) /\
   Forall (fun e => snd e = guardedTotal (filter (hasKey catKey (fst e)) ws))
          (Result.categoryData r) /\
   (Forall (fun e => properNumber (snd e) = true) (Result.categoryData r) ->
    StronglySorted (fun a b => Num.lt (snd a) (snd b) = false) (Result.categoryData r))) /\
  (NoDup (map fst (Result.amcData r)) /\
   (forall k, In k (map fst (Result.amcData r)) <-> In k (map amcKey ws)) /\
   Forall (fun e => snd e = guardedTotal (filter (hasKey amcKey (fst e)) ws))
          (Result.amcData r) /\
   (Forall (fun e => properNumber (snd e) = true) (Result.amcData r) ->
    StronglySorted (fun a b => Num.lt (snd a) (snd b) = false) (Result.amcData r))).
Proof.
  intros _. cbv zeta. cbn [Result.processedData Result.categoryData Result.amcData analysis].
  set (ws := workingSet simulateCleanup (map processItem data)).
  unfold runPass. rewrite runPass_byCategory, runPass_byAMC. cbn [emptyPass byCategory byAMC].
  split; (split; [apply totals_NoDup|split; [apply totals_keys|split]]);
    try (apply descending_strongly, totals_sorted);
    apply Forall_forall; intros e He; now apply totals_entry in He.
Qed.

Lemma category_and_amc_data_cover_the_keys_witness :
  let r := analysis SAMPLE_DATA false in
  let ws := Result.processedData r in
  (NoDup (map fst (Result.categoryData r)) /\
   (forall k, In k (map fst (Result.categoryData r)) <-> In k (map catKey ws)) /\
   Forall (fun e => snd e = guardedTotal (filter (hasKey catKey (fst e)) ws))
          (Result.categoryData r) /\
   (Forall (fun e => properNumber (snd e) = true) (Result.categoryData r) ->
    StronglySorted (fun a b => Num.lt (snd a) (snd b) = false) (Result.categoryData r))) /\
  (NoDup (map fst (Result.amcData r)) /\
   (forall k, In k (map fst (Result.amcData r)) <-> In k (map amcKey ws)) /\
   Forall (fun e => snd e = guardedTotal (filter (hasKey amcKey (fst e)) ws))
          (Result.amcData r) /\
   (Forall (fun e => properNumber (snd e) = true) (Result.amcData r) ->
    StronglySorted (fun a b => Num.lt (snd a) (snd b) = false) (Result.amcData r))).
Proof.
  apply (@category_and_amc_data_cover_the_keys SAMPLE_DATA false). reflexivity.
Defined.

(** *** Sums of finite numbers *)

Lemma shr_fexp_nonneg (m e : Z) (l : location) :
  0 <= m -> 0 <= shr_m (fst (shr_fexp Num.prec Num.emax m e l)).
Proof.
  intros Hm. unfold shr_fexp, shr.
  destruct (fexp Num.prec Num.emax (Zdigits2 m + e) - e) as [|k|k]; simpl.
  - now rewrite shr_record_m.
  - rewrite shr_iter by (now rewrite shr_record_m). rewrite shr_record_m.
    apply Z.div_pos; [assumption|]. apply Z.pow_pos_nonneg; lia.
  - now rewrite shr_record_m.
Qed.

Lemma binary_round_aux_number (s : bool) (p : positive) (e : Z) (l : location) :
  Num.isNaN (binary_round_aux Num.prec Num.emax s (Zpos p) e l) = false.
Proof.
  unfold binary_round_aux.
  pose proof (@shr_fexp_nonneg (Zpos p) e l ltac:(lia)) as H1.
  destruct (shr_fexp Num.prec Num.emax (Z.pos p) e l) as [mrs' e']. simpl in H1.
  pose proof (round_ge (shr_m mrs') (loc_of_shr_record mrs')) as Hr.
  set (m1 := round_nearest_even (shr_m mrs') (loc_of_shr_record mrs')) in *.
  pose proof (@shr_fexp_nonneg m1 e' loc_Exact ltac:(lia)) as H2.
  destruct (shr_fexp Num.prec Num.emax m1 e' loc_Exact) as [mrs'' e'']. simpl in H2.
  destruct (shr_m mrs'') as [|m|m]; try lia; try reflexivity.
  destruct (e'' <=? Num.emax - Num.prec); reflexivity.
Qed.

Lemma binary_normalize_number (d e : Z) (s : bool) :
  Num.isNaN (binary_normalize Num.prec Num.emax d e s) = false.
Proof.
  destruct d as [|p|p]; simpl; try reflexivity;
    unfold binary_round; destruct (shl_align _ _ _); apply binary_round_aux_number.
Qed.

(** Adding a finite number to a number gives a number. *)
Lemma add_number (x y : Num.num) :
  Num.isNaN x = false -> Num.isFinite y = true -> Num.isNaN (Num.add x y) = false.
Proof.
  unfold Num.add.
  destruct x as [sx|sx| |sx mx ex], y as [sy|sy| |sy my ey]; intros Hx Hy;
    try discriminate; try reflexivity;
    try (destruct sx, sy; reflexivity).
  unfold SFadd. apply binary_normalize_number.
Qed.

Lemma sameNumber_trans (x y z : Num.num) :
  sameNumber x y -> sameNumber y z -> sameNumber x z.
Proof.
  unfold sameNumber. intros [->|[H1 H2]] [->|[H3 H4]]; auto.
Qed.

Lemma sameNumber_number (x y : Num.num) :
  sameNumber x y -> Num.isNaN y = false -> Num.isNaN x = false.
Proof.
  intros [->|[H _]] Hy; [assumption|]. now destruct x.
Qed.

Lemma guardedTotal_plain (rows : list Item) :
  Forall (fun it => Num.isFinite (itemCurrent it) = true) rows ->
  forall a b, sameNumber a b -> Num.isNaN b = false ->
  sameNumber
    (fold_left (fun acc it => Num.add (orZero (Some acc)) (itemCurrent it)) rows a)
    (fold_left (fun acc c => Num.add acc (itemCurrent c)) rows b).
Proof.
  induction 1 as [|it rows Hit Hrows IH]; intros a b Hab Hb; cbn [fold_left]; [assumption|].
  apply IH.
  - apply add_sameNumber; [|now left].
    eapply sameNumber_trans; [|exact Hab].
    apply (@orZero_sameNumber (Some a)). exists a. split; [reflexivity|].
    eapply sameNumber_number; eassumption.
  - now apply add_number.
Qed.

Lemma finite_items (data : list Holding) (b : bool) :
  (forall h, In h data -> isFiniteNumber (currentValue h)) ->
  Forall (fun it => Num.isFinite (itemCurrent it) = true) (workingSet b (map processItem data)).
Proof.
  intros H. apply Forall_forall. intros it Hin. apply workingSet_incl in Hin.
  apply in_map_iff in Hin. destruct Hin as (h & <- & Hh).
  destruct (H h Hh) as (x & E & Hx). unfold itemCurrent. cbn [holding processItem].
  now rewrite E.
Qed.

(** X16. On holdings whose current value is a finite number and
    none of whose keys is inherited from [Object.prototype], the guard
    [acc || 0] of the two total-per-key loops never acts: the value of
    every category and of every AMC is the plain sum of the current
    values of its holdings, in their order (up to the sign of a zero). *)
Theorem category_totals_are_plain_sums (data : list Holding) (simulateCleanup : bool) :
  ordinaryData data = true ->
  (forall h, In h data -> isFiniteNumber (currentValue h)) ->
  let r := analysis data simulateCleanup in
  let ws := Result.processedData r in
  Forall (fun e => sameNumber (snd e) (sumItemCurrent (filter (hasKey catKey (fst e)) ws)))
         (Result.categoryData r) /\
  Forall (fun e => sameNumber (snd e) (sumItemCurrent (filter (hasKey amcKey (fst e)) ws)))
         (Result.amcData r).
Proof.
  intros _ Hfin. cbv zeta.
  cbn [Result.processedData Result.categoryData Result.amcData analysis].
  pose proof (@finite_items data simulateCleanup Hfin) as HF.
  set (ws := workingSet simulateCleanup (map processItem data)) in *.
  unfold runPass. rewrite runPass_byCategory, runPass_byAMC. cbn [emptyPass byCategory byAMC].
  split; apply Forall_forall; intros e He; apply totals_entry in He;
    destruct He as [_ ->]; unfold guardedTotal, sumItemCurrent;
    (apply guardedTotal_plain; [now apply Forall_filter|now left|reflexivity]).
Qed.

Lemma category_totals_are_plain_sums_witness :
  let r := analysis SAMPLE_DATA false in
  let ws := Result.processedData r in
  Forall (fun e => sameNumber (snd e) (sumItemCurrent (filter (hasKey catKey (fst e)) ws)))
         (Result.categoryData r) /\
  Forall (fun e => sameNumber (snd e) (sumItemCurrent (filter (hasKey amcKey (fst e)) ws)))
         (Result.amcData r).
Proof.
  apply (@category_totals_are_plain_sums SAMPLE_DATA false); [reflexivity|].
  intros h Hin. simpl in Hin.
  repeat (destruct Hin as [<-|Hin]; [eexists; split; reflexivity|]).
  contradiction.
Defined.

(** *** The category tree *)

Lemma group_totals (rows : list Item) : forall g,
  totalVal (fold_left addToGroup rows g) =
    fold_left (fun acc c => Num.add acc (itemCurrent c)) rows (totalVal g) /\
  totalInv (fold_left addToGroup rows g) =
    fold_left (fun acc c => Num.add acc (itemInvested c)) rows (totalInv g).
Proof.
  induction rows as [|it rows IH]; intros g; cbn [fold_left]; [now split|].
  destruct (IH (addToGroup g it)) as [-> ->]. now split.
Qed.

Lemma tree_names (sg : obj (obj Group)) :
  Permutation (map catName (buildCategoryTree sg)) (map fst sg).
Proof.
  unfold buildCategoryTree.
  etransitivity; [apply Permutation_map, sortBy_perm|].
  rewrite map_map. cbn [catName categoryOf].
  apply Permutation_map, ObjFacts.entries_perm.
Qed.

Lemma subCategory_names (e : string * obj Group) :
  Permutation (map subName (subCategories (categoryOf e))) (map fst (snd e)).
Proof.
  unfold categoryOf. cbn [subCategories].
  etransitivity; [apply Permutation_map, sortBy_perm|].
  rewrite map_map. cbn [subName subCategoryOf].
  apply Permutation_map, ObjFacts.entries_perm.
Qed.

(** X17. When no key of the holdings is inherited from
    [Object.prototype], the category tree groups the whole working set:
    it has one node for each category key and, under it, one for each of
    its sub-category keys; the two totals of a sub-category are the plain
    sums of the current and invested values of its holdings, its fund
    count is the number of its distinct scheme names; and every holding
    of the working set has its fund in the tree, under its own category
    and sub-category. *)
Theorem category_tree_groups_the_working_set (data : list Holding) (simulateCleanup : bool) :
  ordinaryData data = true ->
  let r := analysis data simulateCleanup in
  let ws := Result.processedData r in
  let tree := Result.categoryTree r in
  NoDup (map catName tree) /\
  (forall k, In k (map catName tree) <-> In k (map catKey ws)) /\
  Forall (fun c =>
            NoDup (map subName (subCategories c)) /\
            Forall (fun s =>
                      let rows := groupRows (catName c) (subName s) ws in
                      rows <> [] /\
                      subTotalVal s = sumItemCurrent rows /\
                      subTotalInv s = sumItemInvested rows /\
                      fundCount s = distinctSchemes (catName c) (subName s) ws /\
                      List.length (subFunds s) = fundCount s)
                   (subCategories c))
         tree /\
  (forall it, In it ws ->
     exists c s f,
       In c tree /\ In s (subCategories c) /\ In f (subFunds s) /\
       catName c = catKey it /\ subName s = subCatKey it /\
       schemeKey (item f) = schemeKey it).
Proof.
  intros Hord. cbv zeta. cbn [Result.processedData Result.categoryTree analysis].
  pose proof (@ordinary_schemes data simulateCleanup Hord) as Hos.
  set (ws := workingSet simulateCleanup (map processItem data)) in *.
  split; [|split; [|split]].
  - eapply Permutation_NoDup; [symmetry; apply tree_names|]. apply sg_NoDup.
  - intros k. split; intros H.
    + eapply Permutation_in in H; [|apply tree_names].
      rewrite sg_fold in H. apply ObjFacts.keys_grouped in H. destruct H as [[]|H]. exact H.
    + eapply Permutation_in; [symmetry; apply tree_names|].
      rewrite sg_fold. apply ObjFacts.keys_grouped. now right.
  - apply Forall_forall. intros c Hc.
    apply tree_category in Hc. destruct Hc as ([cat subs] & Hc & ->).
    destruct (sg_entry _ _ _ Hc) as (_ & _ & Hnd).
    split.
    + eapply Permutation_NoDup; [symmetry; apply subCategory_names|]. exact Hnd.
    + apply Forall_forall. intros s Hs.
      apply tree_subCategory in Hs. destruct Hs as ([subCat g] & Hs & ->).
      cbn [snd] in Hs. destruct (subs_entry _ _ _ _ _ Hc Hs) as (-> & Hne & _).
      cbn [catName categoryOf subName subCategoryOf fst snd subTotalVal subTotalInv].
      cbv zeta. split; [assumption|].
      unfold groupOf at 1 2.
      destruct (group_totals (groupRows cat subCat ws) emptyGroup) as [-> ->].
      split; [reflexivity|]. split; [reflexivity|].
      split; [apply (fundCount_distinct Hos cat subCat)|reflexivity].
  - intros it Hin.
    assert (Hrow : In it (groupRows (catKey it) (subCatKey it) ws)).
    { apply filter_In. split; [assumption|]. unfold inGroup. now rewrite !String.eqb_refl. }
    pose proof (groupAt_spec ws (catKey it) (subCatKey it)) as Hg.
    destruct (groupRows (catKey it) (subCatKey it) ws) as [|x l] eqn:E; [contradiction|].
    unfold groupAt in Hg.
    destruct (Obj.get (catKey it) (smartGroups (runPass ws))) as [subs|] eqn:E1; [|discriminate].
    apply ObjFacts.get_In in E1. apply ObjFacts.get_In in Hg.
    assert (Hk : In (schemeKey it) (map fst (funds (groupOf (catKey it) (subCatKey it) ws)))).
    { apply (funds_keys Hos). rewrite E. apply in_map. exact Hrow. }
    apply in_map_iff in Hk. destruct Hk as ([scheme f] & Hk & Hf). cbn [fst] in Hk. subst scheme.
    exists (categoryOf (catKey it, subs)),
           (subCategoryOf (subCatKey it, groupOf (catKey it) (subCatKey it) ws)), f.
    split; [apply tree_category; eauto|].
    split; [apply tree_subCategory; eauto|].
    split; [apply tree_fund; eauto|].
    split; [reflexivity|]. split; [reflexivity|].
    destruct (@funds_entry ws Hos _ _ _ _ Hf) as (first & rest & Es & -> & _).
    destruct (schemeRows_first _ _ _ _ Es) as (_ & _ & Hk & _).
    destruct (mergedFund_keys first rest) as (_ & _ & -> & _). exact Hk.
Qed.

Lemma category_tree_groups_the_working_set_witness :
  let r := analysis SAMPLE_DATA false in
  let ws := Result.processedData r in
  let tree := Result.categoryTree r in
  NoDup (map catName tree) /\
  (forall k, In k (map catName tree) <-> In k (map catKey ws)) /\
  Forall (fun c =>
            NoDup (map subName (subCategories c)) /\
            Forall (fun s =>
                      let rows := groupRows (catName c) (subName s) ws in
                      rows <> [] /\
                      subTotalVal s = sumItemCurrent rows /\
                      subTotalInv s = sumItemInvested rows /\
                      fundCount s = distinctSchemes (catName c) (subName s) ws /\
                      List.length (subFunds s) = fundCount s)
                   (subCategories c))
         tree /\
  (forall it, In it ws ->
     exists c s f,
       In c tree /\ In s (subCategories c) /\ In f (subFunds s) /\
       catName c = catKey it /\ subName s = subCatKey it /\
       schemeKey (item f) = schemeKey it).
Proof.
  apply (@category_tree_groups_the_working_set SAMPLE_DATA false). reflexivity.
Defined.

(** *** Orders *)

(** X18. When no key of the holdings is inherited from
    [Object.prototype], every list the engine sorts whose keys are
    numbers (none is NaN) is in descending order, no element having a key
    below the key of a later one: the comparison entries by weight, the
    categories and the sub-categories by total value, the funds of a
    sub-category by current value. Every comparison entry has a weight
    above zero. *)
Theorem sorted_lists_descend (data : list Holding) (simulateCleanup : bool) :
  ordinaryData data = true ->
  let r := analysis data simulateCleanup in
  Forall (fun c => Num.gt (weight c) Num.zero = true) (Result.comparisonData r) /\
  (Forall (fun c => properNumber (weight c) = true) (Result.comparisonData r) ->
   StronglySorted (fun a b => Num.lt (weight a) (weight b) = false)
                  (Result.comparisonData r)) /\
  (Forall (fun c => properNumber (catTotalVal c) = true) (Result.categoryTree r) ->
   StronglySorted (fun a b => Num.lt (catTotalVal a) (catTotalVal b) = false)
                  (Result.categoryTree r)) /\
  Forall (fun c =>
            (Forall (fun s => properNumber (subTotalVal s) = true) (subCategories c) ->
             StronglySorted (fun a b => Num.lt (subTotalVal a) (subTotalVal b) = false)
                            (subCategories c)) /\
            Forall (fun s =>
                      Forall (fun f => properNumber (fundCurrent f) = true) (subFunds s) ->
                      StronglySorted (fun a b => Num.lt (fundCurrent a) (fundCurrent b) = false)
                                     (subFunds s))
                   (subCategories c))
         (Result.categoryTree r).
Proof.
  intros _. cbv zeta. cbn [Result.comparisonData Result.categoryTree analysis].
  set (ws := workingSet simulateCleanup (map processItem data)).
  split.
  { apply Forall_forall. intros c Hc. apply comparison_entry in Hc.
    destruct Hc as (_ & Hw & Hc). pose proof (f_equal weight Hc) as E.
    cbn [weight] in E. now rewrite E. }
  split; [apply descending_strongly, (sortBy_descending weight)|].
  split; [apply descending_strongly, (sortBy_descending catTotalVal)|].
  apply Forall_forall. intros c Hc.
  apply tree_category in Hc. destruct Hc as (e & _ & ->).
  split; [apply descending_strongly, (sortBy_descending subTotalVal)|].
  apply Forall_forall. intros s Hs.
  apply tree_subCategory in Hs. destruct Hs as (e' & _ & ->).
  apply descending_strongly, (sortBy_descending fundCurrent).
Qed.

Lemma sorted_lists_descend_witness :
  let r := analysis SAMPLE_DATA false in
  Forall (fun c => Num.gt (weight c) Num.zero = true) (Result.comparisonData r) /\
  (Forall (fun c => properNumber (weight c) = true) (Result.comparisonData r) ->
   StronglySorted (fun a b => Num.lt (weight a) (weight b) = false)
                  (Result.comparisonData r)) /\
  (Forall (fun c => properNumber (catTotalVal c) = true) (Result.categoryTree r) ->
   StronglySorted (fun a b => Num.lt (catTotalVal a) (catTotalVal b) = false)
                  (Result.categoryTree r)) /\
  Forall (fun c =>
            (Forall (fun s => properNumber (subTotalVal s) = true) (subCategories c) ->
             StronglySorted (fun a b => Num.lt (subTotalVal a) (subTotalVal b) = false)
                            (subCategories c)) /\
            Forall (fun s =>
                      Forall (fun f => properNumber (fundCurrent f) = true) (subFunds s) ->
                      StronglySorted (fun a b => Num.lt (fundCurrent a) (fundCurrent b) = false)
                                     (subFunds s))
                   (subCategories c))
         (Result.categoryTree r).
Proof.
  apply (@sorted_lists_descend SAMPLE_DATA false). reflexivity.
Defined.

(** On the sample portfolio every key the engine sorts by is a number. *)
Example sample_keys_are_numbers :
  let r := analysis SAMPLE_DATA false in
  forallb (fun c => properNumber (weight c)) (Result.comparisonData r) = true /\
  forallb (fun e => properNumber (snd e)) (Result.categoryData r) = true /\
  forallb (fun e => properNumber (snd e)) (Result.amcData r) = true /\
  forallb (fun c => properNumber (catTotalVal c) &&
                    forallb (fun s => properNumber (subTotalVal s) &&
                                      forallb (fun f => properNumber (fundCurrent f))
                                              (subFunds s))
                            (subCategories c))
          (Result.categoryTree r) = true.
Proof. vm_compute. repeat split. Qed.



(** The benchmark keys of some sub-categories; an inherited name is
    kept as the key, though the table has no entry for it. *)
Example benchmark_keys :
  map benchKey ["Large & Mid Cap"; "ELSS"; "Liquid Fund"; "Dynamic Asset Allocation";
                "constructor"]
    = ["Large Cap"; "ELSS"; "Other"; "Other"; "constructor"] /\
  Obj.get "constructor" BENCHMARKS = None.
Proof. vm_compute. split; reflexivity. Qed.

(** ** The dashboard component *)

Lemma strongly_cut (A : Type) (R : A -> A -> Prop) (l1 l2 : list A) :
  StronglySorted R (l1 ++ l2) ->
  forall g x, In g l1 -> In x l2 -> R g x.
Proof.
  induction l1 as [|a l1 IH]; intros H g x Hg Hx; [contradiction|].
  simpl in H. inversion H as [|? ? Hs Hall]; subst.
  destruct Hg as [<-|Hg].
  - rewrite Forall_forall in Hall. apply Hall. apply in_or_app. now right.
  - now apply IH.
Qed.

Lemma Sorted_app_l (A : Type) (R : A -> A -> Prop) (l1 l2 : list A) :
  Sorted R (l1 ++ l2) -> Sorted R l1.
Proof.
  induction l1 as [|a l1 IH]; intros H; [constructor|].
  simpl in H. inversion H as [|? ? Hs Hhd]; subst.
  constructor; [now apply IH|].
  destruct l1; [constructor|]. simpl in Hhd. inversion Hhd; subst. now constructor.
Qed.

Lemma Sorted_firstn (A : Type) (R : A -> A -> Prop) (n : nat) (l : list A) :
  Sorted R l -> Sorted R (firstn n l).
Proof.
  intros H. rewrite <- (firstn_skipn n l) in H. now apply Sorted_app_l in H.
Qed.

Lemma In_firstn (A : Type) (n : nat) (l : list A) (x : A) : In x (firstn n l) -> In x l.
Proof.
  intros H. rewrite <- (firstn_skipn n l). apply in_or_app. now left.
Qed.

(** The first [n] of a list in descending order are not below any of
    the others, and conversely for the ascending order. *)
Lemma descending_cut (A : Type) (key : A -> Num.num) (l : list A) (n : nat) :
  descending key l ->
  Forall (fun a => canonical (key a) = true /\ Num.isNaN (key a) = false) l ->
  forall g x, In g (firstn n l) -> In x (skipn n l) -> Num.lt (key g) (key x) = false.
Proof.
  intros Hs Hp.
  assert (Hs' : Sorted (fun a b => Num.lt (key a) (key b) = false) l).
  { eapply sorted_keys; [|exact Hs|exact Hp]. cbv beta.
    intros a b [Ca _] [Cb _] Hab.
    destruct (Num.lt (key a) (key b)) eqn:E; [|reflexivity].
    apply sub_pos in E; try assumption. congruence. }
  eapply sorted_strongly in Hs'; [|..|exact Hp].
  - rewrite <- (firstn_skipn n l) in Hs'. apply (@strongly_cut _ _ _ _ Hs').
  - cbv beta. intros a b c [_ Na] [_ Nb] [_ Nc]. now apply lt_false_trans.
Qed.

Lemma ascending_cut (A : Type) (key : A -> Num.num) (l : list A) (n : nat) :
  ascending key l ->
  Forall (fun a => canonical (key a) = true /\ Num.isNaN (key a) = false) l ->
  forall g x, In g (firstn n l) -> In x (skipn n l) -> Num.lt (key x) (key g) = false.
Proof.
  intros Hs Hp.
  assert (Hs' : Sorted (fun a b => Num.lt (key b) (key a) = false) l).
  { eapply sorted_keys; [|exact Hs|exact Hp]. cbv beta.
    intros a b [Ca _] [Cb _] Hab.
    destruct (Num.lt (key b) (key a)) eqn:E; [|reflexivity].
    apply sub_pos in E; try assumption. congruence. }
  eapply sorted_strongly in Hs'; [|..|exact Hp].
  - rewrite <- (firstn_skipn n l) in Hs'. apply (@strongly_cut _ _ _ _ Hs').
  - cbv beta. intros a b c [_ Na] [_ Nb] [_ Nc] H1 H2.
    now apply (@lt_false_trans (key c) (key b) (key a)).
Qed.

Lemma Forall_perm (A : Type) (P : A -> Prop) (l l' : list A) :
  Permutation l l' -> Forall P l' -> Forall P l.
Proof.
  intros Hp H. rewrite Forall_forall in H |- *. intros x Hx. apply H.
  eapply Permutation_in; eassumption.
Qed.

(** X20. The top gainers and the bottom laggards are three
    holdings of the working set (all of them when there are fewer). When
    the return percentages of the working set are numbers (none is NaN),
    the top gainers stand in descending and the bottom laggards in
    ascending order of their return, no holding left out has a return
    above that of a top gainer, and none has a return below that of a
    bottom laggard. *)
Theorem top_gainers_and_laggards (data : list Holding) (simulateCleanup : bool) :
  let d := dashboardAnalysis data simulateCleanup in
  let ws := Dashboard.processedData d in
  (List.length (Dashboard.topGainers d) = Nat.min 3 (List.length ws) /\
   exists rest,
     Permutation (Dashboard.topGainers d ++ rest) ws /\
     (Forall properReturn ws ->
      StronglySorted (fun a b => Num.lt (_absReturn a) (_absReturn b) = false)
                     (Dashboard.topGainers d) /\
      forall g x, In g (Dashboard.topGainers d) -> In x rest ->
                  Num.lt (_absReturn g) (_absReturn x) = false)) /\
  (List.length (Dashboard.bottomLaggards d) = Nat.min 3 (List.length ws) /\
   exists rest,
     Permutation (Dashboard.bottomLaggards d ++ rest) ws /\
     (Forall properReturn ws ->
      StronglySorted (fun a b => Num.lt (_absReturn b) (_absReturn a) = false)
                     (Dashboard.bottomLaggards d) /\
      forall g x, In g (Dashboard.bottomLaggards d) -> In x rest ->
                  Num.lt (_absReturn x) (_absReturn g) = false)).
Proof.
  cbv zeta. cbn [Dashboard.processedData Dashboard.topGainers Dashboard.bottomLaggards
                 dashboardAnalysis].
  set (ws := Result.processedData (analysis data simulateCleanup)).
  assert (Hproper : forall l, Permutation l ws -> Forall properReturn ws ->
                      Forall (fun a => properNumber (_absReturn a) = true) (firstn 3 l)).
  { intros l Hl Hp. apply Forall_forall. intros a Ha. apply In_firstn in Ha.
    eapply Permutation_in in Ha; [|exact Hl].
    rewrite Forall_forall in Hp. apply properNumber_spec. now apply Hp. }
  split.
  - split; [now rewrite length_firstn, sortBy_length|].
    exists (skipn 3 (sortBy byGain ws)). split.
    + rewrite firstn_skipn. apply sortBy_perm.
    + intros Hp. split.
      * apply descending_strongly.
        -- apply Sorted_firstn, (sortBy_descending _absReturn).
        -- apply Hproper; [apply sortBy_perm|assumption].
      * apply descending_cut; [apply (sortBy_descending _absReturn)|].
        eapply Forall_perm; [apply sortBy_perm|exact Hp].
  - split; [now rewrite length_firstn, sortBy_length|].
    exists (skipn 3 (sortBy byLoss ws)). split.
    + rewrite firstn_skipn. apply sortBy_perm.
    + intros Hp. split.
      * apply ascending_strongly.
        -- apply Sorted_firstn, (sortBy_ascending _absReturn).
        -- apply Hproper; [apply sortBy_perm|assumption].
      * apply ascending_cut; [apply (sortBy_ascending _absReturn)|].
        eapply Forall_perm; [apply sortBy_perm|exact Hp].
Qed.

(** *** Sets of values *)

Lemma SFeqb_sym (x y : Num.num) : SFeqb x y = SFeqb y x.
Proof.
  unfold SFeqb. rewrite (SFcompare_antisym x y).
  destruct (SFcompare x y) as [[]|]; reflexivity.
Qed.

Lemma sameValueZero_sym (a b : value) : sameValueZero a b = sameValueZero b a.
Proof.
  destruct a, b; simpl; try reflexivity.
  - apply String.eqb_sym.
  - rewrite SFeqb_sym. f_equal. apply andb_comm.
Qed.

Lemma sameValueZero_refl (a : value) : sameValueZero a a = true.
Proof.
  destruct a as [| |s|x]; simpl; try reflexivity.
  - apply String.eqb_refl.
  - unfold SFeqb. destruct x as [s|s| |s m e]; simpl; try reflexivity.
    + now destruct s.
    + rewrite Z.compare_refl, Pos.compare_cont_refl. now destruct s.
Qed.

Lemma setOf_spec (l : list value) : forall seen,
  Forall (fun v => In v l /\ existsb (sameValueZero v) seen = false) (setOf seen l) /\
  (forall v, In v l ->
     existsb (sameValueZero v) seen = true \/
     exists w, In w (setOf seen l) /\ sameValueZero v w = true) /\
  ForallOrdPairs (fun a b => sameValueZero a b = false) (setOf seen l).
Proof.
  induction l as [|v r IH]; intros seen; cbn [setOf].
  - split; [constructor|]. split; [intros v []|constructor].
  - destruct (existsb (sameValueZero v) seen) eqn:E.
    + destruct (IH seen) as (H1 & H2 & H3). split; [|split; [|assumption]].
      * eapply Forall_impl; [|exact H1]. cbv beta. intros w [Hw Hs]. split; [now right|assumption].
      * intros v0 [<-|Hv]; [now left|]. now apply H2.
    + destruct (IH (v :: seen)) as (H1 & H2 & H3). split; [|split].
      * constructor; [split; [now left|assumption]|].
        eapply Forall_impl; [|exact H1]. cbv beta. intros w [Hw Hs].
        split; [now right|]. cbn [existsb] in Hs. now apply orb_false_iff in Hs.
      * intros v0 [<-|Hv].
        -- right. exists v. split; [now left|apply sameValueZero_refl].
        -- destruct (H2 v0 Hv) as [Hs|(w & Hw & Hs)].
           ++ cbn [existsb] in Hs. apply orb_true_iff in Hs. destruct Hs as [Hs|Hs].
              ** right. exists v. split; [now left|assumption].
              ** now left.
           ++ right. exists w. split; [now right|assumption].
      * constructor; [|assumption].
        eapply Forall_impl; [|exact H1]. cbv beta. intros w [_ Hs].
        cbn [existsb] in Hs. apply orb_false_iff in Hs. destruct Hs as [Hs _].
        now rewrite sameValueZero_sym.
Qed.

(** X21. The options of the category filter are All, then the
    categories of the working set that are truthy, each once, in the
    order they first appear: every option after All is the category of a
    holding, every truthy category has its option, and no two of these
    options are the same value. An option that is a string, picked as the
    filter, keeps at least one holding. *)
Theorem categories_are_the_distinct_categories
    (data : list Holding) (simulateCleanup : bool) :
  let d := dashboardAnalysis data simulateCleanup in
  let ws := Dashboard.processedData d in
  exists rest,
    Dashboard.categories d = VStr "All" :: rest /\
    Forall (fun v => truthy v = true /\
                     exists it, In it ws /\ category (holding it) = v) rest /\
    (forall it, In it ws -> truthy (category (holding it)) = true ->
       exists v, In v rest /\ sameValueZero (category (holding it)) v = true) /\
    ForallOrdPairs (fun a b => sameValueZero a b = false) rest /\
    (forall s, In (VStr s) rest -> exists it, In it ws /\ inCategory s it = true).
Proof.
  cbv zeta. cbn [Dashboard.processedData Dashboard.categories dashboardAnalysis].
  set (ws := Result.processedData (analysis data simulateCleanup)).
  set (cats := filter truthy (map (fun d => category (holding d)) ws)).
  destruct (setOf_spec cats []) as (H1 & H2 & H3).
  assert (Hrest : Forall (fun v => truthy v = true /\
                     exists it, In it ws /\ category (holding it) = v) (setOf [] cats)).
  { eapply Forall_impl; [|exact H1]. cbv beta. intros v [Hv _].
    unfold cats in Hv. apply filter_In in Hv. destruct Hv as [Hv Ht].
    split; [assumption|]. apply in_map_iff in Hv. destruct Hv as (it & <- & Hit). eauto. }
  exists (setOf [] cats). split; [reflexivity|]. split; [assumption|].
  split; [|split; [assumption|]].
  - intros it Hit Ht.
    destruct (H2 (category (holding it))) as [Hs|(w & Hw & Hs)]; [|discriminate|eauto].
    unfold cats. apply filter_In. split; [|assumption].
    apply in_map_iff. eauto.
  - intros s Hs. rewrite Forall_forall in Hrest.
    destruct (Hrest _ Hs) as (_ & it & Hit & E). exists it. split; [assumption|].
    unfold inCategory. rewrite E, String.eqb_refl. apply orb_true_r.
Qed.

(** X22. When no key of the holdings is inherited from
    [Object.prototype], the dashboard lists at most seven AMCs: as many
    as there are AMC keys in the working set when these are fewer than
    seven, no key twice, each with the total of its holdings; the entries
    left out are those of the other keys, and when the totals are numbers
    (none is NaN) the listed entries stand in descending order of their
    totals and no entry left out has a total above a listed one. *)
Theorem top_amcs (data : list Holding) (simulateCleanup : bool) :
  ordinaryData data = true ->
  let d := dashboardAnalysis data simulateCleanup in
  let ws := Dashboard.processedData d in
  List.length (Dashboard.amcData d) =
    Nat.min 7 (List.length (nodup string_dec (map amcKey ws))) /\
  NoDup (map fst (Dashboard.amcData d)) /\
  Forall (fun e => In (fst e) (map amcKey ws) /\
                   snd e = guardedTotal (filter (hasKey amcKey (fst e)) ws))
         (Dashboard.amcData d) /\
  exists rest,
    Permutation (map fst (Dashboard.amcData d ++ rest)) (nodup string_dec (map amcKey ws)) /\
    (Forall (fun e => properNumber (snd e) = true) (Dashboard.amcData d ++ rest) ->
     StronglySorted (fun a b => Num.lt (snd a) (snd b) = false) (Dashboard.amcData d) /\
     forall e x, In e (Dashboard.amcData d) -> In x rest -> Num.lt (snd e) (snd x) = false).
Proof.
  intros _. cbv zeta. cbn [Dashboard.processedData Dashboard.amcData dashboardAnalysis].
  cbn [Result.processedData Result.amcData analysis].
  set (ws := workingSet simulateCleanup (map processItem data)).
  unfold runPass. rewrite runPass_byAMC. cbn [emptyPass byAMC].
  set (all := sortBy byValue (Obj.entries (fold_left (gstep amcKey updTotal) ws []))).
  assert (Hperm : Permutation (map fst all) (nodup string_dec (map amcKey ws))).
  { apply NoDup_Permutation; [apply totals_NoDup|apply NoDup_nodup|].
    intros k. rewrite nodup_In. apply totals_keys. }
  split.
  { rewrite length_firstn. f_equal. rewrite <- (length_map fst).
    now apply Permutation_length. }
  split.
  { pose proof (totals_NoDup amcKey ws) as Hnd. fold all in Hnd.
    rewrite <- (firstn_skipn 7 all), map_app in Hnd.
    now apply NoDup_app_remove_r in Hnd. }
  split.
  { apply Forall_forall. intros e He. apply In_firstn in He.
    split; [apply (totals_keys amcKey ws), in_map, He|].
    now apply totals_entry in He. }
  exists (skipn 7 all). rewrite firstn_skipn. split; [assumption|].
  intros Hp. split.
  - apply descending_strongly; [apply Sorted_firstn, totals_sorted|].
    apply Forall_forall. intros e He. apply In_firstn in He.
    rewrite Forall_forall in Hp. now apply Hp.
  - apply descending_cut; [apply totals_sorted|].
    eapply Forall_impl; [|exact Hp]. intros e He. now apply properNumber_spec in He.
Qed.

Lemma top_amcs_witness :
  let d := dashboardAnalysis SAMPLE_DATA false in
  let ws := Dashboard.processedData d in
  List.length (Dashboard.amcData d) =
    Nat.min 7 (List.length (nodup string_dec (map amcKey ws))) /\
  NoDup (map fst (Dashboard.amcData d)) /\
  Forall (fun e => In (fst e) (map amcKey ws) /\
                   snd e = guardedTotal (filter (hasKey amcKey (fst e)) ws))
         (Dashboard.amcData d) /\
  exists rest,
    Permutation (map fst (Dashboard.amcData d ++ rest)) (nodup string_dec (map amcKey ws)) /\
    (Forall (fun e => properNumber (snd e) = true) (Dashboard.amcData d ++ rest) ->
     StronglySorted (fun a b => Num.lt (snd a) (snd b) = false) (Dashboard.amcData d) /\
     forall e x, In e (Dashboard.amcData d) -> In x rest -> Num.lt (snd e) (snd x) = false).
Proof.
  apply (@top_amcs SAMPLE_DATA false). reflexivity.
Defined.

(** ** The holdings table *)

Lemma lowerChar_idem (c : ascii) : Str.lowerChar (Str.lowerChar c) = Str.lowerChar c.
Proof. destruct c as [[] [] [] [] [] [] [] []]; reflexivity. Qed.

Lemma toLowerCase_idem (s : string) : Str.toLowerCase (Str.toLowerCase s) = Str.toLowerCase s.
Proof. induction s as [|c s IH]; simpl; [reflexivity|]. now rewrite lowerChar_idem, IH. Qed.

Lemma includes_empty (s : string) : Str.includes "" s = true.
Proof. destruct s; reflexivity. Qed.

Lemma filterThrowing_text (t : string) (l : list Item) :
  Forall hasTextName l ->
  exists rows, filterThrowing (matchesSearch t) l = Some rows /\
               forall i, In i rows <-> In i l /\ matchesSearch t i = Some true.
Proof.
  induction 1 as [|x l [s Hx] Hl (rows & E & Hrows)]; cbn [filterThrowing].
  - exists []. split; [reflexivity|]. intros i. simpl. tauto.
  - unfold matchesSearch at 1. rewrite Hx, E.
    destruct (Str.includes (Str.toLowerCase t) (Str.toLowerCase s)) eqn:Em.
    + exists (x :: rows). split; [reflexivity|]. intros i. simpl. rewrite Hrows.
      split.
      * intros [<-|[H1 H2]]; [|tauto]. split; [now left|]. unfold matchesSearch.
        now rewrite Hx, Em.
      * intros [[<-|H1] H2]; tauto.
    + exists rows. split; [reflexivity|]. intros i. rewrite Hrows. simpl.
      split; [tauto|]. intros [[<-|H1] H2]; [|tauto].
      unfold matchesSearch in H2. rewrite Hx, Em in H2. discriminate.
Qed.

Lemma filterThrowing_throws (t : string) (l : list Item) :
  filterThrowing (matchesSearch t) l = None <-> exists i, In i l /\ ~ hasTextName i.
Proof.
  induction l as [|x l IH]; cbn [filterThrowing].
  - split; [discriminate|]. intros (i & [] & _).
  - unfold matchesSearch at 1. unfold hasTextName.
    destruct (schemeName (holding x)) as [| |s|n] eqn:Ex;
      try (split; [intros _; exists x; split; [now left|intros [s Hs]; congruence]|reflexivity]).
    destruct (filterThrowing (matchesSearch t) l) as [rows|].
    + split; [discriminate|]. intros (i & [<-|Hi] & Hn).
      * exfalso. apply Hn. eauto.
      * destruct IH as [_ IH]. discriminate IH. exists i. split; assumption.
    + split; [|reflexivity]. intros _. destruct IH as [IH _].
      destruct (IH eq_refl) as (i & Hi & Hn). exists i. split; [now right|assumption].
Qed.

Lemma filterThrowing_all (l : list Item) :
  Forall hasTextName l -> filterThrowing (matchesSearch "") l = Some l.
Proof.
  induction 1 as [|x l [s Hx] Hl IH]; cbn [filterThrowing]; [reflexivity|].
  unfold matchesSearch at 1. rewrite Hx, IH. cbn [Str.toLowerCase].
  now rewrite includes_empty.
Qed.

(** X23. The filter of the holdings table throws exactly when a
    holding that passes the category filter has a scheme name that is not
    a string; the case of the search term does not matter; and when every
    scheme name is a string, the filter All with an empty search term
    shows every holding, and any filter shows the holdings of the
    category whose lower-cased name contains the lower-cased term. *)
Theorem holdings_table_rows (categoryFilter searchTerm : string) (ws : list Item) :
  (holdingsShown categoryFilter searchTerm ws = None <->
   exists i, In i ws /\ inCategory categoryFilter i = true /\ ~ hasTextName i) /\
  holdingsShown categoryFilter (Str.toLowerCase searchTerm) ws =
    holdingsShown categoryFilter searchTerm ws /\
  (Forall hasTextName ws ->
   holdingsShown "All" "" ws = Some ws /\
   exists rows,
     holdingsShown categoryFilter searchTerm ws = Some rows /\
     forall i, In i rows <->
               In i ws /\ inCategory categoryFilter i = true /\
               matchesSearch searchTerm i = Some true).
Proof.
  unfold holdingsShown. split; [|split].
  - rewrite filterThrowing_throws. split.
    + intros (i & Hi & Hn). apply filter_In in Hi. exists i. tauto.
    + intros (i & Hi & Hc & Hn). exists i. split; [|assumption]. apply filter_In. tauto.
  - f_equal. unfold matchesSearch. now rewrite toLowerCase_idem.
  - intros Ht. split.
    + assert (E : filter (inCategory "All") ws = ws).
      { clear Ht. induction ws as [|x l IH]; simpl; [reflexivity|]. now rewrite IH. }
      rewrite E. now apply filterThrowing_all.
    + destruct (@filterThrowing_text searchTerm (filter (inCategory categoryFilter) ws))
        as (rows & E & Hrows); [now apply Forall_filter|].
      exists rows. split; [assumption|]. intros i. rewrite Hrows, filter_In. tauto.
Qed.

(** X24. A portfolio read from CSV text none of whose keys is
    inherited from [Object.prototype] never breaks the holdings table:
    every holding of its working set has a string for scheme name, so the
    filter returns rows for every category filter and search term. *)
Theorem csv_holdings_never_break_the_table
    (text : string) (simulateCleanup : bool) (categoryFilter searchTerm : string) :
  ordinaryData (map toHolding (parseCSVText text)) = true ->
  let r := analysis (map toHolding (parseCSVText text)) simulateCleanup in
  Forall hasTextName (Result.processedData r) /\
  exists rows,
    holdingsShown categoryFilter searchTerm (Result.processedData r) = Some rows.
Proof.
  intros _. cbv zeta. cbn [Result.processedData analysis].
  assert (H : Forall hasTextName
                (workingSet simulateCleanup
                   (map processItem (map toHolding (parseCSVText text))))).
  { apply Forall_forall. intros it Hin. apply workingSet_incl in Hin.
    apply in_map_iff in Hin. destruct Hin as (h & <- & Hh).
    apply in_map_iff in Hh. destruct Hh as (o & <- & Ho).
    pose proof (csv_rows_from_cells text) as Hc.
    rewrite Forall_forall in Hc. destruct (Hc o Ho) as (headers & cells & -> & Ht).
    destruct (text_row_scheme_name _ _ Ht) as (s & Hs & _).
    exists s. exact Hs. }
  split; [assumption|].
  destruct (@filterThrowing_text searchTerm
              (filter (inCategory categoryFilter)
                 (workingSet simulateCleanup
                    (map processItem (map toHolding (parseCSVText text))))))
    as (rows & E & _); [now apply Forall_filter|].
  exists rows. exact E.
Qed.

Lemma csv_holdings_never_break_the_table_witness :
  let r := analysis (map toHolding (parseCSVText smallText)) false in
  Forall hasTextName (Result.processedData r) /\
  exists rows,
    holdingsShown "All" "x" (Result.processedData r) = Some rows.
Proof.
  apply (@csv_holdings_never_break_the_table smallText false "All" "x"). reflexivity.
Defined.

(** The sample portfolio on the dashboard. *)
Example sample_dashboard :
  let d := dashboardAnalysis SAMPLE_DATA false in
  map (fun i => schemeName (holding i)) (Dashboard.topGainers d) =
    [VStr "SBI Small Cap Fund"; VStr "HDFC Top 100 Fund"; VStr "Parag Parikh Flexi Cap"] /\
  map (fun i => schemeName (holding i)) (Dashboard.bottomLaggards d) =
    [VStr "UTI Nifty 50 Index"; VStr "Nippon India Small Cap"; VStr "SBI Bluechip Fund"] /\
  Dashboard.categories d = [VStr "All"; VStr "Equity"; VStr "Hybrid"] /\
  List.length (Dashboard.amcData d) = 7%nat /\
  Dashboard.score d = 97 /\ Dashboard.label d = "Excellent" /\
  forallb (fun i => canonical (_absReturn i) && negb (Num.isNaN (_absReturn i)))
          (Dashboard.processedData d) = true.
Proof. vm_compute. repeat split. Qed.
